(** * react-entity-picker-lab: order normalizer, drag-and-drop engine,
      optimistic cache, sprint and issue services, search controller.

    The first part embeds the TypeScript sources, one module per source
    unit:
    - [Domain]                 issue, patch and sprint records;
    - [Js]                     the JavaScript array primitives the code uses;
    - [BoardPage]              the drag-end handler of the board route;
    - [BoardColumns]           the drag-end handler of the virtualised board;
    - [IssuesService]          server/src/issues/issues.service.ts;
    - [BoardsService]          the boards service (sprints, moveIssue);
    - [BoardsServiceChecked]   the boards service with ownership checks;
    - [JiraQueries], [useBatchPatchIssues], [useCreateIssue]
                               src/features/jira/api/jira.queries.ts;
    - [Picker], [useEntityMultiPicker], [EntityPicker]
                               the search controller of the two pickers;
    - [Columns]                the columns on screen and the drag gesture;
    - [usePatchIssue], [useMoveIssue]
                               src/features/jira/api/jira.queries.ts;
    - [IssuesTable]            [list] and [create] of the issues service;
    - [MultiSelect]            the selection and the keyboard of
                               src/hooks/useEntityMultiPicker.ts;
    - [JiraClient]             the request bodies of the jira client.
    The second part states and proves the properties. *)

From Stdlib Require Import ZArith String Lia.
From stdpp Require Import base option list gmap strings pretty.

Local Open Scope string_scope.
Local Open Scope Z_scope.
Local Open Scope list_scope.

(** ** Domain records *)

Module Domain.

(** [IssueStatus] is a union of string literals in TypeScript and a string at
    run time (drop targets are decoded from strings without validation). *)
Definition IssueStatus := string.

Definition backlog : IssueStatus := "backlog".
Definition todo : IssueStatus := "todo".
Definition in_progress : IssueStatus := "in_progress".
Definition done : IssueStatus := "done".

(** Modelled from the spec: the type declarations (domain/types.ts and the
    Prisma schema) are not among the sources. The fields are those of
    section 3 of the specification, which are also the ones [create] writes in
    issues.service.ts. *)
Record Issue := mkIssue {
  id : string;
  key : string;
  boardId : string;
  sprintId : option string;
  status : IssueStatus;
  order : Z;
  title : string;
  description : string;
  assigneeId : option string;
  watcherIds : list string;
}.

(** [{ ...it, order: o }] *)
Definition with_order (it : Issue) (o : Z) : Issue :=
  {| id := id it; key := key it; boardId := boardId it; sprintId := sprintId it;
     status := status it; order := o; title := title it;
     description := description it; assigneeId := assigneeId it;
     watcherIds := watcherIds it |}.

(** [{ ...it, status: s }] *)
Definition with_status (it : Issue) (s : IssueStatus) : Issue :=
  {| id := id it; key := key it; boardId := boardId it; sprintId := sprintId it;
     status := s; order := order it; title := title it;
     description := description it; assigneeId := assigneeId it;
     watcherIds := watcherIds it |}.

(** [Partial<Issue>]: every field optional; an absent key is [None]. A
    nullable field that is present and [null] is [Some None]. *)
Record IssuePatch := mkPatch {
  p_id : option string;
  p_key : option string;
  p_boardId : option string;
  p_sprintId : option (option string);
  p_status : option IssueStatus;
  p_order : option Z;
  p_title : option string;
  p_description : option string;
  p_assigneeId : option (option string);
  p_watcherIds : option (list string);
}.

Definition empty_patch : IssuePatch :=
  mkPatch None None None None None None None None None None.

(** [{ order: o }] *)
Definition order_patch (o : Z) : IssuePatch :=
  mkPatch None None None None None (Some o) None None None None.

(** [{ status: s, order: o }] *)
Definition status_order_patch (s : IssueStatus) (o : Z) : IssuePatch :=
  mkPatch None None None None (Some s) (Some o) None None None None.

(** [{ ...it, ...patch }]: own keys of the patch override those of [it]. *)
Definition spread (it : Issue) (p : IssuePatch) : Issue :=
  {| id := default (id it) (p_id p);
     key := default (key it) (p_key p);
     boardId := default (boardId it) (p_boardId p);
     sprintId := default (sprintId it) (p_sprintId p);
     status := default (status it) (p_status p);
     order := default (order it) (p_order p);
     title := default (title it) (p_title p);
     description := default (description it) (p_description p);
     assigneeId := default (assigneeId it) (p_assigneeId p);
     watcherIds := default (watcherIds it) (p_watcherIds p) |}.

(** [{ id, patch }] as sent to the batch endpoint. *)
Record IssueChange := mkChange {
  change_id : string;
  change_patch : IssuePatch;
}.

(** Modelled from the spec: the sprint of section 3 of the specification,
    with the columns [createSprint] writes. *)
Record Sprint := mkSprint {
  sprint_id : string;
  sprint_boardId : string;
  sprint_name : string;
  isActive : bool;
}.

#[global] Instance Issue_eq_dec : EqDecision Issue.
Proof. solve_decision. Defined.

#[global] Instance IssuePatch_eq_dec : EqDecision IssuePatch.
Proof. solve_decision. Defined.

#[global] Instance IssueChange_eq_dec : EqDecision IssueChange.
Proof. solve_decision. Defined.

#[global] Instance Sprint_eq_dec : EqDecision Sprint.
Proof. solve_decision. Defined.

End Domain.

Import Domain.

(** ** JavaScript array primitives *)

Module Js.

(** Truthiness of a [string | null]: [null] and the empty string are falsy. *)
Definition truthy (s : option string) : bool :=
  match s with
  | None => false
  | Some s => negb (bool_decide (s = ""))
  end.

Section Arrays.
Context {A : Type}.

(** [Array.prototype.find(pred)] *)
Definition find (P : A → Prop) `{∀ x, Decision (P x)} (l : list A) : option A :=
  snd <$> list_find P l.

(** [Array.prototype.findIndex(pred)], [-1] when nothing matches. *)
Definition findIndex (P : A → Prop) `{∀ x, Decision (P x)} (l : list A) : Z :=
  match list_find P l with
  | Some (i, _) => Z.of_nat i
  | None => -1
  end.

(** [arr.splice(i, 0, x)] for [0 <= i <= arr.length]. *)
Definition splice_in (i : nat) (x : A) (l : list A) : list A :=
  take i l ++ x :: drop i l.

(** [arrayMove(array, from, to)] of @dnd-kit/sortable, for in-range indices:
    the element at [from] is removed, then inserted at [to]. *)
Definition arrayMove (array : list A) (from to : nat) : list A :=
  match array !! from with
  | Some x => splice_in to x (delete from array)
  | None => array
  end.

(** [arr.slice().sort((a, b) => key(a) - key(b))]: the sort is stable, so each
    element is inserted after the elements that do not exceed it. *)
Fixpoint insert_sorted (key : A → Z) (x : A) (l : list A) : list A :=
  match l with
  | [] => [x]
  | y :: l' => if Z.ltb (key x) (key y) then x :: y :: l'
               else y :: insert_sorted key x l'
  end.

Definition sort_by (key : A → Z) (l : list A) : list A :=
  foldl (λ acc x, insert_sorted key x acc) [] l.

End Arrays.

End Js.

Import Js.

(** ** BoardPage: the board page with the inline drag-end handler *)

Module BoardPage.

(** [const view = sprintId ? "sprint" : "backlog"] *)
Inductive View := BacklogView | SprintView.

Definition canShowStatus (view : View) (s : IssueStatus) : bool :=
  match view with
  | BacklogView => bool_decide (s = backlog)
  | SprintView => negb (bool_decide (s = backlog))
  end.

(** [id.startsWith("status:") ? id.replace("status:", "") : null] *)
Definition parseDropStatus (id : option string) : option IssueStatus :=
  match id with
  | None => None
  | Some s =>
      if bool_decide (s = "") then None
      else if String.prefix "status:" s
           then Some (String.substring 7 (String.length s - 7) s)
           else None
  end.

(** [list.slice().map((it, idx) => ({ ...it, order: (idx + 1) * 1000 }))] *)
Definition normalizeOrders (lst : list Issue) : list Issue :=
  imap (λ idx it, with_order it ((Z.of_nat idx + 1) * 1000)) lst.

(** [issues.slice().sort((a, b) => a.order - b.order)] *)
Definition scopedIssues (issues : list Issue) : list Issue :=
  sort_by order issues.

(** [scopedIssues.filter((i) => i.status === s).slice().sort(byOrder)] *)
Definition columnOf (scoped : list Issue) (s : IssueStatus) : list Issue :=
  sort_by order (filter (λ i, status i = s) scoped).

(** Destination status: the column sentinel if the over id is one, else the
    status of the issue under the pointer. *)
Definition dropStatus (scoped : list Issue) (oId : string) : option IssueStatus :=
  let overIssue := find (λ x, id x = oId) scoped in
  let toStatus := parseDropStatus (Some oId) in
  if truthy toStatus then toStatus else status <$> overIssue.

Definition orderChange (it : Issue) : IssueChange :=
  mkChange (id it) (order_patch (order it)).

Definition statusOrderChange (it : Issue) : IssueChange :=
  mkChange (id it) (status_order_patch (status it) (order it)).

(** Same-column branch. *)
Definition reorder (scoped : list Issue) (aId : string) (fromStatus : IssueStatus)
    (overIssue : option Issue) : option (list IssueChange) :=
  match overIssue with
  | None => None
  | Some overIssue =>
      let lst := columnOf scoped fromStatus in
      let oldIndex := findIndex (λ x, id x = aId) lst in
      let newIndex := findIndex (λ x, id x = id overIssue) lst in
      if (oldIndex <? 0) || (newIndex <? 0) || (oldIndex =? newIndex) then None
      else
        let next := arrayMove lst (Z.to_nat oldIndex) (Z.to_nat newIndex) in
        let normalized := normalizeOrders next in
        Some (orderChange <$> normalized)
  end.

(** Cross-column branch. *)
Definition moveAcross (scoped : list Issue) (active : Issue)
    (toStatus : IssueStatus) (overIssue : option Issue) : list IssueChange :=
  let aId := id active in
  let fromList := columnOf scoped (status active) in
  let toList := columnOf scoped toStatus in
  let fromWithout := filter (λ x, id x ≠ aId) fromList in
  let moved := with_status active toStatus in
  let toNext := filter (λ x, id x ≠ aId) toList in
  let insertAt :=
    match overIssue with
    | Some overIssue => Z.max 0 (findIndex (λ x, id x = id overIssue) toNext)
    | None => Z.of_nat (length toNext)
    end in
  let toNext :=
    if (0 <=? insertAt) && (insertAt <=? Z.of_nat (length toNext))
    then splice_in (Z.to_nat insertAt) moved toNext
    else toNext ++ [moved] in
  let normalizedTo := normalizeOrders toNext in
  let normalizedFrom := normalizeOrders fromWithout in
  (statusOrderChange <$> normalizedTo) ++ (orderChange <$> normalizedFrom).

(** [onDragEnd]: [None] when the handler returns without calling
    [batchPatch.mutate], [Some changes] when it calls it with [changes]. *)
Definition onDragEnd (view : View) (issues : list Issue)
    (activeId : string) (overId : option string) : option (list IssueChange) :=
  let scoped := scopedIssues issues in
  let aId := activeId in
  if negb (truthy overId) then None else
  match overId with
  | None => None
  | Some oId =>
      match find (λ x, id x = aId) scoped with
      | None => None
      | Some active =>
          let overIssue := find (λ x, id x = oId) scoped in
          match dropStatus scoped oId with
          | None => None
          | Some toStatus =>
              if negb (truthy (Some toStatus)) then None
              else if negb (canShowStatus view toStatus) then None
              else
                let fromStatus := status active in
                if bool_decide (fromStatus = toStatus)
                then reorder scoped aId fromStatus overIssue
                else Some (moveAcross scoped active toStatus overIssue)
          end
      end
  end.

End BoardPage.

(** ** src/features/jira/ui/BoardPage: BoardColumns, the virtualised board
       that the board route renders *)

Module BoardColumns.

Import BoardPage.

(** Modelled from the spec: domain/jira.utils, from which [BoardColumns]
    imports [parseDropStatus], [normalizeOrders] and [canShowStatus], is not
    among the sources. The three helpers are the ones of sections 4.1 and 4.2
    of the specification, which [BoardPage] defines inline; [canShowStatus]
    takes the view as its first argument here. *)
Definition canShowStatus (view : View) (s : IssueStatus) : bool :=
  BoardPage.canShowStatus view s.

(** Same-column branch: a missing over issue stands for the end of the column. *)
Definition reorder (scoped : list Issue) (aId : string) (fromStatus : IssueStatus)
    (overIssue : option Issue) : option (list IssueChange) :=
  let lst := columnOf scoped fromStatus in
  let oldIndex := findIndex (λ x, id x = aId) lst in
  if oldIndex <? 0 then None else
  let newIndex :=
    match overIssue with
    | Some overIssue => findIndex (λ x, id x = id overIssue) lst
    | None => Z.of_nat (length lst) - 1
    end in
  if (newIndex <? 0) || (oldIndex =? newIndex) then None
  else
    let next := arrayMove lst (Z.to_nat oldIndex) (Z.to_nat newIndex) in
    let normalized := normalizeOrders next in
    Some (orderChange <$> normalized).

(** [onDragEnd] of [BoardColumns]; [lastOverId] is [lastOverIdRef.current].
    The cross-column branch is the one of [BoardPage], statement for
    statement. *)
Definition onDragEnd (view : View) (issues : list Issue) (lastOverId : option string)
    (activeId : string) (overId : option string) : option (list IssueChange) :=
  let scoped := scopedIssues issues in
  let aId := activeId in
  let rawOverId := if truthy overId then overId else None in
  let oId := match rawOverId with Some o => Some o | None => lastOverId end in
  if negb (truthy oId) then None else
  match oId with
  | None => None
  | Some oId =>
      match find (λ x, id x = aId) scoped with
      | None => None
      | Some active =>
          let overIssue := find (λ x, id x = oId) scoped in
          match dropStatus scoped oId with
          | None => None
          | Some toStatus =>
              if negb (truthy (Some toStatus)) then None
              else if negb (canShowStatus view toStatus) then None
              else
                let fromStatus := status active in
                if bool_decide (fromStatus = toStatus)
                then reorder scoped aId fromStatus overIssue
                else Some (moveAcross scoped active toStatus overIssue)
          end
      end
  end.

End BoardColumns.

(** ** server/src/issues/issues.service.ts: IssuesService *)

Module IssuesService.

(** The issue table; [id] is its primary key. *)
Definition Table := list Issue.

(** [prisma.issue.update({ where: { id }, data })]: fails when no row has the
    id, otherwise writes the columns named in [data] and returns the row. *)
Definition update (db : Table) (i : string) (data : IssuePatch)
    : option (Table * Issue) :=
  match find (λ x, id x = i) db with
  | None => None
  | Some row =>
      let row' := spread row data in
      Some ((λ x, if bool_decide (id x = i) then row' else x) <$> db, row')
  end.

(** The [data] object built by [patch(id, patch)] for the row [existing]. *)
Definition patchData (existing : Issue) (patch : IssuePatch) : IssuePatch :=
  let status0 := p_status patch in
  let status1 :=
    match p_sprintId patch with
    | None => status0
    | Some None => Some backlog
    | Some (Some _) =>
        if bool_decide (status existing = backlog) then Some todo else status0
    end in
  {| p_id := None; p_key := None; p_boardId := None;
     p_sprintId := p_sprintId patch;
     p_status := status1;
     p_order := p_order patch;
     p_title := p_title patch;
     p_description := p_description patch;
     p_assigneeId := p_assigneeId patch;
     p_watcherIds := p_watcherIds patch |}.

(** [patch(id, patch)]; [None] when [findUniqueOrThrow] throws. *)
Definition patch (db : Table) (i : string) (p : IssuePatch)
    : option (Table * Issue) :=
  match find (λ x, id x = i) db with
  | None => None
  | Some existing => update db i (patchData existing p)
  end.

(** [buildBatchPatchData(patch)] *)
Definition buildBatchPatchData (patch : IssuePatch) : IssuePatch :=
  let status0 := p_status patch in
  let status1 :=
    match p_sprintId patch with
    | None => status0
    | Some None => Some backlog
    | Some (Some _) => Some todo
    end in
  {| p_id := None; p_key := None; p_boardId := None;
     p_sprintId := p_sprintId patch;
     p_status := status1;
     p_order := p_order patch;
     p_title := None;
     p_description := None;
     p_assigneeId := p_assigneeId patch;
     p_watcherIds := p_watcherIds patch |}.

(** [batchPatch(changes)]: one transaction; a failing update aborts it. *)
Fixpoint batchPatch (db : Table) (changes : list IssueChange)
    : option (Table * list Issue) :=
  match changes with
  | [] => Some (db, [])
  | c :: cs =>
      match update db (change_id c) (buildBatchPatchData (change_patch c)) with
      | None => None
      | Some (db1, row) =>
          match batchPatch db1 cs with
          | None => None
          | Some (db2, rows) => Some (db2, row :: rows)
          end
      end
  end.

End IssuesService.

(** ** BoardsService: sprints and the server-side move *)

Module BoardsService.

Definition ORDER_STEP : Z := 1000.

Record IdOrder := mkIdOrder { io_id : string; io_order : Z }.

(** [normalizeOrders<T extends { id: string }>(items: T[])] *)
Definition normalizeOrders {T} (get_id : T → string) (items : list T)
    : list IdOrder :=
  imap (λ idx it, {| io_id := get_id it;
                     io_order := (Z.of_nat idx + 1) * ORDER_STEP |}) items.

(** The sprint table; [sprint_id] is its primary key. *)
Definition SprintTable := list Sprint.

Definition set_active (s : Sprint) (b : bool) : Sprint :=
  {| sprint_id := sprint_id s; sprint_boardId := sprint_boardId s;
     sprint_name := sprint_name s; isActive := b |}.

(** [tx.sprint.updateMany({ where: { boardId, isActive: true },
                            data: { isActive: false } })] *)
Definition deactivateBoard (boardId : string) (sprints : SprintTable)
    : SprintTable :=
  (λ s, if bool_decide (sprint_boardId s = boardId) && isActive s
        then set_active s false else s) <$> sprints.

(** [tx.sprint.update({ where: { id: sprintId }, data: { isActive: true } })]:
    fails when no row has the id. *)
Definition activate (sprintId : string) (sprints : SprintTable)
    : option (SprintTable * Sprint) :=
  match find (λ s, sprint_id s = sprintId) sprints with
  | None => None
  | Some row =>
      let row' := set_active row true in
      Some ((λ s, if bool_decide (sprint_id s = sprintId) then row' else s)
              <$> sprints, row')
  end.

(** [tx.sprint.create({ data })]: the primary key rejects an id that is
    already taken. *)
Definition insertSprint (row : Sprint) (sprints : SprintTable)
    : option (SprintTable * Sprint) :=
  if bool_decide (sprint_id row ∈ sprint_id <$> sprints) then None
  else Some (sprints ++ [row], row).

(** [createSprint(boardId, { name, isActive })]; [newId] is the id the store
    generates. The transaction commits the whole body or nothing ([None]). *)
Definition createSprint (sprints : SprintTable) (newId : string)
    (boardId name : string) (isActiveArg : option bool)
    : option (SprintTable * Sprint) :=
  let isActive := default false isActiveArg in
  let tx := if isActive then deactivateBoard boardId sprints else sprints in
  insertSprint (mkSprint newId boardId name isActive) tx.

(** [setActiveSprint(boardId, sprintId)] *)
Definition setActiveSprint (sprints : SprintTable) (boardId sprintId : string)
    : option (SprintTable * Sprint) :=
  let tx := deactivateBoard boardId sprints in
  activate sprintId tx.

(** [body: { sprintId: string | null; status?: string; order?: number }] *)
Record MoveBody := mkMoveBody {
  body_sprintId : option string;
  body_status : option IssueStatus;
  body_order : option Z;
}.

(** [findMany({ where: { boardId, sprintId, status }, orderBy: { order: "asc" } })] *)
Definition findColumn (db : list Issue) (b : string) (sp : option string)
    (st : IssueStatus) : list Issue :=
  sort_by order
    (filter (λ x, boardId x = b ∧ sprintId x = sp ∧ status x = st) db).

(** Modelled from the spec: the Prisma schema, which declares the enum
    [IssueStatus], is not among the sources. The database sorts an enum
    column by the position of the value in the declaration of the enum, which
    section 3 of the specification gives as backlog, todo, in_progress,
    done. *)
Definition statusRank (s : IssueStatus) : Z :=
  if bool_decide (s = backlog) then 0
  else if bool_decide (s = todo) then 1
  else if bool_decide (s = in_progress) then 2
  else if bool_decide (s = done) then 3
  else 4.

(** [findMany({ where: { boardId, sprintId },
                 orderBy: [{ status: "asc" }, { order: "asc" }] })]: the rows
    by status and, within a status, by order. *)
Definition findScope (db : list Issue) (b : string) (sp : option string)
    : list Issue :=
  sort_by (λ x, statusRank (status x))
    (sort_by order (filter (λ x, boardId x = b ∧ sprintId x = sp) db)).

(** [prisma.issue.update({ where: { id }, data: { order } })] on a row that
    exists. *)
Definition updateOrder (db : list Issue) (io : IdOrder) : list Issue :=
  (λ x, if bool_decide (id x = io_id io) then with_order x (io_order io) else x)
    <$> db.

(** [{ ...issue, sprintId, status }] *)
Definition with_scope (it : Issue) (sp : option string) (st : IssueStatus)
    : Issue :=
  {| id := id it; key := key it; boardId := boardId it; sprintId := sp;
     status := st; order := order it; title := title it;
     description := description it; assigneeId := assigneeId it;
     watcherIds := watcherIds it |}.

(** [moveIssue(boardId, id, body)]: [None] is the [NotFoundException];
    otherwise the new table and the list the call returns. The moved issue is
    always found in [normalizedTo], so the inner [None] is never reached. *)
Definition moveIssue (db : list Issue) (b : string) (i : string) (body : MoveBody)
    : option (list Issue * list Issue) :=
  match find (λ x, id x = i) db with
  | None => None
  | Some issue =>
      if negb (bool_decide (boardId issue = b)) then None else
      let fromSprintId := sprintId issue in
      let fromStatus := status issue in
      let toSprintId := body_sprintId body in
      let toStatus :=
        match body_status body with
        | Some s => s
        | None => if truthy toSprintId then todo else backlog
        end in
      if bool_decide (fromSprintId = toSprintId)
         && bool_decide (fromStatus = toStatus)
      then Some (db, findScope db b toSprintId)
      else
        let fromList := findColumn db b fromSprintId fromStatus in
        let toList := findColumn db b toSprintId toStatus in
        let fromWithout := filter (λ x, id x ≠ i) fromList in
        let toNext := toList ++ [with_scope issue toSprintId toStatus] in
        let normalizedFrom := normalizeOrders id fromWithout in
        let normalizedTo := normalizeOrders id toNext in
        match find (λ x, io_id x = i) normalizedTo with
        | None => None
        | Some mine =>
            let db1 :=
              (λ x, if bool_decide (id x = i)
                    then with_order (with_scope x toSprintId toStatus) (io_order mine)
                    else x) <$> db in
            let db2 := foldl updateOrder db1 normalizedFrom in
            let db3 :=
              foldl updateOrder db2 (filter (λ it, io_id it ≠ i) normalizedTo) in
            Some (db3, findScope db3 b toSprintId)
        end
  end.

End BoardsService.

(** ** BoardsService with the board and ownership checks *)

Module BoardsServiceChecked.

Import BoardsService.

(** [createSprint]: the board must exist. *)
Definition createSprint (boards : list string) (sprints : SprintTable)
    (newId : string) (boardId name : string) (isActiveArg : option bool)
    : option (SprintTable * Sprint) :=
  if negb (bool_decide (boardId ∈ boards)) then None
  else BoardsService.createSprint sprints newId boardId name isActiveArg.

(** [setActiveSprint]: the sprint must belong to the board. *)
Definition setActiveSprint (sprints : SprintTable) (boardId sprintId : string)
    : option (SprintTable * Sprint) :=
  match find (λ s, sprint_id s = sprintId ∧ sprint_boardId s = boardId) sprints with
  | None => None
  | Some _ => BoardsService.setActiveSprint sprints boardId sprintId
  end.

End BoardsServiceChecked.

(** ** src/features/jira/api/jira.queries.ts: the optimistic cache *)

Module JiraQueries.

(** [jiraKeys.issues(boardId, sprintId)]: one cached list per partition. *)
Definition QueryKey : Type := string * option string.

(** The issue lists held by the query client. *)
Definition QueryCache : Type := gmap (string * option string) (list Issue).

Definition getQueryData (qc : QueryCache) (k : QueryKey) : option (list Issue) :=
  qc !! k.

Definition setQueryData (qc : QueryCache) (k : QueryKey) (v : list Issue)
    : QueryCache :=
  <[k := v]> qc.

(** [qc.getQueryData<Issue[]>(key) ?? []] *)
Definition cachedList (qc : QueryCache) (k : QueryKey) : list Issue :=
  default [] (getQueryData qc k).

(** [new Map(entries)]: entries are set in order, a later one replaces an
    earlier one with the same key. *)
Definition new_Map {V} (entries : list (string * V)) : gmap string V :=
  foldl (λ m e, <[e.1 := e.2]> m) ∅ entries.

End JiraQueries.

Module useBatchPatchIssues.

Import JiraQueries.

(** [onMutate(changes)]: the new cache and the context [{ prev }]. *)
Definition onMutate (k : QueryKey) (qc : QueryCache) (changes : list IssueChange)
    : QueryCache * list Issue :=
  let prev := cachedList qc k in
  let byId := new_Map ((λ c, (change_id c, change_patch c)) <$> changes) in
  let next :=
    (λ it, match byId !! id it with
           | Some patch => spread it patch
           | None => it
           end) <$> prev in
  (setQueryData qc k next, prev).

(** [onError(_err, _changes, ctx)] *)
Definition onError (k : QueryKey) (qc : QueryCache) (ctx : option (list Issue))
    : QueryCache :=
  match ctx with
  | Some prev => setQueryData qc k prev
  | None => qc
  end.

End useBatchPatchIssues.

Module useCreateIssue.

Import JiraQueries.

(** [Omit<Issue, "id" | "key">] *)
Record CreateIssueInput := mkCreateIssueInput {
  c_boardId : string;
  c_sprintId : option string;
  c_status : IssueStatus;
  c_order : Z;
  c_title : string;
  c_description : string;
  c_assigneeId : option string;
  c_watcherIds : list string;
}.

(** The mutation context [{ prev, tempId }]. *)
Record Context := mkContext {
  prev : list Issue;
  tempId : string;
}.

(** [{ ...issue, id: tempId, key: "TMP" }] *)
Definition optimistic (issue : CreateIssueInput) (tempId : string) : Issue :=
  {| id := tempId; key := "TMP"; boardId := c_boardId issue;
     sprintId := c_sprintId issue; status := c_status issue;
     order := c_order issue; title := c_title issue;
     description := c_description issue; assigneeId := c_assigneeId issue;
     watcherIds := c_watcherIds issue |}.

(** [onMutate(issue)]; [uuid] is the value of [crypto.randomUUID()]. *)
Definition onMutate (k : QueryKey) (qc : QueryCache) (uuid : string)
    (issue : CreateIssueInput) : QueryCache * Context :=
  let prev := cachedList qc k in
  let tempId := String.append "tmp_" uuid in
  (setQueryData qc k (prev ++ [optimistic issue tempId]),
   {| prev := prev; tempId := tempId |}).

(** [onError(_err, _vars, ctx)] *)
Definition onError (k : QueryKey) (qc : QueryCache) (ctx : option Context)
    : QueryCache :=
  match ctx with
  | Some ctx => setQueryData qc k (prev ctx)
  | None => qc
  end.

(** [onSuccess(created, _vars, ctx)] *)
Definition onSuccess (k : QueryKey) (qc : QueryCache) (created : Issue)
    (ctx : option Context) : QueryCache :=
  let prev := cachedList qc k in
  setQueryData qc k
    ((λ it, if bool_decide (Some (id it) = tempId <$> ctx) then created else it)
       <$> prev).

End useCreateIssue.

(** ** The search controller shared by the two pickers *)

Module Picker.

Record Entity := mkEntity {
  ent_id : string;
  label : string;
  subLabel : option string;
}.

(** [String.prototype.trim], on ASCII white space. *)
Fixpoint trimStart (s : string) : string :=
  match s with
  | EmptyString => EmptyString
  | String c s' => if Ascii.is_space c then trimStart s' else s
  end.

Definition trim (s : string) : string :=
  String.rev (trimStart (String.rev (trimStart s))).

(** One [new AbortController()] together with the [search(q, signal)] call
    that received its signal. Controllers are numbered in creation order. *)
Record Request := mkRequest {
  req_query : string;
  isNewQuery : bool;
  aborted : bool;
  settled : bool;
}.

(** [controller.abort()] *)
Definition abortRequest (r : Request) : Request :=
  mkRequest (req_query r) (isNewQuery r) true (settled r).

(** The promise returned by [search] has resolved or rejected. *)
Definition settleRequest (r : Request) : Request :=
  mkRequest (req_query r) (isNewQuery r) (aborted r) true.

(** [ref.current?.abort()] *)
Definition abort (ref : option nat) (reqs : list Request) : list Request :=
  match ref with
  | Some c => alter abortRequest c reqs
  | None => reqs
  end.

(** A request that is neither cancelled nor answered. *)
Definition outstanding (r : Request) : bool :=
  negb (aborted r) && negb (settled r).

Record Props := mkProps {
  minChars : nat;
  debounceMs : nat;
}.

(** The hook state: [useState] cells, refs, the pending effect cleanup, the
    debounce cell with its timer, and the controllers created so far. *)
Record State := mkState {
  open : bool;
  input : string;
  debounced : string;
  timer : option (string * nat);
  items : list Entity;
  loading : bool;
  error : option string;
  activeIndex : nat;
  abortRef : option nat;
  lastQueryRef : string;
  cleanup : option nat;
  requests : list Request;
}.

Definition initial : State :=
  mkState false "" "" None [] false None 0%nat None "" None [].

Definition setOpen (v : bool) (s : State) : State :=
  mkState v (input s) (debounced s) (timer s) (items s) (loading s) (error s)
    (activeIndex s) (abortRef s) (lastQueryRef s) (cleanup s) (requests s).

Definition setInput (v : string) (s : State) : State :=
  mkState (open s) v (debounced s) (timer s) (items s) (loading s) (error s)
    (activeIndex s) (abortRef s) (lastQueryRef s) (cleanup s) (requests s).

Definition setDebounced (v : string) (s : State) : State :=
  mkState (open s) (input s) v (timer s) (items s) (loading s) (error s)
    (activeIndex s) (abortRef s) (lastQueryRef s) (cleanup s) (requests s).

Definition setTimer (v : option (string * nat)) (s : State) : State :=
  mkState (open s) (input s) (debounced s) v (items s) (loading s) (error s)
    (activeIndex s) (abortRef s) (lastQueryRef s) (cleanup s) (requests s).

Definition setItems (v : list Entity) (s : State) : State :=
  mkState (open s) (input s) (debounced s) (timer s) v (loading s) (error s)
    (activeIndex s) (abortRef s) (lastQueryRef s) (cleanup s) (requests s).

Definition setLoading (v : bool) (s : State) : State :=
  mkState (open s) (input s) (debounced s) (timer s) (items s) v (error s)
    (activeIndex s) (abortRef s) (lastQueryRef s) (cleanup s) (requests s).

Definition setError (v : option string) (s : State) : State :=
  mkState (open s) (input s) (debounced s) (timer s) (items s) (loading s) v
    (activeIndex s) (abortRef s) (lastQueryRef s) (cleanup s) (requests s).

Definition setActiveIndex (v : nat) (s : State) : State :=
  mkState (open s) (input s) (debounced s) (timer s) (items s) (loading s)
    (error s) v (abortRef s) (lastQueryRef s) (cleanup s) (requests s).

Definition setAbortRef (v : option nat) (s : State) : State :=
  mkState (open s) (input s) (debounced s) (timer s) (items s) (loading s)
    (error s) (activeIndex s) v (lastQueryRef s) (cleanup s) (requests s).

Definition setLastQueryRef (v : string) (s : State) : State :=
  mkState (open s) (input s) (debounced s) (timer s) (items s) (loading s)
    (error s) (activeIndex s) (abortRef s) v (cleanup s) (requests s).

Definition setCleanup (v : option nat) (s : State) : State :=
  mkState (open s) (input s) (debounced s) (timer s) (items s) (loading s)
    (error s) (activeIndex s) (abortRef s) (lastQueryRef s) v (requests s).

Definition setRequests (v : list Request) (s : State) : State :=
  mkState (open s) (input s) (debounced s) (timer s) (items s) (loading s)
    (error s) (activeIndex s) (abortRef s) (lastQueryRef s) (cleanup s) v.

(** [abortRef.current?.abort()] *)
Definition abortCurrent (s : State) : State :=
  setRequests (abort (abortRef s) (requests s)) s.

(** The cleanup returned by the previous run of the effect:
    [() => controller.abort()]. *)
Definition runCleanup (s : State) : State :=
  setCleanup None (setRequests (abort (cleanup s) (requests s)) s).

(** What the user and the network can do to a picker. *)
Inductive Event :=
  | Open (b : bool)
  | Input (s : string)
  | Elapse (ms : nat)
  | SearchChanged
  | Highlight (i : nat)
  | ResetResults
  | Close
  | Resolve (c : nat) (res : list Entity)
  | Reject (c : nat)
  | RejectAbort (c : nat).

(** Modelled from the spec: hooks/useDebouncedValue.ts is not among the
    sources. The debounced cell takes the input value once it has remained
    unchanged for the delay; every change of the input restarts the delay. *)
Definition restartDebounce (delay : nat) (v : string) (s : State) : State :=
  setTimer (Some (v, delay)) s.

(** Modelled from the spec: the passing of [ms] milliseconds seen by the
    debounce timer of hooks/useDebouncedValue.ts. The result tells whether
    the debounced value changed. *)
Definition elapseDebounce (ms : nat) (s : State) : State * bool :=
  match timer s with
  | None => (s, false)
  | Some (v, rest) =>
      if (rest <=? ms)%nat
      then (setDebounced v (setTimer None s),
            negb (bool_decide (debounced s = v)))
      else (setTimer (Some (v, (rest - ms)%nat)) s, false)
  end.

End Picker.

(** ** src/hooks/useEntityMultiPicker.ts *)

Module useEntityMultiPicker.

Import Picker.

(** [resetResults()] *)
Definition resetResults (s : State) : State :=
  let s := abortCurrent s in
  let s := setItems [] s in
  let s := setError None s in
  let s := setLoading false s in
  setActiveIndex 0 s.

(** The search effect, run when one of [debounced, minChars, open, search]
    changed: first the cleanup of the previous run, then the body. *)
Definition effect (p : Props) (s : State) : State :=
  let s := runCleanup s in
  if negb (open s) then s else
  let q := trim (debounced s) in
  if (String.length q <? minChars p)%nat then
    let s := abortCurrent s in
    let s := setItems [] s in
    let s := setError None s in
    let s := setLoading false s in
    let s := setActiveIndex 0 s in
    setLastQueryRef q s
  else
    let s := abortCurrent s in
    let controller := length (requests s) in
    let s := setAbortRef (Some controller) s in
    let isNew := negb (bool_decide (q = lastQueryRef s)) in
    let s := setLastQueryRef q s in
    let s := setLoading true s in
    let s := setError None s in
    let s := setRequests (requests s ++ [mkRequest q isNew false false]) s in
    setCleanup (Some controller) s.

(** [.then((res) => ...)] followed by [.finally(...)]. *)
Definition onResolve (c : nat) (res : list Entity) (s : State) : State :=
  match requests s !! c with
  | None => s
  | Some r =>
      if settled r then s else
      let s := setRequests (alter settleRequest c (requests s)) s in
      let s :=
        if aborted r then s
        else
          let s := setItems res s in
          if isNewQuery r then setActiveIndex 0 s else s in
      if negb (aborted r) then setLoading false s else s
  end.

(** [.catch((e) => ...)] followed by [.finally(...)]; [isAbortError] tells
    whether [e] is a [DOMException] named [AbortError]. *)
Definition onReject (c : nat) (isAbortError : bool) (s : State) : State :=
  match requests s !! c with
  | None => s
  | Some r =>
      if settled r then s else
      let s := setRequests (alter settleRequest c (requests s)) s in
      let s :=
        if aborted r then s
        else if isAbortError then s
        else
          let s := setError (Some "Failed to load results") s in
          let s := setItems [] s in
          setActiveIndex 0 s in
      if negb (aborted r) then setLoading false s else s
  end.

Definition step (p : Props) (e : Event) (s : State) : State :=
  match e with
  | Open b =>
      if bool_decide (open s = b) then s else effect p (setOpen b s)
  | Input v =>
      if bool_decide (input s = v) then s
      else restartDebounce (debounceMs p) v (setInput v s)
  | Elapse ms =>
      let '(s, changed) := elapseDebounce ms s in
      if changed then effect p s else s
  | SearchChanged => effect p s
  | Highlight i => setActiveIndex i s
  | ResetResults => resetResults s
  | Close =>
      if bool_decide (open s = false) then s else effect p (setOpen false s)
  | Resolve c res => onResolve c res s
  | Reject c => onReject c false s
  | RejectAbort c => onReject c true s
  end.

Definition run (p : Props) (es : list Event) (s : State) : State :=
  foldl (λ s e, step p e s) s es.

End useEntityMultiPicker.

(** ** src/components/EntityPicker.tsx *)

Module EntityPicker.

Import Picker.

(** [close()] without the change of [open] and [query], which [step] adds. *)
Definition closeResults (s : State) : State :=
  let s := setItems [] s in
  let s := setError None s in
  let s := setLoading false s in
  let s := setActiveIndex 0 s in
  abortCurrent s.

(** The search effect of the single picker; it keeps no last query. *)
Definition effect (p : Props) (s : State) : State :=
  let s := runCleanup s in
  if negb (open s) then s else
  let q := trim (debounced s) in
  if (String.length q <? minChars p)%nat then
    let s := abortCurrent s in
    let s := setItems [] s in
    let s := setError None s in
    let s := setLoading false s in
    setActiveIndex 0 s
  else
    let s := abortCurrent s in
    let controller := length (requests s) in
    let s := setAbortRef (Some controller) s in
    let s := setLoading true s in
    let s := setError None s in
    let s := setRequests (requests s ++ [mkRequest q true false false]) s in
    setCleanup (Some controller) s.

(** [.then((res) => ...)] followed by [.finally(...)]. *)
Definition onResolve (c : nat) (res : list Entity) (s : State) : State :=
  match requests s !! c with
  | None => s
  | Some r =>
      if settled r then s else
      let s := setRequests (alter settleRequest c (requests s)) s in
      let s :=
        if aborted r then s
        else
          let s := setItems res s in
          setActiveIndex 0 s in
      if negb (aborted r) then setLoading false s else s
  end.

(** [.catch((e) => ...)] followed by [.finally(...)]. *)
Definition onReject (c : nat) (isAbortError : bool) (s : State) : State :=
  match requests s !! c with
  | None => s
  | Some r =>
      if settled r then s else
      let s := setRequests (alter settleRequest c (requests s)) s in
      let s :=
        if aborted r then s
        else if isAbortError then s
        else
          let s := setError (Some "Failed to load results") s in
          setItems [] s in
      if negb (aborted r) then setLoading false s else s
  end.

(** The state changes of one handler are committed together; the effect
    runs afterwards if [open] or [debounced] changed. *)
Definition step (p : Props) (e : Event) (s : State) : State :=
  match e with
  | Open b =>
      if bool_decide (open s = b) then s else effect p (setOpen b s)
  | Input v =>
      let s' := if bool_decide (input s = v) then s
                else restartDebounce (debounceMs p) v (setInput v s) in
      if open s then s' else effect p (setOpen true s')
  | Elapse ms =>
      let '(s, changed) := elapseDebounce ms s in
      if changed then effect p s else s
  | SearchChanged => effect p s
  | Highlight i => setActiveIndex i s
  | ResetResults => s
  | Close =>
      let s' := if bool_decide (input s = "") then s
                else restartDebounce (debounceMs p) "" (setInput "" s) in
      let s' := closeResults s' in
      if open s then effect p (setOpen false s') else s'
  | Resolve c res => onResolve c res s
  | Reject c => onReject c false s
  | RejectAbort c => onReject c true s
  end.

Definition run (p : Props) (es : list Event) (s : State) : State :=
  foldl (λ s e, step p e s) s es.

End EntityPicker.

(** ** Vocabulary of the statements *)

(** Two issues that differ at most in their [order] value. *)
Definition same_but_order (a b : Issue) : Prop :=
  with_order a 0 = with_order b 0.

(** The index at which a cross-column move inserts the moved issue into the
    destination column [toList]: before the issue under the pointer, at the
    front if that issue is not in the column, at the end without one. *)
Definition insertIndex (toList : list Issue) (overIssue : option Issue) : nat :=
  match overIssue with
  | Some ov => Z.to_nat (Z.max 0 (findIndex (λ x, id x = id ov) toList))
  | None => length toList
  end.

(** The new index of a same-column reorder in [BoardPage]: the index of the
    issue under the pointer, unresolved ([-1]) without one. *)
Definition pageNewIndex (lst : list Issue) (overIssue : option Issue) : Z :=
  match overIssue with
  | Some ov => findIndex (λ x, id x = id ov) lst
  | None => -1
  end.

(** The new index of a same-column reorder in [BoardColumns]: without an
    issue under the pointer, the last index of the column. *)
Definition columnsNewIndex (lst : list Issue) (overIssue : option Issue) : Z :=
  match overIssue with
  | Some ov => findIndex (λ x, id x = id ov) lst
  | None => Z.of_nat (length lst) - 1
  end.

(** [result] is the patch set of moving the issue at index [i] of [lst] to
    index [j]: one order-only patch per issue, the moved issue at position
    [j], the other issues in their previous relative order, and the order
    [(k + 1) * 1000] at position [k]. *)
Definition reorders_to (lst : list Issue) (i j : nat)
    (result : option (list IssueChange)) : Prop :=
  ∃ next,
    result = Some (BoardPage.orderChange <$> BoardPage.normalizeOrders next)
    ∧ next = arrayMove lst i j
    ∧ length next = length lst
    ∧ next !! j = lst !! i
    ∧ delete j next = delete i lst
    ∧ ∀ k it, next !! k = Some it →
        (BoardPage.orderChange <$> BoardPage.normalizeOrders next) !! k
        = Some (mkChange (id it) (order_patch ((Z.of_nat k + 1) * 1000))).

(** The patch of the last change of [changes] that addresses the issue [i]. *)
Definition lastPatchFor (i : string) (changes : list IssueChange)
    : option IssuePatch :=
  change_patch <$> last (filter (λ c, change_id c = i) changes).

(** The status [moveIssue] moves to: the one in the body, else [todo] for a
    sprint and [backlog] for none. *)
Definition destinationStatus (body : BoardsService.MoveBody) : IssueStatus :=
  match BoardsService.body_status body with
  | Some s => s
  | None => if truthy (BoardsService.body_sprintId body) then todo else backlog
  end.

(** The sprints of a board that are active. *)
Definition activeSprints (boardId : string) (sprints : list Sprint)
    : list Sprint :=
  filter (λ s, sprint_boardId s = boardId ∧ isActive s = true) sprints.

(** At most one sprint per board has [isActive = true]. *)
Definition at_most_one_active (sprints : list Sprint) : Prop :=
  ∀ b, (length (activeSprints b sprints) ≤ 1)%nat.

(** The sprint tables that [createSprint] and [setActiveSprint] of
    [BoardsService] can produce from the empty table. *)
Inductive reachable : list Sprint → Prop :=
  | reachable_empty : reachable []
  | reachable_create s newId b name act s' row :
      reachable s →
      BoardsService.createSprint s newId b name act = Some (s', row) →
      reachable s'
  | reachable_activate s b sprintId s' row :
      reachable s →
      BoardsService.setActiveSprint s b sprintId = Some (s', row) →
      reachable s'.

(** The same for the service with the board and ownership checks; the board
    table may be any at each call. *)
Inductive reachable_checked : list Sprint → Prop :=
  | reachable_checked_empty : reachable_checked []
  | reachable_checked_create boards s newId b name act s' row :
      reachable_checked s →
      BoardsServiceChecked.createSprint boards s newId b name act
      = Some (s', row) →
      reachable_checked s'
  | reachable_checked_activate s b sprintId s' row :
      reachable_checked s →
      BoardsServiceChecked.setActiveSprint s b sprintId = Some (s', row) →
      reachable_checked s'.

(** Any two active sprints of one board are the same row. *)
Definition active_unique (sprints : list Sprint) : Prop :=
  ∀ x y, x ∈ sprints → y ∈ sprints →
         sprint_boardId x = sprint_boardId y →
         isActive x = true → isActive y = true → x = y.

(** *** Sample boards *)

Definition sample_issue (i : string) (sp : option string) (st : IssueStatus)
    (o : Z) : Issue :=
  mkIssue i (String.append "DEMO-" i) "demo" sp st o "" "" None [].

(** A sprint board with two issues to do and one in progress. *)
Definition sprint_board : list Issue :=
  [ sample_issue "A" (Some "s1") todo 1000;
    sample_issue "B" (Some "s1") todo 2000;
    sample_issue "C" (Some "s1") in_progress 1000 ].

(** The backlog of the end-to-end scenario of the specification. *)
Definition backlog_board : list Issue :=
  [ sample_issue "A" None backlog 1000;
    sample_issue "B" None backlog 2000;
    sample_issue "C" None backlog 3000 ].

(** Every request that is still outstanding belongs to the controller that
    [ref] (the value of [abortRef.current]) points to. *)
Definition tracked (ref : option nat) (reqs : list Picker.Request) : Prop :=
  ∀ c r, reqs !! c = Some r → Picker.outstanding r = true → ref = Some c.

(** No request is outstanding. *)
Definition quiet (reqs : list Picker.Request) : Prop :=
  ∀ c r, reqs !! c = Some r → Picker.outstanding r = false.

(** The number of search requests that are neither cancelled nor answered. *)
Definition outstandingCount (s : Picker.State) : nat :=
  length (filter (λ r, Picker.outstanding r = true) (Picker.requests s)).

(** What the user sees of the search: results, error, loading flag and the
    highlighted index. *)
Definition displayed (s : Picker.State)
    : list Picker.Entity * option string * bool * nat :=
  (Picker.items s, Picker.error s, Picker.loading s, Picker.activeIndex s).

(** Two boards: [b1] with the active sprint [p1], [b2] with the active
    sprint [p2] and the inactive sprint [p3]. *)
Definition two_boards : list Sprint :=
  [ mkSprint "p1" "b1" "Sprint 1" true;
    mkSprint "p2" "b2" "Sprint 2" true;
    mkSprint "p3" "b2" "Sprint 3" false ].

(** The [onChange] handler of the input of [EntityMultiPicker]:
    [setInput(next); setOpen(true); if (next.trim().length < minChars)
    resetResults()]. The handler runs to its end before React commits the
    state it has set, and the search effect that the change of [open]
    triggers runs after that commit: [resetResults()], with its
    [abortRef.current?.abort()], comes before the effect of [setOpen(true)]. *)
Definition multiOnChange (p : Picker.Props) (next : string) : list Picker.Event :=
  [Picker.Input next]
  ++ (if (String.length (Picker.trim next) <? Picker.minChars p)%nat
      then [Picker.ResetResults] else [])
  ++ [Picker.Open true].

(** Three search results. *)
Definition sample_people : list Picker.Entity :=
  [ Picker.mkEntity "1" "Joan" None;
    Picker.mkEntity "2" "John" None;
    Picker.mkEntity "3" "Jorge" None ].

(** The user types ["jo"], receives results, moves the highlight to the
    third option, and the same query is dispatched again because the parent
    passed a new [search] function. *)
Definition refresh_trace : list Picker.Event :=
  [ Picker.Open true; Picker.Input "jo"; Picker.Elapse 250;
    Picker.Resolve 0 sample_people; Picker.Highlight 2;
    Picker.SearchChanged ].

(** ** The columns of the board and the drag gesture *)

Module Columns.

Import BoardPage.

(** [STATUSES], by key, in display order. *)
Definition STATUSES : list IssueStatus := [backlog; todo; in_progress; done].

(** The id of the droppable area of a column: [`status:${col.key}`]. *)
Definition droppableId (s : IssueStatus) : string := String.append "status:" s.

(** [STATUSES.filter((s) => canShowStatus(s.key))]: the columns on screen. *)
Definition rendered (view : View) : list IssueStatus :=
  filter (λ s, canShowStatus view s = true) STATUSES.

(** [base[it.status].push(it)]; [None] when [base] has no such key, where
    [push] is called on [undefined] and throws. *)
Definition pushByStatus (base : option (gmap string (list Issue))) (it : Issue)
    : option (gmap string (list Issue)) :=
  match base with
  | None => None
  | Some m =>
      match m !! status it with
      | Some l => Some (<[status it := l ++ [it]]> m)
      | None => None
      end
  end.

(** [issuesByStatus]: the four lists the columns display. *)
Definition issuesByStatus (scoped : list Issue)
    : option (gmap string (list Issue)) :=
  let base : gmap string (list Issue) :=
    {[ backlog := []; todo := []; in_progress := []; done := [] ]} in
  match foldl pushByStatus (Some base) scoped with
  | Some m => Some (sort_by order <$> m)
  | None => None
  end.

(** [activeId] and [lastOverIdRef.current]. *)
Record DragState := mkDragState {
  activeId : option string;
  lastOverIdRef : option string;
}.

Definition idle : DragState := mkDragState None None.

(** [onDragStart(e)]; [active] is [String(e.active.id)]. *)
Definition onDragStart (active : string) (s : DragState) : DragState :=
  mkDragState (Some active) (Some active).

(** [onDragOver(e)]; [over] is [e.over?.id]. *)
Definition onDragOver (over : option string) (s : DragState) : DragState :=
  if truthy over then mkDragState (activeId s) over else s.

(** [onDragCancel()] *)
Definition onDragCancel (s : DragState) : DragState :=
  mkDragState None None.

(** [onDragEnd(e)] of [BoardColumns] with its two effects: [setActiveId(null)]
    and the call of [onBatchPatch], if any. *)
Definition onDragEnd (view : View) (issues : list Issue) (active : string)
    (over : option string) (s : DragState)
    : DragState * option (list IssueChange) :=
  (mkDragState None (lastOverIdRef s),
   BoardColumns.onDragEnd view issues (lastOverIdRef s) active over).

(** A drag from its start on the card [active] over the droppables [overs]
    to its release over [over]. *)
Definition gesture (view : View) (issues : list Issue) (active : string)
    (overs : list (option string)) (over : option string) (s : DragState)
    : DragState * option (list IssueChange) :=
  onDragEnd view issues active over
    (foldl (λ s o, onDragOver o s) (onDragStart active s) overs).

End Columns.

(** ** jira.queries.ts: usePatchIssue and useMoveIssue *)

Module usePatchIssue.

Import JiraQueries.

(** [onMutate({ id, patch })]: the new cache and the context [{ prev }]. *)
Definition onMutate (k : QueryKey) (qc : QueryCache) (i : string)
    (patch : IssuePatch) : QueryCache * list Issue :=
  let prev := cachedList qc k in
  (setQueryData qc k
     ((λ it, if bool_decide (id it = i) then spread it patch else it) <$> prev),
   prev).

(** [onError(_err, _vars, ctx)] *)
Definition onError (k : QueryKey) (qc : QueryCache) (ctx : option (list Issue))
    : QueryCache :=
  match ctx with
  | Some prev => setQueryData qc k prev
  | None => qc
  end.

(** [onSuccess(updated)] *)
Definition onSuccess (k : QueryKey) (qc : QueryCache) (updated : Issue)
    : QueryCache :=
  let prev := cachedList qc k in
  setQueryData qc k
    ((λ it, if bool_decide (id it = id updated) then updated else it) <$> prev).

End usePatchIssue.

Module useMoveIssue.

Import JiraQueries.

(** [{ ...it, sprintId: toSprintId }] *)
Definition with_sprintId (it : Issue) (sp : option string) : Issue :=
  {| id := id it; key := key it; boardId := boardId it; sprintId := sp;
     status := status it; order := order it; title := title it;
     description := description it; assigneeId := assigneeId it;
     watcherIds := watcherIds it |}.

(** [onMutate({ id, toSprintId })]. The key is
    [jiraKeys.issues(boardId, sprintId)], so its second component is the
    [sprintId] of the route, which the filter compares with. *)
Definition onMutate (k : QueryKey) (qc : QueryCache) (i : string)
    (toSprintId : option string) : QueryCache * list Issue :=
  let prev := cachedList qc k in
  let next :=
    filter (λ it, sprintId it = k.2)
      ((λ it, if bool_decide (id it = i) then with_sprintId it toSprintId else it)
         <$> prev) in
  (setQueryData qc k next, prev).

(** [onError(_err, _vars, ctx)] *)
Definition onError (k : QueryKey) (qc : QueryCache) (ctx : option (list Issue))
    : QueryCache :=
  match ctx with
  | Some prev => setQueryData qc k prev
  | None => qc
  end.

End useMoveIssue.

(** ** issues.service.ts: list and create *)

Module IssuesTable.

Import IssuesService.

(** The [input] of [create]; an optional field that is absent is [None]. *)
Record CreateInput := mkCreateInput {
  in_boardId : string;
  in_sprintId : option string;
  in_title : string;
  in_description : option string;
  in_status : IssueStatus;
  in_order : Z;
  in_assigneeId : option (option string);
  in_watcherIds : option (list string);
}.

(** [`${input.boardId}-${count + 1}`] *)
Definition issueKey (b : string) (count : nat) : string :=
  String.append b (String.append "-" (pretty (count + 1)%nat)).

(** [create(input)]; [newId] is the id the store generates, and the primary
    key rejects one that is taken. *)
Definition create (db : Table) (newId : string) (input : CreateInput)
    : option (Table * Issue) :=
  let count := length (filter (λ x, boardId x = in_boardId input) db) in
  let key := issueKey (in_boardId input) count in
  let row :=
    {| id := newId; key := key; boardId := in_boardId input;
       sprintId := in_sprintId input; status := in_status input;
       order := in_order input; title := in_title input;
       description := default "" (in_description input);
       assigneeId := default None (in_assigneeId input);
       watcherIds := default [] (in_watcherIds input) |} in
  if bool_decide (newId ∈ id <$> db) then None
  else Some (db ++ [row], row).

(** [list({ boardId, sprintId })] *)
Definition list (db : Table) (b : string) (sp : option string) : Table :=
  sort_by order (filter (λ x, boardId x = b ∧ sprintId x = sp) db).

End IssuesTable.

(** ** useEntityMultiPicker.ts: the selection and the keyboard *)

Module MultiSelect.

Import Picker.

(** The arguments of the hook besides [value], [onChange] and [search]:
    [maxSelected] is [None] when it is absent or [null]; [hasOnCreate] tells
    whether [onCreate] is given. *)
Record Config := mkConfig {
  maxSelected : option nat;
  allowCreate : bool;
  hasOnCreate : bool;
  disabled : bool;
}.

(** [new Set(value.map((v) => String(v.id)))]; [ent_id] is [String(id)]. *)
Definition selectedIds (value : list Entity) : list string :=
  ent_id <$> value.

(** [maxSelected == null ? true : value.length < maxSelected] *)
Definition canSelectMore (cfg : Config) (value : list Entity) : bool :=
  match maxSelected cfg with
  | None => true
  | Some m => (length value <? m)%nat
  end.

(** [items.filter((it) => !selectedIds.has(String(it.id)))] *)
Definition visibleItems (value : list Entity) (s : State) : list Entity :=
  filter (λ it, ent_id it ∉ selectedIds value) (items s).

(** [String.prototype.toLowerCase], on ASCII letters. *)
Definition lowerChar (c : Ascii.ascii) : Ascii.ascii :=
  let n := Ascii.nat_of_ascii c in
  if (65 <=? n)%nat && (n <=? 90)%nat then Ascii.ascii_of_nat (n + 32) else c.

Fixpoint toLowerCase (s : string) : string :=
  match s with
  | EmptyString => EmptyString
  | String c s' => String (lowerChar c) (toLowerCase s')
  end.

(** [alreadySelectedByLabel] *)
Definition alreadySelectedByLabel (value : list Entity) (s : State) : bool :=
  let t := toLowerCase (trim (input s)) in
  if bool_decide (t = "") then false
  else bool_decide (Exists (λ v, toLowerCase (trim (label v)) = t) value).

(** [canCreate], which is also [hasCreateRow]. *)
Definition canCreate (p : Props) (cfg : Config) (value : list Entity)
    (s : State) : bool :=
  open s && allowCreate cfg && hasOnCreate cfg && canSelectMore cfg value
  && (minChars p <=? String.length (trim (input s)))%nat
  && negb (truthy (error s))
  && negb (alreadySelectedByLabel value s)
  && (length (visibleItems value s) =? 0)%nat.

(** [visibleItems.length + (hasCreateRow ? 1 : 0)] *)
Definition totalOptions (p : Props) (cfg : Config) (value : list Entity)
    (s : State) : nat :=
  length (visibleItems value s) + (if canCreate p cfg value s then 1 else 0).

(** What a handler does: whether it calls [e.preventDefault()], the argument
    of [onChange] if it calls it, the state updates it makes in order, the
    update it schedules with [window.setTimeout] and its delay, and the name
    it passes to [onCreate] if it calls it. *)
Record Outcome := mkOutcome {
  prevented : bool;
  changed : option (list Entity);
  updates : list Event;
  later : option (nat * Event);
  creating : option string;
}.

Definition nothing : Outcome := mkOutcome false None [] None None.

(** [add(item)] *)
Definition add (cfg : Config) (value : list Entity) (item : Entity) : Outcome :=
  if negb (canSelectMore cfg value) then nothing
  else if bool_decide (ent_id item ∈ selectedIds value) then nothing
  else mkOutcome false (Some (value ++ [item]))
         [Input (label item); ResetResults] (Some (120%nat, Input "")) None.

(** [removeById(id)] *)
Definition removeById (value : list Entity) (i : string) : Outcome :=
  mkOutcome false (Some (filter (λ v, ent_id v ≠ i) value)) [] None None.

(** [clearAll()] *)
Definition clearAll : Outcome :=
  mkOutcome false (Some []) [Input ""; ResetResults; Open false] None None.

(** [createAndAdd()] up to the call of [onCreate]: the name it passes, if
    it gets that far. *)
Definition createAndAdd (cfg : Config) (value : list Entity) (s : State)
    : option string :=
  if negb (hasOnCreate cfg) then None
  else if negb (canSelectMore cfg value) then None
  else if bool_decide (trim (input s) = "") then None
  else Some (trim (input s)).

(** [createAndAdd()] after [onCreate] has answered with [result] ([None] if
    it threw): the outcome, and the message passed to [setError] if any.
    [add] runs in the closure of the call, with the [value] of then. *)
Definition afterCreate (cfg : Config) (value : list Entity)
    (result : option Entity) : Outcome * option string :=
  match result with
  | Some created => (add cfg value created, None)
  | None => (nothing, Some "Failed to create")
  end.

Inductive ActiveOption :=
  | OptCreate
  | OptItem (item : Entity)
  | OptNone.

(** [getActiveOption()] *)
Definition getActiveOption (p : Props) (cfg : Config) (value : list Entity)
    (s : State) : ActiveOption :=
  if canCreate p cfg value s then
    if (activeIndex s =? 0)%nat then OptCreate
    else match visibleItems value s !! (activeIndex s - 1)%nat with
         | Some item => OptItem item
         | None => OptNone
         end
  else match visibleItems value s !! activeIndex s with
       | Some item => OptItem item
       | None => OptNone
       end.

(** [e.key], as far as the handler tells keys apart. *)
Inductive Key := ArrowDown | ArrowUp | Enter | Escape | Backspace | OtherKey.

#[global] Instance Key_eq_dec : EqDecision Key.
Proof. solve_decision. Defined.

Definition withPrevented (o : Outcome) : Outcome :=
  mkOutcome true (changed o) (updates o) (later o) (creating o).

(** [onKeyDown(e)] *)
Definition onKeyDown (p : Props) (cfg : Config) (value : list Entity)
    (s : State) (key : Key) : Outcome :=
  if disabled cfg then nothing
  else if bool_decide (key = Escape)
  then mkOutcome false None [Open false] None None
  else if negb (open s)
          && (bool_decide (key = ArrowDown) || bool_decide (key = Enter))
  then mkOutcome false None [Open true] None None
  else if bool_decide (key = Backspace)
          && bool_decide (trim (input s) = "")
          && (0 <? length value)%nat
  then match last value with
       | Some v => removeById value (ent_id v)
       | None => nothing
       end
  else if negb (open s) then nothing
  else match key with
       | ArrowDown =>
           mkOutcome true None
             [Highlight (Nat.min (activeIndex s + 1)
                           (Nat.max (totalOptions p cfg value s - 1) 0))]
             None None
       | ArrowUp =>
           mkOutcome true None [Highlight (Nat.max (activeIndex s - 1) 0)]
             None None
       | Enter =>
           match getActiveOption p cfg value s with
           | OptCreate =>
               if negb (loading s)
               then mkOutcome true None [] None (createAndAdd cfg value s)
               else mkOutcome true None [] None None
           | OptItem item => withPrevented (add cfg value item)
           | OptNone => mkOutcome true None [] None None
           end
       | _ => nothing
       end.

End MultiSelect.

(** ** jira.client: the requests of a sprint move and of a creation *)

Module JiraClient.

(** The body of [jiraClient.moveIssue({ id, sprintId })]: a [PATCH] of
    [/issues/:id] with [{ sprintId }], which the issues controller hands to
    [IssuesService.patch]. *)
Definition moveIssueBody (sprintId : option string) : IssuePatch :=
  mkPatch None None None (Some sprintId) None None None None None None.

(** The body of [jiraClient.createIssue(issue)]: a [POST] of [/issues] with
    the issue, which the issues controller hands to [IssuesService.create];
    every optional field of the input is present. *)
Definition createIssueBody (issue : useCreateIssue.CreateIssueInput)
    : IssuesTable.CreateInput :=
  IssuesTable.mkCreateInput
    (useCreateIssue.c_boardId issue) (useCreateIssue.c_sprintId issue)
    (useCreateIssue.c_title issue) (Some (useCreateIssue.c_description issue))
    (useCreateIssue.c_status issue) (useCreateIssue.c_order issue)
    (Some (useCreateIssue.c_assigneeId issue))
    (Some (useCreateIssue.c_watcherIds issue)).

End JiraClient.

(** ** Vocabulary of the further statements *)

(** Every element is related by [R] to all later elements. *)
Fixpoint sorted_wrt {A} (R : A → A → Prop) (l : list A) : Prop :=
  match l with
  | [] => True
  | x :: l' => Forall (R x) l' ∧ sorted_wrt R l'
  end.

(** The keys never decrease along the list. *)
Definition ascending {A} (key : A → Z) (l : list A) : Prop :=
  sorted_wrt (λ a b, key a ≤ key b) l.

(** The keys increase along the list. *)
Definition strictly_ascending {A} (key : A → Z) (l : list A) : Prop :=
  sorted_wrt (λ a b, key a < key b) l.

(** The optimistic value of an issue under a batch of changes: the issue
    overwritten by the last patch addressed to it. *)
Definition patched (changes : list IssueChange) (it : Issue) : Issue :=
  match lastPatchFor (id it) changes with
  | Some patch => spread it patch
  | None => it
  end.

(** A patch that names at most [status] and [order]. *)
Definition status_order_only (p : IssuePatch) : Prop :=
  p_id p = None ∧ p_key p = None ∧ p_boardId p = None ∧ p_sprintId p = None
  ∧ p_title p = None ∧ p_description p = None ∧ p_assigneeId p = None
  ∧ p_watcherIds p = None.

(** [changes] is the patch set of dragging the card [active] to the column
    [toStatus] and releasing it over [overIssue]: in its own column the card
    goes from its index [i] to another index [j] and the column is
    renumbered; in another column the patch set is that of [moveAcross]. *)
Definition drop_changes (scoped : list Issue) (active : Issue)
    (toStatus : IssueStatus) (overIssue : option Issue)
    (changes : list IssueChange) : Prop :=
  (status active = toStatus
   ∧ ∃ i j x,
       BoardPage.columnOf scoped toStatus !! i = Some x
       ∧ id x = id active
       ∧ (j < length (BoardPage.columnOf scoped toStatus))%nat
       ∧ i ≠ j
       ∧ changes
         = BoardPage.orderChange
             <$> BoardPage.normalizeOrders
                   (arrayMove (BoardPage.columnOf scoped toStatus) i j))
  ∨ (status active ≠ toStatus
     ∧ changes = BoardPage.moveAcross scoped active toStatus overIssue).

(** [changes] is the patch set of dragging the card [active] to the column
    [toStatus] with the issue [overIssue] under the pointer, where a drop in
    the card's own column moves it from its index to [newIndex]. *)
Definition drop_changes_at (scoped : list Issue) (active : Issue)
    (toStatus : IssueStatus) (overIssue : option Issue) (newIndex : Z)
    (changes : list IssueChange) : Prop :=
  let lst := BoardPage.columnOf scoped toStatus in
  let oldIndex := findIndex (λ x, id x = id active) lst in
  (status active = toStatus
   ∧ 0 ≤ oldIndex
   ∧ 0 ≤ newIndex < Z.of_nat (length lst)
   ∧ oldIndex ≠ newIndex
   ∧ changes
     = BoardPage.orderChange
         <$> BoardPage.normalizeOrders
               (arrayMove lst (Z.to_nat oldIndex) (Z.to_nat newIndex)))
  ∨ (status active ≠ toStatus
     ∧ changes = BoardPage.moveAcross scoped active toStatus overIssue).

(** The patch set [changes] renumbers the loaded issues [destPre], in this
    order, as the column [toStatus], and the issues [srcRest] as what is
    left of the column [fromStatus]; it addresses each of them once and no
    other issue. *)
Definition renumbers (issues destPre srcRest : list Issue)
    (changes : list IssueChange) (toStatus fromStatus : IssueStatus) : Prop :=
  change_id <$> changes = (id <$> destPre) ++ (id <$> srcRest)
  ∧ NoDup ((id <$> destPre) ++ (id <$> srcRest))
  ∧ (∀ k x, destPre !! k = Some x →
       ∃ p, mkChange (id x) p ∈ changes
            ∧ spread x p
              = with_order (with_status x toStatus) ((Z.of_nat k + 1) * 1000))
  ∧ (∀ k x, srcRest !! k = Some x →
       mkChange (id x) (order_patch ((Z.of_nat k + 1) * 1000)) ∈ changes)
  ∧ (∀ x, x ∈ destPre →
       x ∈ issues ∧ (status x = toStatus ∨ status x = fromStatus))
  ∧ (∀ x, x ∈ srcRest →
       x ∈ issues ∧ status x = fromStatus ∧ fromStatus ≠ toStatus)
  ∧ (∀ x, x ∈ issues → status x = toStatus → x ∈ destPre)
  ∧ (∀ x, x ∈ issues → status x = fromStatus → x ∈ destPre ∨ x ∈ srcRest).


(** Two rows that agree on [id], [key] and [boardId]. *)
Definition same_row (x y : Issue) : Prop :=
  id x = id y ∧ key x = key y ∧ boardId x = boardId y.

(** Two tables with the same rows as far as [id], [key] and [boardId] go,
    position by position. *)
Definition same_identity (db db' : list Issue) : Prop :=
  Forall2 same_row db db'.



(** [x] does not come after [y] in a list sorted by status and, within a
    status, by order. *)
Definition by_status_then_order (x y : Issue) : Prop :=
  BoardsService.statusRank (status x) < BoardsService.statusRank (status y)
  ∨ (BoardsService.statusRank (status x) = BoardsService.statusRank (status y)
     ∧ order x ≤ order y).

(** A patch that names none of [id], [key], [boardId], [sprintId], [title]
    and [description]: the keys the batch endpoint drops or rewrites. *)
Definition batch_plain (p : IssuePatch) : Prop :=
  p_id p = None ∧ p_key p = None ∧ p_boardId p = None ∧ p_sprintId p = None
  ∧ p_title p = None ∧ p_description p = None.

(** The row [x] after the updates of a batch, applied in order. *)
Definition updated_by (changes : list IssueChange) (x : Issue) : Issue :=
  foldl (λ y c, if bool_decide (id y = change_id c)
                then spread y (IssuesService.buildBatchPatchData (change_patch c))
                else y) x changes.

(** The query of every search request sent so far has at least [minChars]
    characters. *)
Definition queries_long_enough (p : Picker.Props) (reqs : list Picker.Request)
    : Prop :=
  Forall (λ r, (Picker.minChars p ≤ String.length (Picker.req_query r))%nat) reqs.

(** What holds of a picker after every event: an outstanding request belongs
    to the controller of [abortRef] and to the pending cleanup, there is none
    while the picker is closed or not loading, and no query was too short. *)
Definition picker_inv (p : Picker.Props) (s : Picker.State) : Prop :=
  tracked (Picker.abortRef s) (Picker.requests s)
  ∧ tracked (Picker.cleanup s) (Picker.requests s)
  ∧ (Picker.open s = false → quiet (Picker.requests s))
  ∧ (Picker.loading s = false → quiet (Picker.requests s))
  ∧ queries_long_enough p (Picker.requests s).

(** A selection without repeated ids that respects [maxSelected]. *)
Definition valid_selection (cfg : MultiSelect.Config)
    (value : list Picker.Entity) : Prop :=
  NoDup (Picker.ent_id <$> value)
  ∧ ∀ m, MultiSelect.maxSelected cfg = Some m → (length value ≤ m)%nat.

(** Three selected people. *)
Definition sample_selection : list Picker.Entity :=
  [ Picker.mkEntity "7" "Ada" None; Picker.mkEntity "8" "Bob" None;
    Picker.mkEntity "9" "Cy" None ].

(** * Properties *)

(** ** Order normalizer *)

Lemma with_order_same (a b : Issue) (o : Z) :
  same_but_order a b → with_order a o = with_order b o.
Proof.
  unfold same_but_order, with_order. intros H.
  injection H as -> -> -> -> -> -> -> -> ->. reflexivity.
Qed.

Lemma same_but_order_id (a b : Issue) : same_but_order a b → id a = id b.
Proof. unfold same_but_order, with_order. intros H. by injection H. Qed.

Lemma normalizeOrders_lookup (l : list Issue) (i : nat) :
  BoardPage.normalizeOrders l !! i
  = (λ it, with_order it ((Z.of_nat i + 1) * 1000)) <$> l !! i.
Proof. apply list_lookup_imap. Qed.

Lemma server_normalizeOrders_lookup {T} (get_id : T → string) (l : list T) (i : nat) :
  BoardsService.normalizeOrders get_id l !! i
  = (λ it, BoardsService.mkIdOrder (get_id it) ((Z.of_nat i + 1) * 1000)) <$> l !! i.
Proof. apply list_lookup_imap. Qed.

Lemma normalizeOrders_length (l : list Issue) :
  length (BoardPage.normalizeOrders l) = length l.
Proof. apply length_imap. Qed.

Lemma normalizeOrders_order (l : list Issue) (i : nat) (x : Issue) :
  BoardPage.normalizeOrders l !! i = Some x → order x = (Z.of_nat i + 1) * 1000.
Proof.
  rewrite normalizeOrders_lookup. destruct (l !! i); simpl; [|done].
  by intros [= <-].
Qed.

Lemma server_normalizeOrders_order {T} (g : T → string) (l : list T) i x :
  BoardsService.normalizeOrders g l !! i = Some x
  → BoardsService.io_order x = (Z.of_nat i + 1) * 1000.
Proof.
  rewrite server_normalizeOrders_lookup. destruct (l !! i); simpl; [|done].
  by intros [= <-].
Qed.

Lemma normalizeOrders_same (l l' : list Issue) :
  Forall2 same_but_order l l'
  → BoardPage.normalizeOrders l = BoardPage.normalizeOrders l'.
Proof.
  intros H. apply list_eq. intros i. rewrite !normalizeOrders_lookup.
  destruct (l !! i) as [a|] eqn:Ha.
  - destruct (Forall2_lookup_l _ _ _ _ _ H Ha) as (b & -> & Hab). simpl.
    f_equal. by apply with_order_same.
  - apply lookup_ge_None in Ha. rewrite (Forall2_length _ _ _ H) in Ha.
    apply lookup_ge_None in Ha. by rewrite Ha.
Qed.

Lemma server_normalizeOrders_same (l l' : list Issue) :
  Forall2 same_but_order l l'
  → BoardsService.normalizeOrders id l = BoardsService.normalizeOrders id l'.
Proof.
  intros H. apply list_eq. intros i. rewrite !server_normalizeOrders_lookup.
  destruct (l !! i) as [a|] eqn:Ha.
  - destruct (Forall2_lookup_l _ _ _ _ _ H Ha) as (b & -> & Hab). simpl.
    by rewrite (same_but_order_id _ _ Hab).
  - apply lookup_ge_None in Ha. rewrite (Forall2_length _ _ _ H) in Ha.
    apply lookup_ge_None in Ha. by rewrite Ha.
Qed.

(** C1. The order normalizer, on the server and on the client, returns one
    entry per input issue; the entry at 0-based position [i] carries the order
    [(i + 1) * 1000]; the orders are strictly increasing and pairwise
    distinct; and the result does not depend on the orders the input
    carried. *)
Theorem normalizeOrders_dense (l : list Issue) :
  let client := BoardPage.normalizeOrders l in
  let server := BoardsService.normalizeOrders id l in
  (length client = length l ∧ length server = length l)
  ∧ (∀ i it, l !! i = Some it →
       client !! i = Some (with_order it ((Z.of_nat i + 1) * 1000))
       ∧ server !! i
         = Some (BoardsService.mkIdOrder (id it) ((Z.of_nat i + 1) * 1000)))
  ∧ (∀ i j x y, (i < j)%nat → client !! i = Some x → client !! j = Some y →
       order x < order y)
  ∧ (∀ i j x y, (i < j)%nat → server !! i = Some x → server !! j = Some y →
       BoardsService.io_order x < BoardsService.io_order y)
  ∧ NoDup (order <$> client)
  ∧ NoDup (BoardsService.io_order <$> server)
  ∧ (∀ l', Forall2 same_but_order l l' →
       BoardPage.normalizeOrders l' = client
       ∧ BoardsService.normalizeOrders id l' = server).
Proof.
  intros client server. subst client server.
  split; [split; apply length_imap|].
  split.
  { intros i it Hi. rewrite normalizeOrders_lookup, server_normalizeOrders_lookup.
    by rewrite Hi. }
  split.
  { intros i j x y Hij Hx Hy.
    rewrite (normalizeOrders_order _ _ _ Hx), (normalizeOrders_order _ _ _ Hy). lia. }
  split.
  { intros i j x y Hij Hx Hy.
    rewrite (server_normalizeOrders_order _ _ _ _ Hx),
            (server_normalizeOrders_order _ _ _ _ Hy). lia. }
  split.
  { apply NoDup_alt. intros i j o Hi Hj.
    rewrite list_lookup_fmap in Hi, Hj.
    destruct (BoardPage.normalizeOrders l !! i) as [x|] eqn:Hx; [|done].
    destruct (BoardPage.normalizeOrders l !! j) as [y|] eqn:Hy; [|done].
    simpl in Hi, Hj. injection Hi as Hi. injection Hj as Hj.
    rewrite (normalizeOrders_order _ _ _ Hx) in Hi.
    rewrite (normalizeOrders_order _ _ _ Hy) in Hj. lia. }
  split.
  { apply NoDup_alt. intros i j o Hi Hj.
    rewrite list_lookup_fmap in Hi, Hj.
    destruct (BoardsService.normalizeOrders id l !! i) as [x|] eqn:Hx; [|done].
    destruct (BoardsService.normalizeOrders id l !! j) as [y|] eqn:Hy; [|done].
    simpl in Hi, Hj. injection Hi as Hi. injection Hj as Hj.
    rewrite (server_normalizeOrders_order _ _ _ _ Hx) in Hi.
    rewrite (server_normalizeOrders_order _ _ _ _ Hy) in Hj. lia. }
  intros l' H. split; symmetry.
  - by apply normalizeOrders_same.
  - by apply server_normalizeOrders_same.
Qed.

(** ** JavaScript array primitives *)

Section SortBy.
Context {A : Type} (key : A → Z).

Lemma insert_sorted_perm (x : A) (l : list A) : insert_sorted key x l ≡ₚ x :: l.
Proof.
  induction l as [|y l IH]; simpl; [done|].
  destruct (Z.ltb (key x) (key y)); [done|].
  rewrite IH. apply Permutation_swap.
Qed.

Lemma sort_by_perm (l : list A) : sort_by key l ≡ₚ l.
Proof.
  unfold sort_by.
  enough (∀ acc, foldl (λ acc x, insert_sorted key x acc) acc l ≡ₚ acc ++ l)
    as H by apply (H []).
  induction l as [|x l IH]; intros acc; simpl.
  - by rewrite app_nil_r.
  - rewrite IH, insert_sorted_perm. apply Permutation_middle.
Qed.

Lemma sort_by_length (l : list A) : length (sort_by key l) = length l.
Proof. by rewrite sort_by_perm. Qed.

Lemma sort_by_elem_of (x : A) (l : list A) : x ∈ sort_by key l ↔ x ∈ l.
Proof. by rewrite sort_by_perm. Qed.

End SortBy.

Section Find.
Context {A : Type} (P : A → Prop) `{!∀ x, Decision (P x)}.

Lemma find_Some (l : list A) (x : A) : find P l = Some x → x ∈ l ∧ P x.
Proof.
  unfold find. destruct (list_find P l) as [[i y]|] eqn:Hf; simpl; [|done].
  intros [= <-]. apply list_find_Some in Hf as (Hi & HP & _).
  split; [by eapply list_elem_of_lookup_2|done].
Qed.

Lemma find_None (l : list A) : find P l = None ↔ Forall (λ x, ¬ P x) l.
Proof.
  unfold find. rewrite fmap_None. apply list_find_None.
Qed.

Lemma find_is_Some (l : list A) (x : A) : x ∈ l → P x → is_Some (find P l).
Proof.
  intros Hx HP. destruct (find P l) eqn:Hf; [eauto|].
  apply find_None in Hf. rewrite Forall_forall in Hf. by destruct (Hf x Hx).
Qed.

Lemma findIndex_bounds (l : list A) :
  -1 ≤ findIndex P l < Z.of_nat (length l) ∨ (findIndex P l = -1 ∧ l = []).
Proof.
  unfold findIndex. destruct (list_find P l) as [[i y]|] eqn:Hf.
  - apply list_find_Some in Hf as (Hi & _). apply lookup_lt_Some in Hi. lia.
  - destruct l; [by right|]. left. simpl. lia.
Qed.

Lemma findIndex_lt (l : list A) : findIndex P l ≤ Z.of_nat (length l).
Proof. destruct (findIndex_bounds l) as [?|[-> _]]; lia. Qed.

Lemma findIndex_Some (l : list A) (i : nat) :
  findIndex P l = Z.of_nat i →
  ∃ x, l !! i = Some x ∧ P x ∧ ∀ j y, l !! j = Some y → (j < i)%nat → ¬ P y.
Proof.
  unfold findIndex. destruct (list_find P l) as [[k y]|] eqn:Hf; [|lia].
  intros Hk. assert (k = i) as -> by lia.
  apply list_find_Some in Hf as (Hy & HP & Hfirst). exists y. eauto.
Qed.

Lemma findIndex_neg (l : list A) :
  findIndex P l < 0 ↔ Forall (λ x, ¬ P x) l.
Proof.
  unfold findIndex. destruct (list_find P l) as [[k y]|] eqn:Hf.
  - split; [lia|]. intros Hall.
    pose proof (proj2 (list_find_None P l) Hall). congruence.
  - split; [|lia]. intros _. exact (proj1 (list_find_None P l) Hf).
Qed.

End Find.

Section Splice.
Context {A : Type}.

Lemma splice_in_length (i : nat) (x : A) (l : list A) :
  length (splice_in i x l) = S (length l).
Proof.
  unfold splice_in. rewrite length_app, length_take. simpl. rewrite length_drop. lia.
Qed.

Lemma splice_in_lookup (i : nat) (x : A) (l : list A) :
  (i ≤ length l)%nat → splice_in i x l !! i = Some x.
Proof.
  intros Hi. unfold splice_in. apply list_lookup_middle.
  by rewrite length_take_le.
Qed.

Lemma splice_in_elem_of (i : nat) (x y : A) (l : list A) :
  y ∈ splice_in i x l ↔ y = x ∨ y ∈ l.
Proof.
  unfold splice_in. rewrite elem_of_app, elem_of_cons.
  assert (y ∈ l ↔ y ∈ take i l ∨ y ∈ drop i l) as ->
    by (by rewrite <- elem_of_app, take_drop).
  tauto.
Qed.

Lemma splice_in_delete (i : nat) (x : A) (l : list A) :
  (i ≤ length l)%nat → delete i (splice_in i x l) = l.
Proof.
  intros Hi. unfold splice_in.
  rewrite <- (length_take_le l i) at 1 by done.
  rewrite delete_middle. apply take_drop.
Qed.

Lemma arrayMove_length (l : list A) (i j : nat) :
  (i < length l)%nat → length (arrayMove l i j) = length l.
Proof.
  intros Hi. unfold arrayMove.
  destruct (lookup_lt_is_Some_2 l i Hi) as [x Hx]. rewrite Hx.
  rewrite splice_in_length, length_delete by eauto. lia.
Qed.

Lemma arrayMove_lookup (l : list A) (i j : nat) :
  (i < length l)%nat → (j < length l)%nat → arrayMove l i j !! j = l !! i.
Proof.
  intros Hi Hj. unfold arrayMove.
  destruct (lookup_lt_is_Some_2 l i Hi) as [x Hx]. rewrite Hx.
  apply splice_in_lookup. rewrite length_delete by eauto. lia.
Qed.

Lemma arrayMove_others (l : list A) (i j : nat) :
  (i < length l)%nat → (j < length l)%nat →
  delete j (arrayMove l i j) = delete i l.
Proof.
  intros Hi Hj. unfold arrayMove.
  destruct (lookup_lt_is_Some_2 l i Hi) as [x Hx]. rewrite Hx.
  apply splice_in_delete. rewrite length_delete by eauto. lia.
Qed.

End Splice.

(** ** Drag-and-drop engine *)

Lemma filter_Forall_id {A} (P : A → Prop) `{!∀ x, Decision (P x)} (l : list A) :
  Forall P l → filter P l = l.
Proof.
  induction 1 as [|x l HP _ IH]; [done|].
  by rewrite filter_cons_True, IH.
Qed.

Lemma filter_none {A} (P : A → Prop) `{!∀ x, Decision (P x)} (l : list A) :
  (∀ x, x ∈ l → ¬ P x) → filter P l = [].
Proof.
  induction l as [|x l IH]; intros HP; [done|].
  rewrite filter_cons_False by (apply HP; left).
  apply IH. intros y Hy. apply HP. by right.
Qed.

Lemma NoDup_id_inj (l : list Issue) (x y : Issue) :
  NoDup (id <$> l) → x ∈ l → y ∈ l → id x = id y → x = y.
Proof.
  intros Hnd Hx Hy Hid.
  apply list_elem_of_lookup in Hx as [i Hi], Hy as [j Hj].
  assert (i = j) as ->.
  { apply (NoDup_lookup (id <$> l) i j (id x) Hnd).
    - by rewrite list_lookup_fmap, Hi.
    - by rewrite list_lookup_fmap, Hj, Hid. }
  congruence.
Qed.

Lemma filter_other_ids_length (l : list Issue) (a : Issue) :
  NoDup (id <$> l) → a ∈ l →
  S (length (filter (λ x, id x ≠ id a) l)) = length l.
Proof.
  induction l as [|y l IH]; intros Hnd Ha; [by apply elem_of_nil in Ha|].
  rewrite fmap_cons in Hnd. apply NoDup_cons in Hnd as [Hy Hnd].
  destruct (decide (id y = id a)) as [Heq|Hne].
  - rewrite filter_cons_False by (intros H; by apply H).
    simpl. f_equal. f_equal. apply filter_Forall_id.
    apply Forall_forall. intros z Hz Hza. apply Hy.
    rewrite Heq, <- Hza. apply list_elem_of_fmap. eauto.
  - rewrite filter_cons_True by done. simpl. f_equal. apply IH; [done|].
    apply elem_of_cons in Ha as [->|Ha]; [done|done].
Qed.

Lemma scopedIssues_elem_of (issues : list Issue) (x : Issue) :
  x ∈ BoardPage.scopedIssues issues ↔ x ∈ issues.
Proof. apply sort_by_elem_of. Qed.

Lemma scopedIssues_NoDup (issues : list Issue) :
  NoDup (id <$> issues) → NoDup (id <$> BoardPage.scopedIssues issues).
Proof.
  unfold BoardPage.scopedIssues. by rewrite (sort_by_perm order issues).
Qed.

Lemma columnOf_elem_of (scoped : list Issue) (s : IssueStatus) (x : Issue) :
  x ∈ BoardPage.columnOf scoped s ↔ x ∈ scoped ∧ status x = s.
Proof.
  unfold BoardPage.columnOf. rewrite sort_by_elem_of, list_elem_of_filter. tauto.
Qed.

Lemma columnOf_NoDup (scoped : list Issue) (s : IssueStatus) :
  NoDup (id <$> scoped) → NoDup (id <$> BoardPage.columnOf scoped s).
Proof.
  intros Hnd. unfold BoardPage.columnOf. rewrite (sort_by_perm order _).
  induction scoped as [|x l IH]; [done|].
  rewrite fmap_cons in Hnd. apply NoDup_cons in Hnd as [Hx Hnd].
  destruct (decide (status x = s)).
  - rewrite filter_cons_True by done. rewrite fmap_cons. apply NoDup_cons.
    split; [|by apply IH]. intros Hin. apply Hx.
    apply list_elem_of_fmap in Hin as (y & -> & Hy).
    apply list_elem_of_filter in Hy as [_ Hy]. apply list_elem_of_fmap. eauto.
  - rewrite filter_cons_False by done. by apply IH.
Qed.

Lemma normalizeOrders_statusOrderChange (l : list Issue) (s : IssueStatus)
    (k : nat) (c : IssueChange) :
  Forall (λ x, status x = s) l →
  (BoardPage.statusOrderChange <$> BoardPage.normalizeOrders l) !! k = Some c →
  ∃ it, l !! k = Some it ∧
        c = mkChange (id it) (status_order_patch s ((Z.of_nat k + 1) * 1000)).
Proof.
  intros Hall. rewrite list_lookup_fmap, normalizeOrders_lookup.
  destruct (l !! k) as [it|] eqn:Hk; simpl; [|done].
  intros [= <-]. exists it. split; [done|].
  unfold BoardPage.statusOrderChange. simpl.
  by rewrite (proj1 (Forall_lookup _ _) Hall _ _ Hk).
Qed.

Lemma normalizeOrders_orderChange (l : list Issue) (k : nat) (c : IssueChange) :
  (BoardPage.orderChange <$> BoardPage.normalizeOrders l) !! k = Some c →
  ∃ it, l !! k = Some it ∧
        c = mkChange (id it) (order_patch ((Z.of_nat k + 1) * 1000)).
Proof.
  rewrite list_lookup_fmap, normalizeOrders_lookup.
  destruct (l !! k) as [it|] eqn:Hk; simpl; [|done].
  intros [= <-]. by exists it.
Qed.

Section MoveAcross.
Variables (scoped : list Issue) (active : Issue) (toStatus : IssueStatus)
  (overIssue : option Issue).
Hypothesis Hnd : NoDup (id <$> scoped).
Hypothesis Hactive : active ∈ scoped.
Hypothesis Hcross : status active ≠ toStatus.

Local Abbreviation fromList := (BoardPage.columnOf scoped (status active)).
Local Abbreviation toList := (BoardPage.columnOf scoped toStatus).
Local Abbreviation insertAt := (insertIndex (BoardPage.columnOf scoped toStatus) overIssue).

Lemma moveAcross_toNext : filter (λ x, id x ≠ id active) toList = toList.
Proof.
  apply filter_Forall_id, Forall_forall. intros x Hx Hid.
  apply columnOf_elem_of in Hx as [Hx Hst].
  apply Hcross. by rewrite <- (NoDup_id_inj scoped x active Hnd Hx Hactive Hid).
Qed.

Lemma moveAcross_source_size : (1 ≤ length fromList)%nat.
Proof.
  assert (active ∈ fromList) as Hin by (by apply columnOf_elem_of).
  destruct fromList; [by apply elem_of_nil in Hin|simpl; lia].
Qed.

Lemma moveAcross_fromWithout :
  length (filter (λ x, id x ≠ id active) fromList) = (length fromList - 1)%nat.
Proof.
  assert (active ∈ fromList) as Hin by (by apply columnOf_elem_of).
  pose proof (filter_other_ids_length fromList active
                (columnOf_NoDup scoped _ Hnd) Hin). lia.
Qed.

Lemma insertIndex_le : (insertAt ≤ length toList)%nat.
Proof.
  unfold insertIndex. destruct overIssue as [ov|]; [|done].
  pose proof (findIndex_lt (λ x, id x = id ov) toList). lia.
Qed.

Lemma moveAcross_unfold :
  BoardPage.moveAcross scoped active toStatus overIssue
  = (BoardPage.statusOrderChange
       <$> BoardPage.normalizeOrders
             (splice_in insertAt (with_status active toStatus) toList))
    ++ (BoardPage.orderChange
          <$> BoardPage.normalizeOrders
                (filter (λ x, id x ≠ id active) fromList)).
Proof.
  unfold BoardPage.moveAcross. rewrite moveAcross_toNext.
  pose proof insertIndex_le as Hle. unfold insertIndex in *.
  destruct overIssue as [ov|].
  - pose proof (findIndex_lt (λ x, id x = id ov) toList).
    rewrite (proj2 (andb_true_iff _ _)); [done|].
    split; [apply Z.leb_le|apply Z.leb_le]; lia.
  - rewrite (proj2 (andb_true_iff _ _)); [by rewrite Nat2Z.id|].
    split; apply Z.leb_le; lia.
Qed.

End MoveAcross.

Lemma truthy_Some (s : string) : s ≠ "" → truthy (Some s) = true.
Proof. intros H. unfold truthy. by rewrite bool_decide_false. Qed.

Section Resolved.
Variables (view : BoardPage.View) (issues : list Issue) (aId oId : string)
  (active : Issue) (toStatus : IssueStatus).
Local Abbreviation scoped := (BoardPage.scopedIssues issues).
Hypothesis HoId : oId ≠ "".
Hypothesis HtoStatus : toStatus ≠ "".
Hypothesis Hfind : find (λ x, id x = aId) scoped = Some active.
Hypothesis Hdrop : BoardPage.dropStatus scoped oId = Some toStatus.
Hypothesis Hshow : BoardPage.canShowStatus view toStatus = true.

Lemma BoardPage_onDragEnd_resolved :
  BoardPage.onDragEnd view issues aId (Some oId)
  = if bool_decide (status active = toStatus)
    then BoardPage.reorder scoped aId (status active)
           (find (λ x, id x = oId) scoped)
    else Some (BoardPage.moveAcross scoped active toStatus
                 (find (λ x, id x = oId) scoped)).
Proof.
  unfold BoardPage.onDragEnd.
  rewrite (truthy_Some oId HoId). simpl negb. cbv iota.
  rewrite Hfind, Hdrop. cbv iota beta.
  rewrite (bool_decide_false _ HtoStatus), Hshow. reflexivity.
Qed.

Lemma BoardColumns_onDragEnd_resolved (lastOver : option string) :
  BoardColumns.onDragEnd view issues lastOver aId (Some oId)
  = if bool_decide (status active = toStatus)
    then BoardColumns.reorder scoped aId (status active)
           (find (λ x, id x = oId) scoped)
    else Some (BoardPage.moveAcross scoped active toStatus
                 (find (λ x, id x = oId) scoped)).
Proof.
  unfold BoardColumns.onDragEnd.
  rewrite (truthy_Some oId HoId). cbv iota. rewrite (truthy_Some oId HoId).
  simpl negb. cbv iota. rewrite Hfind, Hdrop. cbv iota beta.
  unfold BoardColumns.canShowStatus.
  rewrite (bool_decide_false _ HtoStatus), Hshow. reflexivity.
Qed.

End Resolved.

(** C3 (amended). A cross-column drag-end that moves an issue from a source
    column of size [a] to a destination column of size [b] emits exactly
    [(a - 1) + (b + 1)] patches, in [BoardPage] and in [BoardColumns] alike:
    first one patch per issue of the normalized destination list, in the
    order of that list (the issues of the destination column before the
    insertion index [p <= b], the moved issue at [p], the issues from [p]
    on), each with the destination status and the order [(k + 1) * 1000];
    then one patch per remaining issue of the normalized source list, in its
    order, with the new order only. *)
Theorem cross_column_patches (view : BoardPage.View) (issues : list Issue)
    (lastOver : option string) (aId oId : string) (active : Issue)
    (toStatus : IssueStatus) :
  NoDup (id <$> issues) →
  oId ≠ "" → toStatus ≠ "" →
  find (λ x, id x = aId) (BoardPage.scopedIssues issues) = Some active →
  BoardPage.dropStatus (BoardPage.scopedIssues issues) oId = Some toStatus →
  BoardPage.canShowStatus view toStatus = true →
  status active ≠ toStatus →
  let scoped := BoardPage.scopedIssues issues in
  let fromList := BoardPage.columnOf scoped (status active) in
  let toList := BoardPage.columnOf scoped toStatus in
  let a := length fromList in
  let b := length toList in
  let p := insertIndex toList (find (λ x, id x = oId) scoped) in
  ∃ changes,
    BoardPage.onDragEnd view issues aId (Some oId) = Some changes
    ∧ BoardColumns.onDragEnd view issues lastOver aId (Some oId) = Some changes
    ∧ (1 ≤ a)%nat
    ∧ length changes = ((a - 1) + (b + 1))%nat
    ∧ (p ≤ b)%nat
    ∧ changes !! p
      = Some (mkChange aId
                (status_order_patch toStatus ((Z.of_nat p + 1) * 1000)))
    ∧ (∀ k c, (k < b + 1)%nat → changes !! k = Some c →
         change_patch c
         = status_order_patch toStatus ((Z.of_nat k + 1) * 1000))
    ∧ (∀ k c, (b + 1 ≤ k)%nat → changes !! k = Some c →
         change_patch c = order_patch (Z.of_nat (k - b) * 1000))
    ∧ change_id <$> take (b + 1) changes
      = (id <$> take p toList) ++ aId :: (id <$> drop p toList)
    ∧ change_id <$> drop (b + 1) changes
      = id <$> filter (λ x, id x ≠ aId) fromList.
Proof.
  intros Hnd HoId Hto Hfind Hdrop Hshow Hcross scoped fromList toList a b p.
  destruct (find_Some _ _ _ Hfind) as [Hin HaId]. simpl in HaId.
  assert (NoDup (id <$> scoped)) as Hnds by by apply scopedIssues_NoDup.
  set (moved := with_status active toStatus).
  set (dest := BoardPage.statusOrderChange
                 <$> BoardPage.normalizeOrders (splice_in p moved toList)).
  set (src := BoardPage.orderChange
                <$> BoardPage.normalizeOrders
                      (filter (λ x, id x ≠ id active) fromList)).
  exists (dest ++ src).
  assert (BoardPage.moveAcross scoped active toStatus
            (find (λ x, id x = oId) scoped) = dest ++ src) as Hmove
    by (by apply moveAcross_unfold).
  assert (p ≤ b)%nat as Hp by (by apply insertIndex_le).
  assert (length dest = (b + 1)%nat) as Hdest.
  { subst dest. rewrite length_fmap, normalizeOrders_length, splice_in_length.
    subst b. lia. }
  assert (length src = (a - 1)%nat) as Hsrc.
  { subst src. rewrite length_fmap, normalizeOrders_length.
    by apply moveAcross_fromWithout. }
  assert (Forall (λ x, status x = toStatus) (splice_in p moved toList)) as Hst.
  { apply Forall_forall. intros x Hx. apply splice_in_elem_of in Hx as [->|Hx].
    - done.
    - by apply columnOf_elem_of in Hx as [_ ?]. }
  split.
  { rewrite (BoardPage_onDragEnd_resolved view issues aId oId active toStatus)
      by done.
    fold scoped. by rewrite bool_decide_false, Hmove. }
  split.
  { rewrite (BoardColumns_onDragEnd_resolved view issues aId oId active toStatus)
      by done.
    fold scoped. by rewrite bool_decide_false, Hmove. }
  split; [by apply moveAcross_source_size|].
  split; [rewrite length_app; lia|].
  split; [done|].
  split.
  { rewrite lookup_app_l by lia. subst dest.
    rewrite list_lookup_fmap, normalizeOrders_lookup.
    rewrite splice_in_lookup by done. simpl.
    unfold BoardPage.statusOrderChange. simpl. by rewrite HaId. }
  split.
  { intros k c Hk Hc. rewrite lookup_app_l in Hc by lia.
    destruct (normalizeOrders_statusOrderChange _ _ _ _ Hst Hc) as (it & _ & ->).
    done. }
  split.
  { intros k c Hk Hc. rewrite lookup_app_r in Hc by lia.
    destruct (normalizeOrders_orderChange _ _ _ Hc) as (it & _ & ->).
    simpl. f_equal. lia. }
  split.
  { rewrite <- Hdest, take_app_length. subst dest.
    rewrite <- list_fmap_compose.
    assert (change_id ∘ BoardPage.statusOrderChange = id) as -> by done.
    unfold BoardPage.normalizeOrders. rewrite fmap_imap.
    rewrite (imap_ext _ (const id)) by done.
    rewrite imap_const. unfold splice_in.
    rewrite fmap_app, fmap_cons. simpl. by rewrite HaId. }
  rewrite <- Hdest, drop_app_length. subst src.
  rewrite <- list_fmap_compose.
  assert (change_id ∘ BoardPage.orderChange = id) as -> by done.
  unfold BoardPage.normalizeOrders. rewrite fmap_imap.
  rewrite (imap_ext _ (const id)) by done.
  rewrite imap_const. by rewrite HaId.
Qed.

Lemma cross_column_patches_witness :
  ∃ changes,
    BoardPage.onDragEnd BoardPage.SprintView sprint_board "A" (Some "C")
    = Some changes
    ∧ length changes = 3%nat
    ∧ changes !! 0%nat
      = Some (mkChange "A" (status_order_patch in_progress 1000)).
Proof.
  destruct (cross_column_patches BoardPage.SprintView sprint_board None "A" "C"
              (sample_issue "A" (Some "s1") todo 1000) in_progress)
    as (changes & Hpage & _ & _ & Hlen & _ & Hmoved & _).
  - apply (bool_decide_unpack _). vm_compute. exact I.
  - discriminate.
  - discriminate.
  - vm_compute. reflexivity.
  - vm_compute. reflexivity.
  - reflexivity.
  - discriminate.
  - exists changes. split; [exact Hpage|]. split; [exact Hlen|exact Hmoved].
Defined.

(** C3 as stated fails: with two issues in the source column and one in the
    destination, three patches are emitted, not [(2 - 1) + 1]. *)
Lemma cross_column_count_counterexample :
  let scoped := BoardPage.scopedIssues sprint_board in
  let a := length (BoardPage.columnOf scoped todo) in
  let b := length (BoardPage.columnOf scoped in_progress) in
  ∃ changes,
    BoardPage.onDragEnd BoardPage.SprintView sprint_board "A" (Some "C")
    = Some changes
    ∧ a = 2%nat ∧ b = 1%nat
    ∧ length changes = 3%nat
    ∧ length changes ≠ ((a - 1) + b)%nat.
Proof.
  eexists. split; [vm_compute; reflexivity|].
  repeat split; vm_compute; congruence.
Qed.

Lemma reorders_to_intro (lst : list Issue) (i j : nat) :
  (i < length lst)%nat → (j < length lst)%nat →
  reorders_to lst i j
    (Some (BoardPage.orderChange
             <$> BoardPage.normalizeOrders (arrayMove lst i j))).
Proof.
  intros Hi Hj. exists (arrayMove lst i j).
  split; [done|]. split; [done|].
  split; [by apply arrayMove_length|].
  split; [by apply arrayMove_lookup|].
  split; [by apply arrayMove_others|].
  intros k it Hk. by rewrite list_lookup_fmap, normalizeOrders_lookup, Hk.
Qed.

Lemma BoardPage_reorder_cases (scoped : list Issue) (aId : string)
    (st : IssueStatus) (overIssue : option Issue) :
  let lst := BoardPage.columnOf scoped st in
  let oldIndex := findIndex (λ x, id x = aId) lst in
  let newIndex := pageNewIndex lst overIssue in
  0 ≤ oldIndex →
  (newIndex < 0 ∨ newIndex = oldIndex
   → BoardPage.reorder scoped aId st overIssue = None)
  ∧ (0 ≤ newIndex → newIndex ≠ oldIndex
     → reorders_to lst (Z.to_nat oldIndex) (Z.to_nat newIndex)
         (BoardPage.reorder scoped aId st overIssue)).
Proof.
  intros lst oldIndex newIndex Hold. subst newIndex.
  unfold BoardPage.reorder, pageNewIndex.
  destruct overIssue as [ov|]; [|split; [done|lia]].
  fold lst. fold oldIndex.
  set (newIndex := findIndex (λ x, id x = id ov) lst).
  pose proof (findIndex_bounds (λ x, id x = aId) lst) as Hob. fold oldIndex in Hob.
  pose proof (findIndex_bounds (λ x, id x = id ov) lst) as Hnb. fold newIndex in Hnb.
  split.
  - intros [Hneg| ->].
    + rewrite (proj2 (Z.ltb_lt _ _) Hneg). by rewrite orb_true_r.
    + by rewrite Z.eqb_refl, orb_true_r.
  - intros Hnew Hne.
    rewrite (proj2 (Z.ltb_ge _ _) Hold), (proj2 (Z.ltb_ge _ _) Hnew),
            (proj2 (Z.eqb_neq _ _)) by lia.
    simpl. apply reorders_to_intro; lia.
Qed.

Lemma BoardColumns_reorder_cases (scoped : list Issue) (aId : string)
    (st : IssueStatus) (overIssue : option Issue) :
  let lst := BoardPage.columnOf scoped st in
  let oldIndex := findIndex (λ x, id x = aId) lst in
  let newIndex := columnsNewIndex lst overIssue in
  0 ≤ oldIndex →
  (newIndex < 0 ∨ newIndex = oldIndex
   → BoardColumns.reorder scoped aId st overIssue = None)
  ∧ (0 ≤ newIndex → newIndex ≠ oldIndex
     → reorders_to lst (Z.to_nat oldIndex) (Z.to_nat newIndex)
         (BoardColumns.reorder scoped aId st overIssue)).
Proof.
  intros lst oldIndex newIndex Hold.
  unfold BoardColumns.reorder. fold lst. fold oldIndex.
  change (match overIssue with
          | Some ov => findIndex (λ x, id x = id ov) lst
          | None => Z.of_nat (length lst) - 1
          end) with newIndex.
  rewrite (proj2 (Z.ltb_ge _ _) Hold).
  pose proof (findIndex_bounds (λ x, id x = aId) lst) as Hob. fold oldIndex in Hob.
  assert (newIndex < Z.of_nat (length lst)) as Hnb.
  { subst newIndex. unfold columnsNewIndex. destruct overIssue as [ov|]; [|lia].
    destruct (findIndex_bounds (λ x, id x = id ov) lst) as [?|[-> ?]]; lia. }
  split.
  - intros [Hneg| ->].
    + by rewrite (proj2 (Z.ltb_lt _ _) Hneg).
    + by rewrite Z.eqb_refl, orb_true_r.
  - intros Hnew Hne.
    rewrite (proj2 (Z.ltb_ge _ _) Hnew), (proj2 (Z.eqb_neq _ _)) by lia.
    simpl. apply reorders_to_intro; lia.
Qed.

(** C2 (amended). For a same-column drag-end the old index of the moved issue
    always resolves in the column's order-sorted list. [BoardPage] emits no
    patch when no issue is under the pointer (drop on the column
    background); [BoardColumns] takes the last index of the column as the new
    index in that case. In both, no patch is emitted when the new index
    cannot be resolved or equals the old index; otherwise the patches are
    those of [arrayMove(list, oldIndex, newIndex)] followed by normalization:
    one order-only patch per issue of the column, the moved issue at the new
    index, the others in their previous relative order. *)
Theorem same_column_reorder (view : BoardPage.View) (issues : list Issue)
    (lastOver : option string) (aId oId : string) (active : Issue) :
  oId ≠ "" → status active ≠ "" →
  find (λ x, id x = aId) (BoardPage.scopedIssues issues) = Some active →
  BoardPage.dropStatus (BoardPage.scopedIssues issues) oId
  = Some (status active) →
  BoardPage.canShowStatus view (status active) = true →
  let scoped := BoardPage.scopedIssues issues in
  let lst := BoardPage.columnOf scoped (status active) in
  let overIssue := find (λ x, id x = oId) scoped in
  let oldIndex := findIndex (λ x, id x = aId) lst in
  let page := BoardPage.onDragEnd view issues aId (Some oId) in
  let columns := BoardColumns.onDragEnd view issues lastOver aId (Some oId) in
  0 ≤ oldIndex < Z.of_nat (length lst)
  ∧ (overIssue = None → page = None)
  ∧ (pageNewIndex lst overIssue < 0 ∨ pageNewIndex lst overIssue = oldIndex
     → page = None)
  ∧ (0 ≤ pageNewIndex lst overIssue → pageNewIndex lst overIssue ≠ oldIndex
     → reorders_to lst (Z.to_nat oldIndex)
         (Z.to_nat (pageNewIndex lst overIssue)) page)
  ∧ (columnsNewIndex lst overIssue < 0
     ∨ columnsNewIndex lst overIssue = oldIndex
     → columns = None)
  ∧ (0 ≤ columnsNewIndex lst overIssue
     → columnsNewIndex lst overIssue ≠ oldIndex
     → reorders_to lst (Z.to_nat oldIndex)
         (Z.to_nat (columnsNewIndex lst overIssue)) columns).
Proof.
  intros HoId Hst Hfind Hdrop Hshow scoped lst overIssue oldIndex page columns.
  destruct (find_Some _ _ _ Hfind) as [Hin HaId]. simpl in HaId.
  assert (0 ≤ oldIndex < Z.of_nat (length lst)) as Hold.
  { assert (active ∈ lst) as Hlst by (by apply columnOf_elem_of).
    destruct (findIndex_bounds (λ x, id x = aId) lst) as [Hb|[_ Hnil]].
    - fold oldIndex in Hb. split; [|lia].
      destruct (Z_lt_le_dec oldIndex 0) as [Hneg|]; [|done].
      apply findIndex_neg in Hneg. rewrite Forall_forall in Hneg.
      by destruct (Hneg active Hlst).
    - rewrite Hnil in Hlst. by apply elem_of_nil in Hlst. }
  assert (page = BoardPage.reorder scoped aId (status active) overIssue) as ->.
  { subst page.
    rewrite (BoardPage_onDragEnd_resolved view issues aId oId active
               (status active)) by done.
    by rewrite bool_decide_true. }
  assert (columns
          = BoardColumns.reorder scoped aId (status active) overIssue) as ->.
  { subst columns.
    rewrite (BoardColumns_onDragEnd_resolved view issues aId oId active
               (status active)) by done.
    by rewrite bool_decide_true. }
  destruct (BoardPage_reorder_cases scoped aId (status active) overIssue)
    as [Hp1 Hp2]; [apply Hold|].
  destruct (BoardColumns_reorder_cases scoped aId (status active) overIssue)
    as [Hc1 Hc2]; [apply Hold|].
  split; [done|]. split.
  { intros Hnone. apply Hp1. left. by rewrite Hnone. }
  split; [done|]. split; [done|]. split; done.
Qed.

Lemma same_column_reorder_witness :
  BoardPage.onDragEnd BoardPage.BacklogView backlog_board "C" (Some "A")
  = Some [ mkChange "C" (order_patch 1000);
           mkChange "A" (order_patch 2000);
           mkChange "B" (order_patch 3000) ].
Proof.
  destruct (same_column_reorder BoardPage.BacklogView backlog_board None
              "C" "A" (sample_issue "C" None backlog 3000))
    as (_ & _ & _ & Hmove & _).
  - discriminate.
  - discriminate.
  - vm_compute. reflexivity.
  - vm_compute. reflexivity.
  - reflexivity.
  - destruct Hmove as (next & -> & -> & _).
    + vm_compute. discriminate.
    + vm_compute. discriminate.
    + vm_compute. reflexivity.
Defined.

(** C2 as stated fails in [BoardColumns]: dropping the first backlog issue on
    the background of its own column emits three patches that move it to the
    end, where the claim says none. *)
Lemma same_column_background_counterexample :
  find (λ x, id x = "status:backlog") (BoardPage.scopedIssues backlog_board)
  = None
  ∧ BoardPage.dropStatus (BoardPage.scopedIssues backlog_board) "status:backlog"
    = Some backlog
  ∧ BoardColumns.onDragEnd BoardPage.BacklogView backlog_board None
      "A" (Some "status:backlog")
    = Some [ mkChange "B" (order_patch 1000);
             mkChange "C" (order_patch 2000);
             mkChange "A" (order_patch 3000) ]
  ∧ BoardColumns.onDragEnd BoardPage.BacklogView backlog_board None
      "A" (Some "status:backlog") ≠ None.
Proof. repeat split; vm_compute; congruence. Qed.

(** ** Issue patches and the sprint/status rule *)

Lemma patch_result (db : IssuesService.Table) (i : string) (p : IssuePatch)
    (existing : Issue) :
  find (λ x, id x = i) db = Some existing →
  ∃ db', IssuesService.patch db i p
         = Some (db', spread existing (IssuesService.patchData existing p))
         ∧ spread existing (IssuesService.patchData existing p) ∈ db'.
Proof.
  intros Hfind. unfold IssuesService.patch, IssuesService.update.
  rewrite Hfind. eexists. split; [reflexivity|].
  destruct (find_Some _ _ _ Hfind) as [Hin Hid]. simpl in Hid.
  apply list_elem_of_fmap. exists existing. split; [|done].
  by rewrite bool_decide_true.
Qed.

Lemma batchPatch_single (db : IssuesService.Table) (i : string) (p : IssuePatch)
    (existing : Issue) :
  find (λ x, id x = i) db = Some existing →
  ∃ db', IssuesService.batchPatch db [mkChange i p]
         = Some (db', [spread existing (IssuesService.buildBatchPatchData p)])
         ∧ spread existing (IssuesService.buildBatchPatchData p) ∈ db'.
Proof.
  intros Hfind. simpl. unfold IssuesService.update.
  rewrite Hfind. eexists. split; [reflexivity|].
  destruct (find_Some _ _ _ Hfind) as [Hin Hid]. simpl in Hid.
  apply list_elem_of_fmap. exists existing. split; [|done].
  by rewrite bool_decide_true.
Qed.

(** The status after a patch that names [sprintId]. A patch that sets
    [sprintId] to null leaves the issue in status [backlog], through [patch]
    and through the batch endpoint. An issue in status [backlog] that is
    moved into a sprint ends in status [todo] through both: the sprint rule
    runs after the status of the patch was applied and overwrites it.
    Through [patch], an issue in another status takes the supplied status
    and keeps its own when none is supplied. *)
Theorem sprint_move_status (db : IssuesService.Table) (i : string)
    (p : IssuePatch) (existing : Issue) :
  find (λ x, id x = i) db = Some existing →
  ∃ db' updated db'' batched,
    IssuesService.patch db i p = Some (db', updated)
    ∧ updated ∈ db'
    ∧ IssuesService.batchPatch db [mkChange i p] = Some (db'', [batched])
    ∧ batched ∈ db''
    ∧ (p_sprintId p = Some None →
         status updated = backlog ∧ status batched = backlog)
    ∧ (∀ s, p_sprintId p = Some (Some s) → status existing = backlog →
         status updated = todo ∧ status batched = todo)
    ∧ (∀ s, p_sprintId p = Some (Some s) → status existing ≠ backlog →
         status updated = default (status existing) (p_status p)).
Proof.
  intros Hfind.
  destruct (patch_result db i p existing Hfind) as (db' & -> & Hin).
  destruct (batchPatch_single db i p existing Hfind) as (db'' & -> & Hin').
  exists db', (spread existing (IssuesService.patchData existing p)),
    db'', (spread existing (IssuesService.buildBatchPatchData p)).
  split; [done|]. split; [done|]. split; [done|]. split; [done|].
  unfold IssuesService.patchData, IssuesService.buildBatchPatchData. simpl.
  split; [|split].
  - by intros ->.
  - intros s -> Hb. by rewrite bool_decide_true.
  - intros s -> Hb. by rewrite bool_decide_false.
Qed.

Lemma sprint_move_status_witness :
  ∃ db' updated,
    IssuesService.patch sprint_board "A"
      (mkPatch None None None (Some None) (Some done) None None None None None)
    = Some (db', updated)
    ∧ status updated = backlog.
Proof.
  destruct (sprint_move_status sprint_board "A"
              (mkPatch None None None (Some None) (Some done)
                 None None None None None)
              (sample_issue "A" (Some "s1") todo 1000))
    as (db' & updated & db'' & batched & Hpatch & _ & _ & _ & Hnull & _).
  - vm_compute. reflexivity.
  - exists db', updated. split; [exact Hpatch|]. by apply Hnull.
Defined.

(** C4. The explicit status is lost. A backlog issue patched with a sprint
    and the explicit status [in_progress] ends in [todo], through [patch]
    and through the batch endpoint: the status the caller supplied is
    overwritten by the sprint rule. On the same issue, sprint and status
    [moveIssue] of the boards service stores the status the caller
    supplied. *)
Theorem patch_drops_explicit_status :
  let p := mkPatch None None None (Some (Some "s1")) (Some in_progress)
             None None None None None in
  let body := BoardsService.mkMoveBody (Some "s1") (Some in_progress) None in
  ∃ db' updated db'' rows db3 ret moved,
    find (λ x, id x = "A") backlog_board
    = Some (sample_issue "A" None backlog 1000)
    ∧ IssuesService.patch backlog_board "A" p = Some (db', updated)
    ∧ status updated = todo
    ∧ status updated ≠ in_progress
    ∧ IssuesService.batchPatch backlog_board [mkChange "A" p]
      = Some (db'', rows)
    ∧ status <$> rows = [todo]
    ∧ BoardsService.moveIssue backlog_board "demo" "A" body = Some (db3, ret)
    ∧ find (λ x, id x = "A") db3 = Some moved
    ∧ sprintId moved = Some "s1"
    ∧ status moved = in_progress.
Proof.
  do 7 eexists. split; [vm_compute; reflexivity|].
  split; [vm_compute; reflexivity|].
  split; [vm_compute; reflexivity|].
  split; [vm_compute; congruence|].
  split; [vm_compute; reflexivity|].
  split; [vm_compute; reflexivity|].
  split; [vm_compute; reflexivity|].
  split; [vm_compute; reflexivity|].
  split; vm_compute; reflexivity.
Qed.

(** The batch endpoint sets [todo] for every non-null sprint. *)
Lemma batch_sprint_forces_todo (existing : Issue) (p : IssuePatch) (s : string) :
  p_sprintId p = Some (Some s) →
  status (spread existing (IssuesService.buildBatchPatchData p)) = todo.
Proof. unfold IssuesService.buildBatchPatchData. simpl. by intros ->. Qed.

(** ** Optimistic cache *)

Lemma cachedList_set (qc : JiraQueries.QueryCache) (k : JiraQueries.QueryKey)
    (v : list Issue) :
  JiraQueries.cachedList (JiraQueries.setQueryData qc k v) k = v.
Proof.
  unfold JiraQueries.cachedList, JiraQueries.getQueryData,
    JiraQueries.setQueryData, JiraQueries.QueryCache in *.
  by rewrite lookup_insert_eq.
Qed.

Lemma cachedList_set_ne (qc : JiraQueries.QueryCache)
    (k k' : JiraQueries.QueryKey) (v : list Issue) :
  k ≠ k' →
  JiraQueries.getQueryData (JiraQueries.setQueryData qc k v) k'
  = JiraQueries.getQueryData qc k'.
Proof.
  unfold JiraQueries.getQueryData, JiraQueries.setQueryData,
    JiraQueries.QueryCache in *.
  intros Hne. by rewrite lookup_insert_ne.
Qed.

Lemma setQueryData_restore (qc : JiraQueries.QueryCache)
    (k : JiraQueries.QueryKey) (v : list Issue) :
  JiraQueries.getQueryData qc k = Some (JiraQueries.cachedList qc k) →
  JiraQueries.setQueryData (JiraQueries.setQueryData qc k v) k
    (JiraQueries.cachedList qc k) = qc.
Proof.
  unfold JiraQueries.cachedList, JiraQueries.getQueryData,
    JiraQueries.setQueryData, JiraQueries.QueryCache in *.
  intros H. rewrite insert_insert_eq. by apply insert_id.
Qed.

Lemma replace_temp_fresh (l : list Issue) (t : string) (created : Issue) :
  t ∉ id <$> l →
  (λ it, if bool_decide (Some (id it) = Some t) then created else it) <$> l = l.
Proof.
  induction l as [|x l IH]; [done|].
  rewrite fmap_cons, not_elem_of_cons. intros [Hx Hl].
  rewrite fmap_cons, IH by done.
  rewrite bool_decide_false; [done|]. intros [= ?]. by apply Hx.
Qed.

(** C5. Optimistic create, for a placeholder id that no cached issue carries
    (the UUID is fresh). Right after [onMutate] the cached list of the
    partition is the previous list followed by one provisional entry whose id
    starts with [tmp_]. After [onSuccess] the provisional entry is replaced in
    place by the created issue: the list is the previous list followed by the
    created issue, so nothing is duplicated and no placeholder id is left.
    After [onError] the cached list is the previous list again, the whole
    cache is the previous cache when the partition was cached, and no other
    partition is touched at any point. *)
Theorem optimistic_create (k : JiraQueries.QueryKey)
    (qc : JiraQueries.QueryCache) (uuid : string)
    (issue : useCreateIssue.CreateIssueInput) (created : Issue) :
  let before := JiraQueries.cachedList qc k in
  let started := useCreateIssue.onMutate k qc uuid issue in
  let ctx := started.2 in
  let provisional := useCreateIssue.optimistic issue (useCreateIssue.tempId ctx) in
  let succeeded := useCreateIssue.onSuccess k started.1 created (Some ctx) in
  let failed := useCreateIssue.onError k started.1 (Some ctx) in
  useCreateIssue.tempId ctx ∉ id <$> before →
  JiraQueries.cachedList started.1 k = before ++ [provisional]
  ∧ id provisional = String.append "tmp_" uuid
  ∧ String.prefix "tmp_" (id provisional) = true
  ∧ JiraQueries.cachedList succeeded k = before ++ [created]
  ∧ (id created ≠ useCreateIssue.tempId ctx →
       useCreateIssue.tempId ctx
       ∉ id <$> JiraQueries.cachedList succeeded k)
  ∧ (NoDup (id <$> before) → id created ∉ id <$> before →
       NoDup (id <$> JiraQueries.cachedList succeeded k))
  ∧ JiraQueries.cachedList failed k = before
  ∧ (JiraQueries.getQueryData qc k = Some before → failed = qc)
  ∧ (∀ k', k ≠ k' →
       JiraQueries.getQueryData started.1 k' = JiraQueries.getQueryData qc k'
       ∧ JiraQueries.getQueryData succeeded k' = JiraQueries.getQueryData qc k'
       ∧ JiraQueries.getQueryData failed k' = JiraQueries.getQueryData qc k').
Proof.
  intros before started ctx provisional succeeded failed Hfresh.
  subst succeeded failed provisional ctx started.
  unfold useCreateIssue.onSuccess, useCreateIssue.onError,
    useCreateIssue.onMutate in *. simpl in *. fold before.
  rewrite !cachedList_set.
  assert ((λ it, if bool_decide (Some (id it) = Some (String.append "tmp_" uuid))
                 then created else it) <$> before ++
            [useCreateIssue.optimistic issue (String.append "tmp_" uuid)]
          = before ++ [created]) as Hrepl.
  { rewrite fmap_app, replace_temp_fresh by done. simpl.
    by rewrite bool_decide_true. }
  rewrite Hrepl.
  split; [done|]. split; [done|].
  split.
  { simpl. by destruct uuid. }
  split; [done|].
  split.
  { intros Hne. rewrite fmap_app, not_elem_of_app. split; [done|].
    simpl. rewrite list_elem_of_singleton. congruence. }
  split.
  { intros Hnd Hnew. rewrite fmap_app. apply NoDup_app. split; [done|].
    split; [|apply NoDup_singleton].
    intros x Hx Hx'. apply list_elem_of_singleton in Hx'. by subst x. }
  split; [done|].
  split.
  { intros Hcached. apply setQueryData_restore. by fold before. }
  intros k' Hne. rewrite !cachedList_set_ne by done. done.
Qed.

Lemma optimistic_create_witness :
  let k : JiraQueries.QueryKey := ("demo", None) in
  let qc : JiraQueries.QueryCache := {[ k := backlog_board ]} in
  let input := useCreateIssue.mkCreateIssueInput "demo" None backlog 4000
                 "New" "" None [] in
  let created := sample_issue "D" None backlog 4000 in
  let started := useCreateIssue.onMutate k qc "0001" input in
  JiraQueries.cachedList
    (useCreateIssue.onSuccess k started.1 created (Some started.2)) k
  = backlog_board ++ [created]
  ∧ useCreateIssue.onError k started.1 (Some started.2) = qc.
Proof.
  intros k qc input created started.
  destruct (optimistic_create k qc "0001" input created)
    as (_ & _ & _ & Hok & _ & _ & _ & Hfail & _).
  - vm_compute. intros H. repeat (apply elem_of_cons in H as [H|H]; [discriminate|]).
    by apply elem_of_nil in H.
  - split; [exact Hok|]. apply Hfail. reflexivity.
Defined.

(** Whatever the cache holds when the create succeeds, [onSuccess] keeps the
    length of the cached list and leaves no entry with the placeholder id,
    unless the created issue itself carries it. *)
Lemma onSuccess_no_placeholder (k : JiraQueries.QueryKey)
    (qc : JiraQueries.QueryCache) (created : Issue)
    (ctx : useCreateIssue.Context) :
  let after :=
    JiraQueries.cachedList (useCreateIssue.onSuccess k qc created (Some ctx)) k in
  length after = length (JiraQueries.cachedList qc k)
  ∧ (id created ≠ useCreateIssue.tempId ctx →
       useCreateIssue.tempId ctx ∉ id <$> after).
Proof.
  intros after. subst after. unfold useCreateIssue.onSuccess.
  rewrite cachedList_set. split; [by rewrite length_fmap|].
  intros Hne Hin. apply list_elem_of_fmap in Hin as (x & Hx & Hin).
  apply list_elem_of_fmap in Hin as (y & -> & Hy). simpl in Hx.
  case_bool_decide as Hy'; [congruence|]. apply Hy'. by rewrite Hx.
Qed.

(** Whatever the cache holds when the create fails, [onError] puts the list
    saved by [onMutate] back. *)
Lemma onError_restores (k : JiraQueries.QueryKey) (qc : JiraQueries.QueryCache)
    (ctx : useCreateIssue.Context) :
  JiraQueries.cachedList (useCreateIssue.onError k qc (Some ctx)) k
  = useCreateIssue.prev ctx.
Proof. apply cachedList_set. Qed.

Lemma new_Map_snoc {V} (entries : list (string * V)) (k : string) (v : V) :
  JiraQueries.new_Map (entries ++ [(k, v)])
  = <[k := v]> (JiraQueries.new_Map entries).
Proof. unfold JiraQueries.new_Map. by rewrite foldl_app. Qed.

Lemma new_Map_lookup (changes : list IssueChange) (i : string) :
  JiraQueries.new_Map ((λ c, (change_id c, change_patch c)) <$> changes) !! i
  = lastPatchFor i changes.
Proof.
  unfold lastPatchFor.
  induction changes as [|c changes IH] using rev_ind; [done|].
  rewrite fmap_app. simpl. rewrite new_Map_snoc, filter_app.
  destruct (decide (change_id c = i)) as [Heq|Hne].
  - rewrite filter_cons_True, filter_nil by done.
    rewrite last_snoc. simpl. rewrite Heq. apply lookup_insert_eq.
  - rewrite filter_cons_False, filter_nil, app_nil_r by done.
    by rewrite lookup_insert_ne.
Qed.

Lemma lastPatchFor_filter (P : IssueChange → Prop) `{!∀ c, Decision (P c)}
    (i : string) (changes : list IssueChange) :
  (∀ c, change_id c = i → P c) →
  lastPatchFor i (filter P changes) = lastPatchFor i changes.
Proof.
  intros HP. unfold lastPatchFor. f_equal. f_equal.
  rewrite list_filter_filter. apply list_filter_iff.
  intros c. split; [tauto|]. intros Hc. split; [done|by apply HP].
Qed.

Lemma spread_frame (it : Issue) (p : IssuePatch) :
  (p_id p = None → id (spread it p) = id it)
  ∧ (p_key p = None → key (spread it p) = key it)
  ∧ (p_boardId p = None → boardId (spread it p) = boardId it)
  ∧ (p_sprintId p = None → sprintId (spread it p) = sprintId it)
  ∧ (p_status p = None → status (spread it p) = status it)
  ∧ (p_order p = None → order (spread it p) = order it)
  ∧ (p_title p = None → title (spread it p) = title it)
  ∧ (p_description p = None → description (spread it p) = description it)
  ∧ (p_assigneeId p = None → assigneeId (spread it p) = assigneeId it)
  ∧ (p_watcherIds p = None → watcherIds (spread it p) = watcherIds it).
Proof. unfold spread. simpl. repeat split; by intros ->. Qed.

Lemma batch_onMutate_lookup (k : JiraQueries.QueryKey)
    (qc : JiraQueries.QueryCache) (changes : list IssueChange) (i : nat) :
  JiraQueries.cachedList (useBatchPatchIssues.onMutate k qc changes).1 k !! i
  = (λ it, match lastPatchFor (id it) changes with
           | Some patch => spread it patch
           | None => it
           end) <$> JiraQueries.cachedList qc k !! i.
Proof.
  unfold useBatchPatchIssues.onMutate. simpl.
  rewrite cachedList_set, list_lookup_fmap.
  destruct (JiraQueries.cachedList qc k !! i) as [it|]; simpl; [|done].
  by rewrite new_Map_lookup.
Qed.

(** C10 (amended). The optimistic cache write of a batch patch keeps the
    length of the cached list and the position of every entry; the context
    holds the previous list. The entry at each position is the previous entry
    with the patch of the last change that carries its id merged into it, and
    the previous entry itself when no change carries its id (earlier changes
    for the same id are superseded). Changes whose id is not cached have no
    effect, a field that the merged patch does not name is unchanged (the id
    included), and other partitions are untouched. *)
Theorem batch_optimistic_write (k : JiraQueries.QueryKey)
    (qc : JiraQueries.QueryCache) (changes : list IssueChange) :
  let prev := JiraQueries.cachedList qc k in
  let started := useBatchPatchIssues.onMutate k qc changes in
  let next := JiraQueries.cachedList started.1 k in
  started.2 = prev
  ∧ length next = length prev
  ∧ (∀ i it, prev !! i = Some it →
       (lastPatchFor (id it) changes = None → next !! i = Some it)
       ∧ (∀ patch, lastPatchFor (id it) changes = Some patch →
            next !! i = Some (spread it patch)
            ∧ (p_id patch = None → id (spread it patch) = id it)
            ∧ (p_key patch = None → key (spread it patch) = key it)
            ∧ (p_boardId patch = None → boardId (spread it patch) = boardId it)
            ∧ (p_sprintId patch = None →
                 sprintId (spread it patch) = sprintId it)
            ∧ (p_status patch = None → status (spread it patch) = status it)
            ∧ (p_order patch = None → order (spread it patch) = order it)
            ∧ (p_title patch = None → title (spread it patch) = title it)
            ∧ (p_description patch = None →
                 description (spread it patch) = description it)
            ∧ (p_assigneeId patch = None →
                 assigneeId (spread it patch) = assigneeId it)
            ∧ (p_watcherIds patch = None →
                 watcherIds (spread it patch) = watcherIds it)))
  ∧ useBatchPatchIssues.onMutate k qc
      (filter (λ c, change_id c ∈ id <$> prev) changes) = started
  ∧ (∀ k', k ≠ k' →
       JiraQueries.getQueryData started.1 k' = JiraQueries.getQueryData qc k').
Proof.
  intros prev started next. subst next started.
  split; [done|].
  split.
  { unfold useBatchPatchIssues.onMutate. simpl.
    by rewrite cachedList_set, length_fmap. }
  split.
  { intros i it Hi. rewrite batch_onMutate_lookup. fold prev. rewrite Hi. simpl.
    split.
    - by intros ->.
    - intros patch ->. split; [done|]. apply spread_frame. }
  split.
  { unfold useBatchPatchIssues.onMutate. fold prev. f_equal. f_equal.
    apply list_eq. intros i. rewrite !list_lookup_fmap.
    destruct (prev !! i) as [it|] eqn:Hi; simpl; [|done].
    rewrite !new_Map_lookup, lastPatchFor_filter; [done|].
    intros c ->. apply list_elem_of_fmap. exists it.
    split; [done|]. by eapply list_elem_of_lookup_2. }
  intros k' Hne. unfold useBatchPatchIssues.onMutate. simpl.
  by rewrite cachedList_set_ne.
Qed.

(** C10 as stated fails: of two changes for the same cached issue only the
    last is merged, so the status of the first is not applied; and a patch
    that names the [id] changes the identity of the entry. *)
Lemma batch_duplicate_change_counterexample :
  let k : JiraQueries.QueryKey := ("demo", None) in
  let qc : JiraQueries.QueryCache :=
    {[ k := [sample_issue "A" None backlog 1000] ]} in
  let first := mkChange "A" (status_order_patch done 1000) in
  let second := mkChange "A" (order_patch 5) in
  let renaming :=
    mkChange "A" (mkPatch (Some "Z") None None None None None None None None None) in
  JiraQueries.cachedList
    (useBatchPatchIssues.onMutate k qc [first; second]).1 k
  = [sample_issue "A" None backlog 5]
  ∧ status <$> JiraQueries.cachedList
                 (useBatchPatchIssues.onMutate k qc [first; second]).1 k
    ≠ [done]
  ∧ id <$> JiraQueries.cachedList
             (useBatchPatchIssues.onMutate k qc [renaming]).1 k
    = ["Z"].
Proof. repeat split; vm_compute; congruence. Qed.

(** ** Server-side move *)

Lemma find_fmap_same_id (f : Issue → Issue) (i : string) (db : list Issue) :
  (∀ x, id (f x) = id x) →
  find (λ x, id x = i) (f <$> db) = f <$> find (λ x, id x = i) db.
Proof.
  intros Hf. unfold find.
  induction db as [|x db IH]; [done|].
  rewrite fmap_cons. cbn [list_find]. rewrite Hf.
  destruct (decide (id x = i)); simpl; [done|].
  rewrite <- !option_fmap_compose in *.
  destruct (list_find _ (f <$> db)) as [[??]|];
    destruct (list_find _ db) as [[??]|]; simpl in *; congruence.
Qed.

Lemma updateOrder_find_other (db : list Issue) (io : BoardsService.IdOrder)
    (i : string) :
  BoardsService.io_id io ≠ i →
  find (λ x, id x = i) (BoardsService.updateOrder db io)
  = find (λ x, id x = i) db.
Proof.
  intros Hne. unfold BoardsService.updateOrder.
  rewrite find_fmap_same_id by (intros x; by case_bool_decide).
  destruct (find _ db) as [x|] eqn:Hx; simpl; [|done].
  destruct (find_Some _ _ _ Hx) as [_ Hid]. simpl in Hid.
  rewrite bool_decide_false; [done|congruence].
Qed.

Lemma foldl_updateOrder_find_other (ios : list BoardsService.IdOrder)
    (db : list Issue) (i : string) :
  Forall (λ io, BoardsService.io_id io ≠ i) ios →
  find (λ x, id x = i) (foldl BoardsService.updateOrder db ios)
  = find (λ x, id x = i) db.
Proof.
  intros Hall. revert db. induction Hall as [|io ios Hio _ IH]; intros db; [done|].
  simpl. by rewrite IH, updateOrder_find_other.
Qed.

Lemma findColumn_elem_of (db : list Issue) (b : string) (sp : option string)
    (st : IssueStatus) (x : Issue) :
  x ∈ BoardsService.findColumn db b sp st
  ↔ x ∈ db ∧ boardId x = b ∧ sprintId x = sp ∧ status x = st.
Proof.
  unfold BoardsService.findColumn.
  rewrite sort_by_elem_of, list_elem_of_filter. tauto.
Qed.

Lemma server_normalizeOrders_ids {T} (g : T → string) (l : list T) :
  BoardsService.io_id <$> BoardsService.normalizeOrders g l = g <$> l.
Proof.
  unfold BoardsService.normalizeOrders. rewrite fmap_imap.
  rewrite (imap_ext _ (const g)) by done. apply imap_const.
Qed.

Lemma normalizedTo_find (toList : list Issue) (moved : Issue) (i : string) :
  Forall (λ x, id x ≠ i) toList → id moved = i →
  find (λ x, BoardsService.io_id x = i)
    (BoardsService.normalizeOrders id (toList ++ [moved]))
  = Some (BoardsService.mkIdOrder i
            ((Z.of_nat (length toList) + 1) * BoardsService.ORDER_STEP)).
Proof.
  intros Hall Hid. unfold find.
  assert (list_find (λ x, BoardsService.io_id x = i)
            (BoardsService.normalizeOrders id (toList ++ [moved]))
          = Some (length toList,
                  BoardsService.mkIdOrder i
                    ((Z.of_nat (length toList) + 1) * BoardsService.ORDER_STEP)))
    as ->; [|done].
  apply list_find_Some. split; [|split; [done|]].
  - rewrite server_normalizeOrders_lookup, list_lookup_middle by done.
    simpl. by rewrite Hid.
  - intros j y Hj Hlt.
    rewrite server_normalizeOrders_lookup, lookup_app_l in Hj by done.
    destruct (toList !! j) as [x|] eqn:Hx; simpl in Hj; [|done].
    injection Hj as <-. simpl.
    exact (proj1 (Forall_lookup _ _) Hall _ _ Hx).
Qed.

Lemma with_order_with_order (x : Issue) (o1 o2 : Z) :
  with_order (with_order x o1) o2 = with_order x o2.
Proof. done. Qed.

(** A sequence of order updates gives each row the order of the last update
    that carries its id. *)
Lemma foldl_updateOrder (ios : list BoardsService.IdOrder) (db : list Issue) :
  foldl BoardsService.updateOrder db ios
  = (λ x, match last (filter (λ io, BoardsService.io_id io = id x) ios) with
          | Some io => with_order x (BoardsService.io_order io)
          | None => x
          end) <$> db.
Proof.
  induction ios as [|io ios IH] using rev_ind.
  - simpl. by rewrite list_fmap_id.
  - rewrite foldl_app. simpl. rewrite IH. unfold BoardsService.updateOrder.
    rewrite <- list_fmap_compose. apply list_fmap_ext. intros _ x _. simpl.
    rewrite filter_app.
    assert (id (match last (filter (λ io0, BoardsService.io_id io0 = id x) ios) with
                | Some io0 => with_order x (BoardsService.io_order io0)
                | None => x
                end) = id x) as Hid by (by destruct (last _)).
    rewrite Hid.
    destruct (decide (BoardsService.io_id io = id x)) as [Heq|Hne].
    + rewrite filter_cons_True, filter_nil, last_snoc by done.
      rewrite bool_decide_true by done.
      by destruct (last _).
    + rewrite filter_cons_False, filter_nil, app_nil_r by done.
      rewrite bool_decide_false by done. done.
Qed.

Lemma foldl_updateOrder_elem (ios : list BoardsService.IdOrder)
    (db : list Issue) (x : Issue) :
  x ∈ foldl BoardsService.updateOrder db ios →
  ∃ x0, x0 ∈ db ∧ with_order x0 0 = with_order x 0
        ∧ ((∃ io, io ∈ ios ∧ BoardsService.io_id io = id x0
                  ∧ order x = BoardsService.io_order io)
           ∨ (Forall (λ io, BoardsService.io_id io ≠ id x0) ios ∧ x = x0)).
Proof.
  rewrite foldl_updateOrder. intros (x0 & -> & Hx0)%list_elem_of_fmap.
  exists x0. split; [done|].
  destruct (last _) as [io|] eqn:Hlast.
  - split; [done|]. left. exists io.
    apply last_Some_elem_of, list_elem_of_filter in Hlast as [Hid Hin]. done.
  - split; [done|]. right. split; [|done].
    apply last_None in Hlast. apply Forall_forall. intros io Hio Hid.
    assert (io ∈ filter (λ io, BoardsService.io_id io = id x0) ios) as Hf
      by (by apply list_elem_of_filter).
    rewrite Hlast in Hf. by apply elem_of_nil in Hf.
Qed.

Section MoveIssue.
Variables (db : list Issue) (b i : string) (body : BoardsService.MoveBody)
  (issue : Issue).
Hypothesis Hnd : NoDup (id <$> db).
Hypothesis Hfind : find (λ x, id x = i) db = Some issue.
Hypothesis Hboard : boardId issue = b.
Hypothesis Hdiff :
  ¬ (sprintId issue = BoardsService.body_sprintId body
     ∧ status issue = destinationStatus body).

Local Abbreviation toSprintId := (BoardsService.body_sprintId body).
Local Abbreviation toStatus := (destinationStatus body).
Local Abbreviation toList := (BoardsService.findColumn db b toSprintId toStatus).
Local Abbreviation fromWithout :=
  (filter (λ x, id x ≠ i)
     (BoardsService.findColumn db b (sprintId issue) (status issue))).
Local Abbreviation newOrder :=
  ((Z.of_nat (length toList) + 1) * BoardsService.ORDER_STEP).
Local Abbreviation moved :=
  (with_order (BoardsService.with_scope issue toSprintId toStatus) newOrder).

Lemma moveIssue_toList_other : Forall (λ x, id x ≠ i) toList.
Proof.
  apply Forall_forall. intros x Hx Hid.
  apply findColumn_elem_of in Hx as (Hx & _ & Hsp & Hst).
  destruct (find_Some _ _ _ Hfind) as [Hin Hi]. simpl in Hi.
  assert (x = issue) as -> by (apply (NoDup_id_inj db); congruence).
  by apply Hdiff.
Qed.

Lemma moveIssue_unfold :
  let db1 :=
    (λ x, if bool_decide (id x = i)
          then with_order (BoardsService.with_scope x toSprintId toStatus) newOrder
          else x) <$> db in
  let db3 :=
    foldl BoardsService.updateOrder
      (foldl BoardsService.updateOrder db1
         (BoardsService.normalizeOrders id fromWithout))
      (filter (λ it, BoardsService.io_id it ≠ i)
         (BoardsService.normalizeOrders id
            (toList ++ [BoardsService.with_scope issue toSprintId toStatus]))) in
  BoardsService.moveIssue db b i body
  = Some (db3, BoardsService.findScope db3 b toSprintId).
Proof.
  intros db1 db3. unfold BoardsService.moveIssue.
  fold (destinationStatus body).
  rewrite Hfind. rewrite bool_decide_true by done. simpl negb. cbv iota.
  destruct (bool_decide (sprintId issue = toSprintId)
            && bool_decide (status issue = toStatus)) eqn:Hsame.
  { apply andb_true_iff in Hsame as [H1 H2].
    apply bool_decide_eq_true in H1, H2. by destruct Hdiff. }
  destruct (find_Some _ _ _ Hfind) as [_ Hi]. simpl in Hi.
  rewrite (normalizedTo_find toList
             (BoardsService.with_scope issue toSprintId toStatus) i
             moveIssue_toList_other Hi).
  reflexivity.
Qed.

Lemma moveIssue_moved_row :
  ∃ db' ret, BoardsService.moveIssue db b i body = Some (db', ret)
             ∧ find (λ x, id x = i) db' = Some moved.
Proof.
  eexists _, _. split; [apply moveIssue_unfold|].
  rewrite !foldl_updateOrder_find_other.
  - rewrite find_fmap_same_id by (intros x; by case_bool_decide).
    rewrite Hfind. simpl.
    destruct (find_Some _ _ _ Hfind) as [_ Hi]. simpl in Hi.
    by rewrite bool_decide_true.
  - apply Forall_forall. intros io Hio Hid.
    assert (BoardsService.io_id io ∈ id <$> fromWithout) as Hin.
    { rewrite <- server_normalizeOrders_ids. apply list_elem_of_fmap. eauto. }
    apply list_elem_of_fmap in Hin as (x & Hx & Hin).
    apply list_elem_of_filter in Hin as [Hne _]. congruence.
  - apply Forall_forall. intros io Hio. by apply list_elem_of_filter in Hio as [? _].
Qed.

Lemma same_but_order_fields (x y : Issue) :
  with_order x 0 = with_order y 0 →
  id x = id y ∧ boardId x = boardId y ∧ sprintId x = sprintId y
  ∧ status x = status y.
Proof. unfold with_order. intros H. by injection H. Qed.

Lemma moveIssue_others_below (db' ret : list Issue) (x : Issue) :
  BoardsService.moveIssue db b i body = Some (db', ret) →
  x ∈ BoardsService.findColumn db' b toSprintId toStatus →
  id x ≠ i →
  order x < newOrder.
Proof.
  rewrite moveIssue_unfold. intros [= <- _] Hx Hne.
  apply findColumn_elem_of in Hx as (Hx & Hb & Hsp & Hst).
  unfold BoardsService.ORDER_STEP.
  apply foldl_updateOrder_elem in Hx as (x2 & Hx2 & Hsame2 & Hcase).
  destruct (same_but_order_fields _ _ Hsame2) as (Hid2 & Hb2 & Hsp2 & Hst2).
  destruct Hcase as [(io & Hio & Hioid & ->)|[Hnone ->]].
  - apply list_elem_of_filter in Hio as [Hio_ne Hio].
    apply list_elem_of_lookup in Hio as [k Hk].
    pose proof (server_normalizeOrders_order _ _ _ _ Hk) as ->.
    assert (k < length toList)%nat; [|lia].
    rewrite server_normalizeOrders_lookup in Hk.
    destruct (decide (k < length toList)%nat) as [|Hge]; [done|].
    destruct (decide (k = length toList)) as [->|Hk'].
    + rewrite list_lookup_middle in Hk by done. simpl in Hk.
      injection Hk as <-. simpl in Hio_ne.
      destruct (find_Some _ _ _ Hfind) as [_ Hi]. by simpl in Hi.
    + rewrite lookup_ge_None_2 in Hk; [done|].
      rewrite length_app. simpl. lia.
  - apply foldl_updateOrder_elem in Hx2 as (x1 & Hx1 & Hsame1 & _).
    destruct (same_but_order_fields _ _ Hsame1) as (Hid1 & Hb1 & Hsp1 & Hst1).
    apply list_elem_of_fmap in Hx1 as (x0 & -> & Hx0).
    assert (id x0 ≠ i) as Hx0i.
    { intros Hx0i. rewrite bool_decide_true in Hid1 by done.
      simpl in Hid1. congruence. }
    rewrite bool_decide_false in * by done.
    assert (x0 ∈ toList) as Hto.
    { apply findColumn_elem_of. split; [done|]. split; [|split]; congruence. }
    rewrite Forall_forall in Hnone.
    apply list_elem_of_lookup in Hto as [k Hk].
    destruct (Hnone (BoardsService.mkIdOrder (id x0)
                       ((Z.of_nat k + 1) * BoardsService.ORDER_STEP))).
    + apply list_elem_of_filter. split; [done|].
      apply list_elem_of_lookup. exists k.
      rewrite server_normalizeOrders_lookup, lookup_app_l
        by (by eapply lookup_lt_Some).
      by rewrite Hk.
    + simpl. congruence.
Qed.

End MoveIssue.

Lemma moveIssue_ignores_order (db : list Issue) (b i : string)
    (body : BoardsService.MoveBody) (o : option Z) :
  BoardsService.moveIssue db b i
    (BoardsService.mkMoveBody (BoardsService.body_sprintId body)
       (BoardsService.body_status body) o)
  = BoardsService.moveIssue db b i body.
Proof. by destruct body. Qed.

(** C9. A server-side [moveIssue] whose destination (sprintId, status)
    differs from the source, for an issue of the board in a table with unique
    ids, puts the issue after every issue of the destination column: its new
    order is [(destinationColumnSize + 1) * 1000], above the order of every
    other issue of that column in the new table, and it carries the
    destination sprint and status. The [order] of the request body has no
    effect on the outcome. *)
Theorem moveIssue_appends (db : list Issue) (b i : string)
    (body : BoardsService.MoveBody) (issue : Issue) :
  NoDup (id <$> db) →
  find (λ x, id x = i) db = Some issue →
  boardId issue = b →
  ¬ (sprintId issue = BoardsService.body_sprintId body
     ∧ status issue = destinationStatus body) →
  let toSprintId := BoardsService.body_sprintId body in
  let toStatus := destinationStatus body in
  let size := length (BoardsService.findColumn db b toSprintId toStatus) in
  ∃ db' ret moved,
    BoardsService.moveIssue db b i body = Some (db', ret)
    ∧ find (λ x, id x = i) db' = Some moved
    ∧ sprintId moved = toSprintId
    ∧ status moved = toStatus
    ∧ order moved = (Z.of_nat size + 1) * 1000
    ∧ (∀ x, x ∈ BoardsService.findColumn db' b toSprintId toStatus →
         id x ≠ i → order x < order moved)
    ∧ (∀ o, BoardsService.moveIssue db b i
              (BoardsService.mkMoveBody toSprintId
                 (BoardsService.body_status body) o)
            = Some (db', ret)).
Proof.
  intros Hnd Hfind Hboard Hdiff toSprintId toStatus size.
  destruct (moveIssue_moved_row db b i body issue Hnd Hfind Hboard Hdiff)
    as (db' & ret & Hmove & Hrow).
  eexists db', ret, _. split; [exact Hmove|]. split; [exact Hrow|].
  split; [done|]. split; [done|]. split; [done|]. split.
  - intros x Hx Hne. simpl.
    exact (moveIssue_others_below db b i body issue Hnd Hfind Hboard Hdiff
             db' ret x Hmove Hx Hne).
  - intros o. subst toSprintId.
    by rewrite (moveIssue_ignores_order db b i body o).
Qed.

Lemma moveIssue_appends_witness :
  ∃ db' ret moved,
    BoardsService.moveIssue sprint_board "demo" "A"
      (BoardsService.mkMoveBody (Some "s1") (Some in_progress) (Some 1))
    = Some (db', ret)
    ∧ find (λ x, id x = "A") db' = Some moved
    ∧ order moved = 2000.
Proof.
  destruct (moveIssue_appends sprint_board "demo" "A"
              (BoardsService.mkMoveBody (Some "s1") (Some in_progress) (Some 1))
              (sample_issue "A" (Some "s1") todo 1000))
    as (db' & ret & moved & Hmove & Hrow & _ & _ & Horder & _).
  - apply (bool_decide_unpack _). vm_compute. exact I.
  - vm_compute. reflexivity.
  - reflexivity.
  - vm_compute. intros [_ H]. discriminate H.
  - exists db', ret, moved. split; [exact Hmove|]. split; [exact Hrow|].
    exact Horder.
Defined.

(** ** Sprint activation *)

Lemma NoDup_all_equal {A} (l : list A) :
  NoDup l → (∀ x y, x ∈ l → y ∈ l → x = y) → (length l ≤ 1)%nat.
Proof.
  intros Hnd Heq. destruct l as [|x [|y l]]; simpl; [lia|lia|].
  apply NoDup_cons in Hnd as [Hx _].
  destruct Hx. assert (x = y) as -> by (apply Heq; [left|right; left]).
  left.
Qed.

Lemma active_unique_at_most_one (sprints : list Sprint) :
  NoDup (sprint_id <$> sprints) → active_unique sprints →
  at_most_one_active sprints.
Proof.
  intros Hnd Hu b. apply NoDup_all_equal.
  - apply NoDup_filter. by apply NoDup_fmap_1 in Hnd.
  - intros x y Hx Hy. unfold activeSprints in *.
    apply list_elem_of_filter in Hx as [[Hbx Hax] Hx].
    apply list_elem_of_filter in Hy as [[Hby Hay] Hy].
    apply Hu; congruence.
Qed.

Lemma deactivateBoard_ids (b : string) (sprints : list Sprint) :
  sprint_id <$> BoardsService.deactivateBoard b sprints = sprint_id <$> sprints.
Proof.
  unfold BoardsService.deactivateBoard. rewrite <- list_fmap_compose.
  apply list_fmap_ext. intros _ x _. simpl. by destruct (_ && _).
Qed.

Lemma deactivateBoard_elem (b : string) (sprints : list Sprint) (x : Sprint) :
  x ∈ BoardsService.deactivateBoard b sprints →
  ∃ x0, x0 ∈ sprints ∧ sprint_id x = sprint_id x0
        ∧ sprint_boardId x = sprint_boardId x0
        ∧ (sprint_boardId x = b → isActive x = false)
        ∧ (sprint_boardId x ≠ b → x = x0).
Proof.
  unfold BoardsService.deactivateBoard.
  intros (x0 & -> & Hx0)%list_elem_of_fmap. exists x0. split; [done|].
  destruct (bool_decide (sprint_boardId x0 = b)) eqn:Hb; simpl.
  - apply bool_decide_eq_true in Hb.
    destruct (isActive x0) eqn:Ha; simpl; repeat split; try done.
  - apply bool_decide_eq_false in Hb. repeat split; done.
Qed.

Lemma deactivateBoard_active_unique (b : string) (sprints : list Sprint) :
  NoDup (sprint_id <$> sprints) → active_unique sprints →
  active_unique (BoardsService.deactivateBoard b sprints).
Proof.
  intros Hnd Hu x y Hx Hy Hb Hax Hay.
  destruct (deactivateBoard_elem _ _ _ Hx) as (x0 & Hx0 & _ & _ & Hxb & Hxo).
  destruct (deactivateBoard_elem _ _ _ Hy) as (y0 & Hy0 & _ & _ & Hyb & Hyo).
  destruct (decide (sprint_boardId x = b)) as [Heq|Hne].
  - rewrite Hxb in Hax by done. done.
  - assert (y = y0) as Hy' by (apply Hyo; congruence).
    assert (x = x0) as Hx' by (by apply Hxo).
    subst x y. by apply Hu.
Qed.

Lemma deactivateBoard_none_active (b : string) (sprints : list Sprint) (x : Sprint) :
  x ∈ BoardsService.deactivateBoard b sprints → sprint_boardId x = b →
  isActive x = false.
Proof.
  intros Hx Hb. destruct (deactivateBoard_elem _ _ _ Hx) as (_ & _ & _ & _ & H & _).
  by apply H.
Qed.

Lemma insertSprint_invariant (row : Sprint) (tx s' : list Sprint) (r : Sprint) :
  NoDup (sprint_id <$> tx) → active_unique tx →
  (isActive row = true →
   ∀ x, x ∈ tx → sprint_boardId x = sprint_boardId row → isActive x = false) →
  BoardsService.insertSprint row tx = Some (s', r) →
  NoDup (sprint_id <$> s') ∧ active_unique s'.
Proof.
  intros Hnd Hu Hrow. unfold BoardsService.insertSprint.
  case_bool_decide as Hfresh; [done|]. intros [= <- <-].
  split.
  - rewrite fmap_app. apply NoDup_app. split; [done|].
    split; [|apply NoDup_singleton].
    intros i Hi Hi'. apply list_elem_of_singleton in Hi'. by subst i.
  - intros x y Hx Hy Hb Hax Hay.
    apply elem_of_app in Hx as [Hx|Hx%list_elem_of_singleton];
      apply elem_of_app in Hy as [Hy|Hy%list_elem_of_singleton].
    + by apply Hu.
    + subst y. rewrite (Hrow Hay x Hx Hb) in Hax. done.
    + subst x. rewrite (Hrow Hax y Hy) in Hay; [done|congruence].
    + congruence.
Qed.

Lemma createSprint_invariant (s : list Sprint) (newId b name : string)
    (act : option bool) (s' : list Sprint) (row : Sprint) :
  NoDup (sprint_id <$> s) → active_unique s →
  BoardsService.createSprint s newId b name act = Some (s', row) →
  NoDup (sprint_id <$> s') ∧ active_unique s'.
Proof.
  intros Hnd Hu. unfold BoardsService.createSprint.
  destruct (default false act) eqn:Hact.
  - apply insertSprint_invariant.
    + by rewrite deactivateBoard_ids.
    + by apply deactivateBoard_active_unique.
    + intros _ x Hx Hb. simpl in Hb. by eapply deactivateBoard_none_active.
  - apply insertSprint_invariant; [done|done|]. simpl. done.
Qed.

Lemma activate_elem (sprintId : string) (tx s' : list Sprint) (row x : Sprint) :
  BoardsService.activate sprintId tx = Some (s', row) → x ∈ s' →
  (sprint_id x = sprintId ∧ x = row) ∨ (sprint_id x ≠ sprintId ∧ x ∈ tx).
Proof.
  unfold BoardsService.activate.
  destruct (find _ tx) as [r|] eqn:Hr; [|done]. intros [= <- <-].
  intros (x0 & -> & Hx0)%list_elem_of_fmap.
  destruct (find_Some _ _ _ Hr) as [_ Hrid]. simpl in Hrid.
  case_bool_decide; [left|right]; done.
Qed.

Lemma activate_ids (sprintId : string) (tx s' : list Sprint) (row : Sprint) :
  BoardsService.activate sprintId tx = Some (s', row) →
  sprint_id <$> s' = sprint_id <$> tx
  ∧ ∃ r, r ∈ tx ∧ sprint_id r = sprintId
         ∧ row = BoardsService.set_active r true ∧ row ∈ s'.
Proof.
  unfold BoardsService.activate.
  destruct (find _ tx) as [r|] eqn:Hr; [|done]. intros [= <- <-].
  destruct (find_Some _ _ _ Hr) as [Hin Hrid]. simpl in Hrid.
  split.
  - rewrite <- list_fmap_compose. apply list_fmap_ext. intros _ x _. simpl.
    case_bool_decide; simpl; congruence.
  - exists r. repeat split; try done.
    apply list_elem_of_fmap. exists r. by rewrite bool_decide_true.
Qed.

Lemma NoDup_key_inj {A B} (f : A → B) (l : list A) (x y : A) :
  NoDup (f <$> l) → x ∈ l → y ∈ l → f x = f y → x = y.
Proof.
  intros Hnd Hx Hy Hf.
  apply list_elem_of_lookup in Hx as [n Hn], Hy as [m Hm].
  assert (n = m) as ->.
  { apply (NoDup_lookup (f <$> l) n m (f x) Hnd).
    - by rewrite list_lookup_fmap, Hn.
    - by rewrite list_lookup_fmap, Hm, Hf. }
  congruence.
Qed.

(** With the ownership check, activating a sprint keeps the invariant, makes
    the sprint the only active one of its board and leaves the sprints of
    other boards as they were. *)
Lemma checked_setActiveSprint_result (s : list Sprint) (b sprintId : string)
    (s' : list Sprint) (row : Sprint) :
  NoDup (sprint_id <$> s) → active_unique s →
  BoardsServiceChecked.setActiveSprint s b sprintId = Some (s', row) →
  NoDup (sprint_id <$> s') ∧ active_unique s'
  ∧ row ∈ s' ∧ sprint_id row = sprintId ∧ sprint_boardId row = b
  ∧ isActive row = true
  ∧ (∀ x, x ∈ s' → sprint_boardId x = b → sprint_id x ≠ sprintId →
       isActive x = false)
  ∧ (∀ x, x ∈ s' → sprint_boardId x ≠ b → x ∈ s).
Proof.
  intros Hnd Hu. unfold BoardsServiceChecked.setActiveSprint.
  destruct (find _ s) as [r0|] eqn:Hr0; [|done].
  destruct (find_Some _ _ _ Hr0) as [Hr0in [Hr0id Hr0b]].
  unfold BoardsService.setActiveSprint. intros Hact.
  destruct (activate_ids _ _ _ _ Hact) as (Hids & r & Hr & Hrid & -> & Hrow).
  destruct (deactivateBoard_elem _ _ _ Hr) as (r' & Hr' & Hid' & Hb' & _ & _).
  assert (r' = r0) as ->
    by (apply (NoDup_key_inj sprint_id s); congruence).
  assert (sprint_boardId r = b) as Hrb by congruence.
  assert (∀ x, x ∈ s' → sprint_id x ≠ sprintId →
               x ∈ BoardsService.deactivateBoard b s) as Hother.
  { intros x Hx Hne.
    destruct (activate_elem _ _ _ _ _ Hact Hx) as [[? _]|[_ ?]]; done. }
  split; [by rewrite Hids, deactivateBoard_ids|].
  split.
  { intros x y Hx Hy Hb Hax Hay.
    destruct (activate_elem _ _ _ _ _ Hact Hx) as [[_ ->]|[Hxn Hxt]];
      destruct (activate_elem _ _ _ _ _ Hact Hy) as [[_ ->]|[Hyn Hyt]].
    - done.
    - simpl in Hb. rewrite (deactivateBoard_none_active b s y Hyt) in Hay;
        [done|congruence].
    - simpl in Hb. rewrite (deactivateBoard_none_active b s x Hxt) in Hax;
        [done|congruence].
    - by apply (deactivateBoard_active_unique b s Hnd Hu). }
  split; [done|]. split; [done|]. split; [done|]. split; [done|].
  split.
  - intros x Hx Hb Hne. eapply deactivateBoard_none_active; [|exact Hb].
    by apply Hother.
  - intros x Hx Hb.
    assert (sprint_id x ≠ sprintId) as Hne.
    { intros Hxid.
      destruct (activate_elem _ _ _ _ _ Hact Hx) as [[_ ->]|[Hxn _]]; done. }
    destruct (deactivateBoard_elem _ _ _ (Hother x Hx Hne))
      as (x0 & Hx0 & _ & _ & _ & Heq).
    by rewrite (Heq Hb).
Qed.

(** Every table the checked service can reach has unique ids and at most one
    active sprint per board. *)
Lemma checked_at_most_one_active (s : list Sprint) :
  reachable_checked s →
  NoDup (sprint_id <$> s) ∧ active_unique s ∧ at_most_one_active s.
Proof.
  intros Hreach.
  assert (NoDup (sprint_id <$> s) ∧ active_unique s) as [Hnd Hu].
  { induction Hreach as [|boards s newId b name act s' row _ [Hnd Hu] Hop
                          |s b sprintId s' row _ [Hnd Hu] Hop].
    - split; [constructor|]. intros x y Hx. by apply elem_of_nil in Hx.
    - unfold BoardsServiceChecked.createSprint in Hop.
      destruct (negb _); [done|]. by eapply createSprint_invariant.
    - destruct (checked_setActiveSprint_result _ _ _ _ _ Hnd Hu Hop)
        as (? & ? & _). done. }
  split; [done|]. split; [done|]. by apply active_unique_at_most_one.
Qed.

Lemma two_boards_reachable : reachable two_boards.
Proof.
  eapply (reachable_create
            [mkSprint "p1" "b1" "Sprint 1" true; mkSprint "p2" "b2" "Sprint 2" true]
            "p3" "b2" "Sprint 3" None);
    [|vm_compute; reflexivity].
  eapply (reachable_create [mkSprint "p1" "b1" "Sprint 1" true]
            "p2" "b2" "Sprint 2" (Some true));
    [|vm_compute; reflexivity].
  eapply (reachable_create [] "p1" "b1" "Sprint 1" (Some true));
    [|vm_compute; reflexivity].
  apply reachable_empty.
Qed.

(** C6. The service without the ownership check does not keep the invariant:
    from a reachable table with one active sprint per board, activating on
    board [b1] a sprint that belongs to board [b2] deactivates the sprint of
    [b1] and leaves [b2] with two active sprints. The checked service rejects
    the same call. *)
Theorem setActiveSprint_foreign_sprint :
  reachable two_boards
  ∧ at_most_one_active two_boards
  ∧ ∃ s' row,
      BoardsService.setActiveSprint two_boards "b1" "p3" = Some (s', row)
      ∧ reachable s'
      ∧ activeSprints "b1" s' = []
      ∧ activeSprints "b2" s'
        = [ mkSprint "p2" "b2" "Sprint 2" true;
            mkSprint "p3" "b2" "Sprint 3" true ]
      ∧ ¬ at_most_one_active s'
      ∧ BoardsServiceChecked.setActiveSprint two_boards "b1" "p3" = None.
Proof.
  split; [apply two_boards_reachable|].
  split.
  { apply active_unique_at_most_one.
    - apply (bool_decide_unpack _). vm_compute. exact I.
    - intros x y Hx Hy Hb Hax Hay. unfold two_boards in *.
      repeat (apply elem_of_cons in Hx as [->|Hx]);
        repeat (apply elem_of_cons in Hy as [->|Hy]);
        try (by apply elem_of_nil in Hx); try (by apply elem_of_nil in Hy);
        done. }
  eexists _, _. split; [vm_compute; reflexivity|].
  split.
  { eapply (reachable_activate two_boards "b1" "p3");
      [apply two_boards_reachable|vm_compute; reflexivity]. }
  split; [vm_compute; reflexivity|].
  split; [vm_compute; reflexivity|].
  split; [|vm_compute; reflexivity].
  intros H. specialize (H "b2"). vm_compute in H. lia.
Qed.

(** ** Search controller *)

Import Picker.

Lemma outstanding_abortRequest (r : Request) : outstanding (abortRequest r) = false.
Proof. done. Qed.

Lemma outstanding_settleRequest (r : Request) : outstanding (settleRequest r) = false.
Proof. unfold outstanding. simpl. apply andb_false_r. Qed.

Lemma abort_lookup_outstanding (ref : option nat) (reqs : list Request)
    (c : nat) (r : Request) :
  abort ref reqs !! c = Some r → outstanding r = true →
  reqs !! c = Some r ∧ ref ≠ Some c.
Proof.
  destruct ref as [c'|]; simpl; [|done].
  destruct (decide (c' = c)) as [->|Hne].
  - rewrite list_lookup_alter_eq. destruct (reqs !! c); simpl; [|done].
    intros [= <-]. by rewrite outstanding_abortRequest.
  - rewrite list_lookup_alter_ne by done. split; [done|congruence].
Qed.

Lemma settle_lookup_outstanding (c' : nat) (reqs : list Request)
    (c : nat) (r : Request) :
  alter settleRequest c' reqs !! c = Some r → outstanding r = true →
  reqs !! c = Some r.
Proof.
  destruct (decide (c' = c)) as [->|Hne].
  - rewrite list_lookup_alter_eq. destruct (reqs !! c); simpl; [|done].
    intros [= <-]. by rewrite outstanding_settleRequest.
  - by rewrite list_lookup_alter_ne.
Qed.

Lemma tracked_abort (ref ref' : option nat) (reqs : list Request) :
  tracked ref reqs → tracked ref (abort ref' reqs).
Proof.
  intros H c r Hc Ho.
  destruct (abort_lookup_outstanding _ _ _ _ Hc Ho) as [Hc' _]. eauto.
Qed.

Lemma tracked_settle (ref : option nat) (c : nat) (reqs : list Request) :
  tracked ref reqs → tracked ref (alter settleRequest c reqs).
Proof.
  intros H c' r Hc Ho. eapply H; [|done]. by eapply settle_lookup_outstanding.
Qed.

Lemma tracked_abort_quiet (ref : option nat) (reqs : list Request) :
  tracked ref reqs → quiet (abort ref reqs).
Proof.
  intros H c r Hc. destruct (outstanding r) eqn:Ho; [|done].
  destruct (abort_lookup_outstanding _ _ _ _ Hc Ho) as [Hc' Hne].
  by destruct Hne; eapply H.
Qed.

Lemma quiet_abort (ref : option nat) (reqs : list Request) :
  quiet reqs → quiet (abort ref reqs).
Proof.
  intros H c r Hc. destruct (outstanding r) eqn:Ho; [|done].
  destruct (abort_lookup_outstanding _ _ _ _ Hc Ho) as [Hc' _].
  by rewrite (H _ _ Hc') in Ho.
Qed.

Lemma quiet_tracked (ref : option nat) (reqs : list Request) :
  quiet reqs → tracked ref reqs.
Proof. intros H c r Hc Ho. by rewrite (H _ _ Hc) in Ho. Qed.

Lemma quiet_dispatch (reqs : list Request) (r : Request) :
  quiet reqs → tracked (Some (length reqs)) (reqs ++ [r]).
Proof.
  intros H c r' Hc Ho.
  destruct (decide (c < length reqs)%nat) as [Hlt|Hge].
  - rewrite lookup_app_l in Hc by done. by rewrite (H _ _ Hc) in Ho.
  - f_equal. apply lookup_lt_Some in Hc. rewrite length_app in Hc. simpl in Hc. lia.
Qed.

Lemma tracked_count (ref : option nat) (reqs : list Request) :
  tracked ref reqs →
  (length (filter (λ r, outstanding r = true) reqs) ≤ 1)%nat.
Proof.
  revert ref. induction reqs as [|r reqs IH]; intros ref H; [simpl; lia|].
  destruct (outstanding r) eqn:Ho.
  - rewrite filter_cons_True by done. simpl.
    assert (ref = Some 0%nat) as -> by (by eapply (H 0%nat r)).
    assert (filter (λ r, outstanding r = true) reqs = []) as ->; [|simpl; lia].
    apply filter_none. intros r' [c Hc]%list_elem_of_lookup Ho'.
    by specialize (H (S c) r' Hc Ho').
  - rewrite filter_cons_False by congruence.
    apply (IH (pred <$> ref)). intros c r' Hc Ho'.
    by rewrite (H (S c) r' Hc Ho').
Qed.

Local Ltac solve_tracked :=
  repeat first
    [ assumption
    | apply quiet_dispatch
    | apply tracked_abort_quiet
    | apply tracked_abort
    | apply tracked_settle ].

Lemma multi_effect_tracked (p : Props) (s : State) :
  tracked (abortRef s) (requests s) →
  tracked (abortRef (useEntityMultiPicker.effect p s))
    (requests (useEntityMultiPicker.effect p s)).
Proof.
  intros H. unfold useEntityMultiPicker.effect. cbn.
  destruct (open s); cbn; [|solve_tracked].
  match goal with |- context [if ?b then _ else _] => destruct b end;
    cbn; solve_tracked.
Qed.

Lemma single_effect_tracked (p : Props) (s : State) :
  tracked (abortRef s) (requests s) →
  tracked (abortRef (EntityPicker.effect p s))
    (requests (EntityPicker.effect p s)).
Proof.
  intros H. unfold EntityPicker.effect. cbn.
  destruct (open s); cbn; [|solve_tracked].
  match goal with |- context [if ?b then _ else _] => destruct b end;
    cbn; solve_tracked.
Qed.

Lemma elapseDebounce_refs (ms : nat) (s : State) :
  abortRef (elapseDebounce ms s).1 = abortRef s
  ∧ requests (elapseDebounce ms s).1 = requests s.
Proof.
  unfold elapseDebounce. destruct (timer s) as [[v rest]|]; [|done].
  by destruct (rest <=? ms)%nat.
Qed.

Lemma multi_step_tracked (p : Props) (e : Event) (s : State) :
  tracked (abortRef s) (requests s) →
  tracked (abortRef (useEntityMultiPicker.step p e s))
    (requests (useEntityMultiPicker.step p e s)).
Proof.
  intros H. destruct e; simpl.
  - case_bool_decide; [done|]. by apply multi_effect_tracked.
  - by case_bool_decide.
  - destruct (elapseDebounce_refs ms s) as [Hr Hq].
    destruct (elapseDebounce ms s) as [s' changed]. simpl in Hr, Hq.
    destruct changed; [apply multi_effect_tracked|]; by rewrite Hr, Hq.
  - by apply multi_effect_tracked.
  - done.
  - unfold useEntityMultiPicker.resetResults. cbn. solve_tracked.
  - case_bool_decide; [done|]. by apply multi_effect_tracked.
  - unfold useEntityMultiPicker.onResolve.
    destruct (requests s !! c) as [r|]; [|done].
    destruct (settled r); [done|]. destruct (aborted r), (isNewQuery r); cbn;
      solve_tracked.
  - unfold useEntityMultiPicker.onReject.
    destruct (requests s !! c) as [r|]; [|done].
    destruct (settled r); [done|]. destruct (aborted r); cbn; solve_tracked.
  - unfold useEntityMultiPicker.onReject.
    destruct (requests s !! c) as [r|]; [|done].
    destruct (settled r); [done|]. destruct (aborted r); cbn; solve_tracked.
Qed.

Lemma single_step_tracked (p : Props) (e : Event) (s : State) :
  tracked (abortRef s) (requests s) →
  tracked (abortRef (EntityPicker.step p e s))
    (requests (EntityPicker.step p e s)).
Proof.
  intros H. destruct e; simpl.
  - case_bool_decide; [done|]. by apply single_effect_tracked.
  - destruct (open s); [by case_bool_decide|].
    apply single_effect_tracked. by case_bool_decide.
  - destruct (elapseDebounce_refs ms s) as [Hr Hq].
    destruct (elapseDebounce ms s) as [s' changed]. simpl in Hr, Hq.
    destruct changed; [apply single_effect_tracked|]; by rewrite Hr, Hq.
  - by apply single_effect_tracked.
  - done.
  - done.
  - destruct (open s).
    + apply single_effect_tracked. case_bool_decide; cbn; solve_tracked.
    + case_bool_decide; cbn; solve_tracked.
  - unfold EntityPicker.onResolve.
    destruct (requests s !! c) as [r|]; [|done].
    destruct (settled r); [done|]. destruct (aborted r); cbn; solve_tracked.
  - unfold EntityPicker.onReject.
    destruct (requests s !! c) as [r|]; [|done].
    destruct (settled r); [done|]. destruct (aborted r); cbn; solve_tracked.
  - unfold EntityPicker.onReject.
    destruct (requests s !! c) as [r|]; [|done].
    destruct (settled r); [done|]. destruct (aborted r); cbn; solve_tracked.
Qed.

Lemma multi_run_tracked (p : Props) (es : list Event) (s : State) :
  tracked (abortRef s) (requests s) →
  tracked (abortRef (useEntityMultiPicker.run p es s))
    (requests (useEntityMultiPicker.run p es s)).
Proof.
  revert s. induction es as [|e es IH]; intros s H; [done|].
  simpl. apply IH. by apply multi_step_tracked.
Qed.

Lemma single_run_tracked (p : Props) (es : list Event) (s : State) :
  tracked (abortRef s) (requests s) →
  tracked (abortRef (EntityPicker.run p es s))
    (requests (EntityPicker.run p es s)).
Proof.
  revert s. induction es as [|e es IH]; intros s H; [done|].
  simpl. apply IH. by apply single_step_tracked.
Qed.

Lemma tracked_initial : tracked (abortRef initial) (requests initial).
Proof. intros c r Hc. done. Qed.

Lemma tracked_superseded (s : State) (c : nat) (r : Request) :
  tracked (abortRef s) (requests s) →
  requests s !! c = Some r → abortRef s ≠ Some c →
  aborted r = true ∨ settled r = true.
Proof.
  intros H Hc Hne. destruct (outstanding r) eqn:Ho.
  - destruct Hne. by eapply H.
  - unfold outstanding in Ho. apply andb_false_iff in Ho as [Ho|Ho];
      apply negb_false_iff in Ho; auto.
Qed.

(** The handlers of a cancelled request change nothing that is displayed. *)
Lemma multi_stale_response (p : Props) (s : State) (c : nat) (r : Request)
    (res : list Entity) :
  requests s !! c = Some r → aborted r = true →
  displayed (useEntityMultiPicker.step p (Resolve c res) s) = displayed s
  ∧ displayed (useEntityMultiPicker.step p (Reject c) s) = displayed s
  ∧ displayed (useEntityMultiPicker.step p (RejectAbort c) s) = displayed s.
Proof.
  intros Hc Ha. simpl.
  unfold useEntityMultiPicker.onResolve, useEntityMultiPicker.onReject.
  rewrite Hc, Ha. by destruct (settled r).
Qed.

Lemma single_stale_response (p : Props) (s : State) (c : nat) (r : Request)
    (res : list Entity) :
  requests s !! c = Some r → aborted r = true →
  displayed (EntityPicker.step p (Resolve c res) s) = displayed s
  ∧ displayed (EntityPicker.step p (Reject c) s) = displayed s
  ∧ displayed (EntityPicker.step p (RejectAbort c) s) = displayed s.
Proof.
  intros Hc Ha. simpl.
  unfold EntityPicker.onResolve, EntityPicker.onReject.
  rewrite Hc, Ha. by destruct (settled r).
Qed.

Lemma trim_empty : trim "" = "".
Proof. done. Qed.

Lemma multi_open_initial (p : Props) :
  (0 < minChars p)%nat →
  useEntityMultiPicker.step p (Open true) initial = setOpen true initial.
Proof.
  intros Hmin. simpl. unfold useEntityMultiPicker.effect. cbn.
  destruct (minChars p); [lia|done].
Qed.

Lemma single_open_initial (p : Props) :
  (0 < minChars p)%nat →
  EntityPicker.step p (Open true) initial = setOpen true initial.
Proof.
  intros Hmin. simpl. unfold EntityPicker.effect. cbn.
  destruct (minChars p); [lia|done].
Qed.

(** The state after the picker was opened and [v] has been typed last, with
    [rest] milliseconds of the debounce delay left. *)
Lemma typed_state_eq (v : string) (rest : nat) :
  setTimer (Some (v, rest)) (setInput v (setOpen true initial))
  = mkState true v "" (Some (v, rest)) [] false None 0%nat None "" None [].
Proof. done. Qed.

Lemma multi_input_same (p : Props) (v : string) (s : State) :
  input s = v → useEntityMultiPicker.step p (Input v) s = s.
Proof. intros H. simpl. by rewrite bool_decide_true. Qed.

Lemma multi_input_new (p : Props) (v : string) (s : State) :
  input s ≠ v →
  useEntityMultiPicker.step p (Input v) s
  = restartDebounce (debounceMs p) v (setInput v s).
Proof. intros H. simpl. by rewrite bool_decide_false. Qed.

Lemma multi_elapse_idle (p : Props) (ms : nat) (s : State) :
  timer s = None → useEntityMultiPicker.step p (Elapse ms) s = s.
Proof. intros H. simpl. unfold elapseDebounce. by rewrite H. Qed.

Lemma multi_elapse_wait (p : Props) (ms : nat) (s : State) (v : string) (rest : nat) :
  timer s = Some (v, rest) → (ms < rest)%nat →
  useEntityMultiPicker.step p (Elapse ms) s
  = setTimer (Some (v, (rest - ms)%nat)) s.
Proof.
  intros H Hlt. simpl. unfold elapseDebounce.
  by rewrite H, (proj2 (Nat.leb_gt _ _) Hlt).
Qed.

Lemma multi_elapse_fire (p : Props) (ms : nat) (s : State) (v : string) (rest : nat) :
  timer s = Some (v, rest) → (rest ≤ ms)%nat → debounced s ≠ v →
  useEntityMultiPicker.step p (Elapse ms) s
  = useEntityMultiPicker.effect p (setDebounced v (setTimer None s)).
Proof.
  intros H Hle Hne. simpl. unfold elapseDebounce.
  by rewrite H, (proj2 (Nat.leb_le _ _) Hle), bool_decide_false.
Qed.

Lemma single_input_same (p : Props) (v : string) (s : State) :
  open s = true → input s = v → EntityPicker.step p (Input v) s = s.
Proof. intros Ho H. simpl. by rewrite bool_decide_true, Ho. Qed.

Lemma single_input_new (p : Props) (v : string) (s : State) :
  open s = true → input s ≠ v →
  EntityPicker.step p (Input v) s
  = restartDebounce (debounceMs p) v (setInput v s).
Proof. intros Ho H. simpl. by rewrite bool_decide_false, Ho. Qed.

Lemma single_elapse_idle (p : Props) (ms : nat) (s : State) :
  timer s = None → EntityPicker.step p (Elapse ms) s = s.
Proof. intros H. simpl. unfold elapseDebounce. by rewrite H. Qed.

Lemma single_elapse_wait (p : Props) (ms : nat) (s : State) (v : string) (rest : nat) :
  timer s = Some (v, rest) → (ms < rest)%nat →
  EntityPicker.step p (Elapse ms) s = setTimer (Some (v, (rest - ms)%nat)) s.
Proof.
  intros H Hlt. simpl. unfold elapseDebounce.
  by rewrite H, (proj2 (Nat.leb_gt _ _) Hlt).
Qed.

Lemma single_elapse_fire (p : Props) (ms : nat) (s : State) (v : string) (rest : nat) :
  timer s = Some (v, rest) → (rest ≤ ms)%nat → debounced s ≠ v →
  EntityPicker.step p (Elapse ms) s
  = EntityPicker.effect p (setDebounced v (setTimer None s)).
Proof.
  intros H Hle Hne. simpl. unfold elapseDebounce.
  by rewrite H, (proj2 (Nat.leb_le _ _) Hle), bool_decide_false.
Qed.

Lemma multi_typing_pending (p : Props) (v1 v2 : string) (d1 : nat) :
  (0 < minChars p)%nat → v2 ≠ "" → (d1 < debounceMs p)%nat →
  ∃ rest, (rest ≤ debounceMs p)%nat
    ∧ useEntityMultiPicker.run p [Open true; Input v1; Elapse d1; Input v2]
        initial
      = setTimer (Some (v2, rest)) (setInput v2 (setOpen true initial)).
Proof.
  intros Hmin Hv2 Hd. unfold useEntityMultiPicker.run. cbn [foldl].
  rewrite multi_open_initial by done.
  destruct (decide (v1 = "")) as [->|Hv1].
  - exists (debounceMs p). split; [done|].
    rewrite (multi_input_same p "" (setOpen true initial)) by done.
    rewrite multi_elapse_idle by done.
    by rewrite multi_input_new by done.
  - rewrite (multi_input_new p v1 (setOpen true initial))
      by (simpl; congruence).
    rewrite (multi_elapse_wait p d1 _ v1 (debounceMs p)) by done.
    destruct (decide (v1 = v2)) as [->|Hne].
    + exists (debounceMs p - d1)%nat. split; [lia|].
      by rewrite multi_input_same.
    + exists (debounceMs p). split; [done|]. by rewrite multi_input_new.
Qed.

Lemma single_typing_pending (p : Props) (v1 v2 : string) (d1 : nat) :
  (0 < minChars p)%nat → v2 ≠ "" → (d1 < debounceMs p)%nat →
  ∃ rest, (rest ≤ debounceMs p)%nat
    ∧ EntityPicker.run p [Open true; Input v1; Elapse d1; Input v2] initial
      = setTimer (Some (v2, rest)) (setInput v2 (setOpen true initial)).
Proof.
  intros Hmin Hv2 Hd. unfold EntityPicker.run. cbn [foldl].
  rewrite single_open_initial by done.
  destruct (decide (v1 = "")) as [->|Hv1].
  - exists (debounceMs p). split; [done|].
    rewrite (single_input_same p "" (setOpen true initial)) by done.
    rewrite single_elapse_idle by done.
    by rewrite single_input_new by done.
  - rewrite (single_input_new p v1 (setOpen true initial))
      by (simpl; congruence).
    rewrite (single_elapse_wait p d1 _ v1 (debounceMs p)) by done.
    destruct (decide (v1 = v2)) as [->|Hne].
    + exists (debounceMs p - d1)%nat. split; [lia|].
      by rewrite single_input_same.
    + exists (debounceMs p). split; [done|]. by rewrite single_input_new.
Qed.

Lemma run_app_multi (p : Props) (es es' : list Event) (s : State) :
  useEntityMultiPicker.run p (es ++ es') s
  = useEntityMultiPicker.run p es' (useEntityMultiPicker.run p es s).
Proof. apply foldl_app. Qed.

Lemma run_app_single (p : Props) (es es' : list Event) (s : State) :
  EntityPicker.run p (es ++ es') s
  = EntityPicker.run p es' (EntityPicker.run p es s).
Proof. apply foldl_app. Qed.

Lemma trim_nonempty (p : Props) (v : string) :
  (0 < minChars p)%nat → (minChars p ≤ String.length (trim v))%nat →
  v ≠ "" ∧ trim v ≠ "".
Proof.
  intros Hmin Hlen. split.
  - intros ->. rewrite trim_empty in Hlen. simpl in Hlen. lia.
  - intros Ht. rewrite Ht in Hlen. simpl in Hlen. lia.
Qed.

(** Typing [v1] and then, before the delay has elapsed, [v2]: once the delay
    after the last keystroke has passed, exactly one request has been
    dispatched, for the trimmed [v2], and it is the outstanding one. *)
Lemma multi_typing_dispatch (p : Props) (v1 v2 : string) (d1 : nat) :
  (0 < minChars p)%nat → (minChars p ≤ String.length (trim v2))%nat →
  (d1 < debounceMs p)%nat →
  requests (useEntityMultiPicker.run p
              [Open true; Input v1; Elapse d1; Input v2; Elapse (debounceMs p)]
              initial)
  = [mkRequest (trim v2) true false false].
Proof.
  intros Hmin Hlen Hd. destruct (trim_nonempty p v2 Hmin Hlen) as [Hv2 Ht].
  destruct (multi_typing_pending p v1 v2 d1 Hmin Hv2 Hd) as (rest & Hrest & Hs).
  change [Open true; Input v1; Elapse d1; Input v2; Elapse (debounceMs p)]
    with ([Open true; Input v1; Elapse d1; Input v2] ++ [Elapse (debounceMs p)]).
  rewrite run_app_multi, Hs. unfold useEntityMultiPicker.run. cbn [foldl].
  rewrite (multi_elapse_fire p _ _ v2 rest) by (done || (simpl; congruence)).
  unfold useEntityMultiPicker.effect. cbn -[Nat.ltb trim].
  rewrite (proj2 (Nat.ltb_ge _ _) Hlen). cbn -[trim].
  by rewrite bool_decide_false.
Qed.

Lemma single_typing_dispatch (p : Props) (v1 v2 : string) (d1 : nat) :
  (0 < minChars p)%nat → (minChars p ≤ String.length (trim v2))%nat →
  (d1 < debounceMs p)%nat →
  requests (EntityPicker.run p
              [Open true; Input v1; Elapse d1; Input v2; Elapse (debounceMs p)]
              initial)
  = [mkRequest (trim v2) true false false].
Proof.
  intros Hmin Hlen Hd. destruct (trim_nonempty p v2 Hmin Hlen) as [Hv2 Ht].
  destruct (single_typing_pending p v1 v2 d1 Hmin Hv2 Hd) as (rest & Hrest & Hs).
  change [Open true; Input v1; Elapse d1; Input v2; Elapse (debounceMs p)]
    with ([Open true; Input v1; Elapse d1; Input v2] ++ [Elapse (debounceMs p)]).
  rewrite run_app_single, Hs. unfold EntityPicker.run. cbn [foldl].
  rewrite (single_elapse_fire p _ _ v2 rest) by (done || (simpl; congruence)).
  unfold EntityPicker.effect. cbn -[Nat.ltb trim].
  by rewrite (proj2 (Nat.ltb_ge _ _) Hlen).
Qed.

(** C7. In both pickers, after any sequence of events from the initial state
    at most one search request is outstanding, and every request other than
    the one of the current controller is cancelled or already answered.
    Typing a first value and, before its debounce delay has elapsed, a second
    one dispatches exactly one request, for the trimmed second value
    (["jo"] then ["joh"] dispatches one request for ["joh"]). The response
    of a cancelled request, whether results, an error or an abort error,
    leaves results, error, loading flag and highlighted index as they are,
    whenever it arrives. *)
Theorem one_outstanding_request (p : Props) :
  (∀ es,
     let multi := useEntityMultiPicker.run p es initial in
     let single := EntityPicker.run p es initial in
     (outstandingCount multi ≤ 1)%nat
     ∧ (outstandingCount single ≤ 1)%nat
     ∧ (∀ c r, requests multi !! c = Some r → abortRef multi ≠ Some c →
          aborted r = true ∨ settled r = true)
     ∧ (∀ c r, requests single !! c = Some r → abortRef single ≠ Some c →
          aborted r = true ∨ settled r = true))
  ∧ (∀ v1 v2 d1,
       (0 < minChars p)%nat → (minChars p ≤ String.length (trim v2))%nat →
       (d1 < debounceMs p)%nat →
       let typing :=
         [Open true; Input v1; Elapse d1; Input v2; Elapse (debounceMs p)] in
       requests (useEntityMultiPicker.run p typing initial)
       = [mkRequest (trim v2) true false false]
       ∧ requests (EntityPicker.run p typing initial)
         = [mkRequest (trim v2) true false false])
  ∧ (∀ s c r res,
       requests s !! c = Some r → aborted r = true →
       displayed (useEntityMultiPicker.step p (Resolve c res) s) = displayed s
       ∧ displayed (useEntityMultiPicker.step p (Reject c) s) = displayed s
       ∧ displayed (useEntityMultiPicker.step p (RejectAbort c) s) = displayed s
       ∧ displayed (EntityPicker.step p (Resolve c res) s) = displayed s
       ∧ displayed (EntityPicker.step p (Reject c) s) = displayed s
       ∧ displayed (EntityPicker.step p (RejectAbort c) s) = displayed s).
Proof.
  split.
  { intros es multi single.
    pose proof (multi_run_tracked p es initial tracked_initial) as Hm.
    pose proof (single_run_tracked p es initial tracked_initial) as Hs.
    split; [by eapply tracked_count|]. split; [by eapply tracked_count|].
    split; intros c r; by apply tracked_superseded. }
  split.
  { intros v1 v2 d1 Hmin Hlen Hd typing. split.
    - by apply multi_typing_dispatch.
    - by apply single_typing_dispatch. }
  intros s c r res Hc Ha.
  destruct (multi_stale_response p s c r res Hc Ha) as (? & ? & ?).
  destruct (single_stale_response p s c r res Hc Ha) as (? & ? & ?).
  done.
Qed.

Lemma one_outstanding_request_witness :
  let p := mkProps 2 250 in
  let typing := [Open true; Input "jo"; Elapse 100; Input "joh"; Elapse 250] in
  requests (useEntityMultiPicker.run p typing initial)
  = [mkRequest "joh" true false false]
  ∧ requests (EntityPicker.run p typing initial)
    = [mkRequest "joh" true false false].
Proof.
  intros p typing.
  destruct (one_outstanding_request p) as (_ & Htyping & _).
  apply (Htyping "jo" "joh" 100%nat).
  - simpl. lia.
  - vm_compute. lia.
  - simpl. lia.
Defined.

(** In the multi picker a successful response resets the highlight exactly
    when the request was dispatched for a query that differed from the last
    one. *)
Lemma multi_success_highlight (p : Props) (s : State) (c : nat) (r : Request)
    (res : list Entity) :
  requests s !! c = Some r → settled r = false → aborted r = false →
  activeIndex (useEntityMultiPicker.step p (Resolve c res) s)
  = if isNewQuery r then 0%nat else activeIndex s.
Proof.
  intros Hc Hs Ha. simpl. unfold useEntityMultiPicker.onResolve.
  rewrite Hc, Hs, Ha. by destruct (isNewQuery r).
Qed.

Lemma multi_dispatch_flag (p : Props) (s : State) :
  open s = true → (minChars p ≤ String.length (trim (debounced s)))%nat →
  last (requests (useEntityMultiPicker.effect p s))
  = Some (mkRequest (trim (debounced s))
            (negb (bool_decide (trim (debounced s) = lastQueryRef s)))
            false false).
Proof.
  intros Ho Hlen. unfold useEntityMultiPicker.effect. cbn -[Nat.ltb trim].
  rewrite Ho. cbn -[Nat.ltb trim].
  rewrite (proj2 (Nat.ltb_ge _ _) Hlen). cbn -[trim]. by rewrite last_snoc.
Qed.

(** C8. In [EntityPicker] a response for the same effective query as the
    previous dispatch resets the highlighted index: after the user moved the
    highlight to index 2 and the query ["jo"] was dispatched a second time,
    the arrival of its results puts the highlight back to 0. On the same
    events [useEntityMultiPicker] keeps it at 2. *)
Theorem single_refresh_resets_highlight :
  let p := mkProps 2 250 in
  let before := EntityPicker.run p refresh_trace initial in
  let after := EntityPicker.step p (Resolve 1 sample_people) before in
  let multi_before := useEntityMultiPicker.run p refresh_trace initial in
  let multi_after :=
    useEntityMultiPicker.step p (Resolve 1 sample_people) multi_before in
  req_query <$> requests before = ["jo"; "jo"]
  ∧ debounced before = "jo"
  ∧ items before = sample_people
  ∧ activeIndex before = 2%nat
  ∧ items after = sample_people
  ∧ activeIndex after = 0%nat
  ∧ req_query <$> requests multi_before = ["jo"; "jo"]
  ∧ activeIndex multi_before = 2%nat
  ∧ activeIndex multi_after = 2%nat.
Proof. repeat split; vm_compute; reflexivity. Qed.

(** In [EntityPicker] every successful response that is not stale puts the
    highlight on the first option. *)
Lemma single_success_highlight (p : Props) (s : State) (c : nat) (r : Request)
    (res : list Entity) :
  requests s !! c = Some r → settled r = false → aborted r = false →
  activeIndex (EntityPicker.step p (Resolve c res) s) = 0%nat.
Proof.
  intros Hc Hs Ha. simpl. unfold EntityPicker.onResolve.
  by rewrite Hc, Hs, Ha.
Qed.

(** While nothing was searched yet, re-opening and resetting change nothing. *)
Lemma multi_typed_state_stable (p : Props) (v : string) (t : option (string * nat)) :
  let s := setTimer t (setInput v (setOpen true initial)) in
  useEntityMultiPicker.step p (Open true) s = s
  ∧ useEntityMultiPicker.step p ResetResults s = s.
Proof. by split. Qed.

Lemma multi_onChange_typed (p : Props) (v next : string) (t : option (string * nat)) :
  ∃ t', useEntityMultiPicker.run p (multiOnChange p next)
          (setTimer t (setInput v (setOpen true initial)))
        = useEntityMultiPicker.step p (Input next)
            (setTimer t (setInput v (setOpen true initial)))
        ∧ useEntityMultiPicker.step p (Input next)
            (setTimer t (setInput v (setOpen true initial)))
          = setTimer t' (setInput next (setOpen true initial)).
Proof.
  assert (∃ t', useEntityMultiPicker.step p (Input next)
                  (setTimer t (setInput v (setOpen true initial)))
                = setTimer t' (setInput next (setOpen true initial)))
    as [t' Ht'].
  { destruct (decide (v = next)) as [->|Hne].
    - exists t. by rewrite multi_input_same.
    - exists (Some (next, debounceMs p)). by rewrite multi_input_new. }
  exists t'. split; [|done].
  unfold multiOnChange, useEntityMultiPicker.run. rewrite !foldl_app.
  cbn [foldl]. rewrite Ht'.
  destruct (multi_typed_state_stable p next t') as [Hopen Hreset].
  cbv zeta in Hopen, Hreset.
  destruct (_ <? _)%nat; cbn [foldl]; by rewrite ?Hreset, Hopen.
Qed.

(** The same typing through the [onChange] handler of [EntityMultiPicker],
    which also re-opens the picker and resets the results of a short
    value: still one request, for the trimmed second value. *)
Lemma multi_component_typing_dispatch (p : Props) (v1 v2 : string) (d1 : nat) :
  (0 < minChars p)%nat → (minChars p ≤ String.length (trim v2))%nat →
  (d1 < debounceMs p)%nat →
  requests (useEntityMultiPicker.run p
              ([Open true] ++ multiOnChange p v1 ++ [Elapse d1]
               ++ multiOnChange p v2 ++ [Elapse (debounceMs p)])
              initial)
  = [mkRequest (trim v2) true false false].
Proof.
  intros Hmin Hlen Hd.
  rewrite <- (multi_typing_dispatch p v1 v2 d1 Hmin Hlen Hd).
  f_equal.
  change [Open true; Input v1; Elapse d1; Input v2; Elapse (debounceMs p)]
    with ([Open true] ++ [Input v1] ++ [Elapse d1] ++ [Input v2]
          ++ [Elapse (debounceMs p)]).
  rewrite !run_app_multi.
  unfold useEntityMultiPicker.run at 5 10. cbn [foldl].
  rewrite multi_open_initial by done.
  change (setOpen true initial)
    with (setTimer None (setInput "" (setOpen true initial))).
  destruct (multi_onChange_typed p "" v1 None) as (t1 & -> & Ht1).
  unfold useEntityMultiPicker.run at 3 7. cbn [foldl]. rewrite Ht1.
  assert (∃ t2, useEntityMultiPicker.step p (Elapse d1)
                  (setTimer t1 (setInput v1 (setOpen true initial)))
                = setTimer t2 (setInput v1 (setOpen true initial)))
    as [t2 Ht2].
  { destruct t1 as [[w rest]|].
    - destruct (decide (d1 < rest)%nat) as [Hlt|Hge].
      + eexists. by rewrite (multi_elapse_wait p d1 _ w rest).
      + exfalso.
        destruct (decide ("" = v1)) as [<-|Hne].
        * rewrite multi_input_same in Ht1 by done. done.
        * rewrite multi_input_new in Ht1 by done.
          injection Ht1 as _ <-. lia.
    - exists None. by rewrite multi_elapse_idle. }
  unfold useEntityMultiPicker.run at 3 5. cbn [foldl]. rewrite Ht2.
  destruct (multi_onChange_typed p v1 v2 t2) as (t3 & -> & Ht3).
  reflexivity.
Qed.

(** * Further properties *)

(** ** Sorted lists and the stable sort *)

Section Sorted.
Context {A : Type} (key : A → Z).

Lemma sorted_wrt_lookup (R : A → A → Prop) (l : list A) :
  (∀ i j x y, (i < j)%nat → l !! i = Some x → l !! j = Some y → R x y) →
  sorted_wrt R l.
Proof.
  induction l as [|a l IH]; intros Hl; [done|]. split.
  - apply Forall_forall. intros y Hy.
    apply list_elem_of_lookup in Hy as [j Hj].
    apply (Hl 0%nat (S j)); [lia|done|done].
  - apply IH. intros i j x y Hij Hx Hy.
    apply (Hl (S i) (S j)); [lia|done|done].
Qed.

Lemma insert_sorted_front (x : A) (l : list A) :
  Forall (λ y, key x < key y) l → insert_sorted key x l = x :: l.
Proof.
  destruct 1 as [|y l Hy _]; [done|]. simpl.
  by rewrite (proj2 (Z.ltb_lt _ _) Hy).
Qed.

Lemma insert_sorted_back (x : A) (l : list A) :
  Forall (λ y, key y ≤ key x) l → insert_sorted key x l = l ++ [x].
Proof.
  induction 1 as [|y l Hy _ IH]; [done|]. simpl.
  rewrite (proj2 (Z.ltb_ge _ _) Hy). by rewrite IH.
Qed.

Lemma insert_sorted_ascending (x : A) (l : list A) :
  ascending key l → ascending key (insert_sorted key x l).
Proof.
  unfold ascending.
  induction l as [|y l IH]; intros Hl; simpl.
  - by split.
  - destruct Hl as [Hy Hl]. destruct (Z.ltb_spec (key x) (key y)) as [Hlt|Hge].
    + split; [|by split]. constructor; [lia|].
      eapply Forall_impl; [exact Hy|]. simpl. intros; lia.
    + split; [|by apply IH]. apply Forall_forall. intros z Hz.
      rewrite insert_sorted_perm in Hz. apply elem_of_cons in Hz as [->|Hz]; [done|].
      by apply (proj1 (Forall_forall _ _) Hy).
Qed.

Lemma sort_by_snoc (l : list A) (x : A) :
  sort_by key (l ++ [x]) = insert_sorted key x (sort_by key l).
Proof. unfold sort_by. by rewrite foldl_app. Qed.

Lemma sort_by_ascending (l : list A) : ascending key (sort_by key l).
Proof.
  induction l as [|x l IH] using rev_ind; [done|].
  rewrite sort_by_snoc. by apply insert_sorted_ascending.
Qed.

Lemma insert_sorted_filter (P : A → Prop) `{!∀ x, Decision (P x)}
    (x : A) (l : list A) :
  ascending key l →
  filter P (insert_sorted key x l)
  = if decide (P x) then insert_sorted key x (filter P l) else filter P l.
Proof.
  unfold ascending.
  induction l as [|y l IH]; intros Hl; simpl.
  - rewrite filter_cons, filter_nil. by destruct (decide (P x)).
  - destruct Hl as [Hy Hl]. destruct (Z.ltb_spec (key x) (key y)) as [Hlt|Hge].
    + rewrite filter_cons. destruct (decide (P x)); [|done].
      rewrite insert_sorted_front; [done|].
      apply Forall_forall. intros z Hz. apply list_elem_of_filter in Hz as [_ Hz].
      apply elem_of_cons in Hz as [->|Hz]; [done|].
      pose proof (proj1 (Forall_forall _ _) Hy z Hz). simpl in *. lia.
    + rewrite !(filter_cons _ y). rewrite (IH Hl).
      destruct (decide (P y)), (decide (P x)); try done.
      simpl. by rewrite (proj2 (Z.ltb_ge _ _) Hge).
Qed.

Lemma sort_by_filter (P : A → Prop) `{!∀ x, Decision (P x)} (l : list A) :
  filter P (sort_by key l) = sort_by key (filter P l).
Proof.
  induction l as [|x l IH] using rev_ind; [done|].
  rewrite sort_by_snoc, insert_sorted_filter by apply sort_by_ascending.
  rewrite filter_app, filter_cons, filter_nil, IH.
  destruct (decide (P x)).
  - by rewrite sort_by_snoc.
  - by rewrite app_nil_r.
Qed.

Lemma ascending_perm_unique (l n : list A) :
  ascending key l → strictly_ascending key n → l ≡ₚ n → l = n.
Proof.
  unfold ascending, strictly_ascending.
  revert n. induction l as [|a l IH]; intros n Hl Hn Hp.
  - by apply Permutation_nil_l in Hp.
  - destruct n as [|b n]; [by apply Permutation_nil_r in Hp|].
    destruct Hl as [Ha Hl], Hn as [Hb Hn].
    assert (a = b) as ->.
    { assert (a ∈ b :: n) as Hab by (rewrite <- Hp; left).
      assert (b ∈ a :: l) as Hba by (rewrite Hp; left).
      apply elem_of_cons in Hab as [?|Hab]; [done|].
      apply elem_of_cons in Hba as [?|Hba]; [done|].
      pose proof (proj1 (Forall_forall _ _) Ha b Hba).
      pose proof (proj1 (Forall_forall _ _) Hb a Hab). simpl in *. lia. }
    f_equal. apply IH; [done|done|]. by apply (Permutation_cons_inv (a:=b)).
Qed.

Lemma sort_by_unique (l n : list A) :
  strictly_ascending key n → l ≡ₚ n → sort_by key l = n.
Proof.
  intros Hn Hp. apply ascending_perm_unique; [apply sort_by_ascending|done|].
  by rewrite sort_by_perm.
Qed.

Lemma strictly_ascending_ascending (l : list A) :
  strictly_ascending key l → ascending key l.
Proof.
  unfold ascending, strictly_ascending.
  induction l as [|a l IH]; [done|]. intros [Ha Hl]. split; [|by apply IH].
  eapply Forall_impl; [exact Ha|]. simpl. intros; lia.
Qed.

Lemma sort_by_sorted (l : list A) : ascending key l → sort_by key l = l.
Proof.
  unfold ascending.
  induction l as [|x l IH] using rev_ind; [done|]. intros Hl.
  rewrite sort_by_snoc.
  assert (sorted_wrt (λ a b, key a ≤ key b) l ∧ Forall (λ y, key y ≤ key x) l)
    as [Hl' Hx].
  { clear IH. induction l as [|a l IH]; [by split|].
    destruct Hl as [Ha Hl]. destruct (IH Hl) as [? ?].
    apply Forall_app in Ha as [Ha1 Ha2]. split; [by split|].
    constructor; [|done]. by inversion Ha2. }
  rewrite (IH Hl'). by apply insert_sorted_back.
Qed.

Lemma sort_by_idemp (l : list A) : sort_by key (sort_by key l) = sort_by key l.
Proof. apply sort_by_sorted, sort_by_ascending. Qed.

End Sorted.

(** ** The drop target encoding *)

Lemma substring_all (s : string) : String.substring 0 (String.length s) s = s.
Proof. induction s as [|c s IH]; simpl; congruence. Qed.

Lemma prefix_status_inv (s : string) :
  String.prefix "status:" s = true →
  s = String.append "status:" (String.substring 7 (String.length s - 7) s).
Proof.
  intros Hp.
  do 7 (destruct s as [|? s]; cbn [String.prefix] in Hp; [discriminate|];
        match type of Hp with
        | (if ?d then _ else _) = _ => destruct d as [<-|]; [|discriminate]
        end).
  simpl. rewrite Nat.sub_0_r, substring_all. reflexivity.
Qed.

Lemma parseDropStatus_column (s : IssueStatus) :
  BoardPage.parseDropStatus (Some (Columns.droppableId s)) = Some s.
Proof.
  unfold BoardPage.parseDropStatus, Columns.droppableId. simpl.
  change (String.append "" s) with s.
  replace (String.prefix "" s) with true by (by destruct s).
  by rewrite Nat.sub_0_r, substring_all.
Qed.

Lemma dropStatus_column (scoped : list Issue) (s : IssueStatus) :
  s ≠ "" → BoardPage.dropStatus scoped (Columns.droppableId s) = Some s.
Proof.
  intros Hs. unfold BoardPage.dropStatus.
  rewrite parseDropStatus_column. by rewrite truthy_Some.
Qed.

Lemma rendered_elem_of (view : BoardPage.View) (s : IssueStatus) :
  s ∈ Columns.rendered view
  ↔ s ∈ Columns.STATUSES ∧ BoardPage.canShowStatus view s = true.
Proof. unfold Columns.rendered. rewrite list_elem_of_filter. tauto. Qed.

Lemma STATUSES_nonempty (s : IssueStatus) : s ∈ Columns.STATUSES → s ≠ "".
Proof.
  unfold Columns.STATUSES. rewrite !elem_of_cons, elem_of_nil.
  intros [->|[->|[->|[->|[]]]]]; done.
Qed.

(** X1. The id of a column's droppable area decodes to the status of the
    column, nothing else decodes, and every column on screen is a drop
    target whose status the view accepts. *)
Theorem parseDropStatus_droppableId :
  (∀ s, BoardPage.parseDropStatus (Some (Columns.droppableId s)) = Some s)
  ∧ (∀ i s, BoardPage.parseDropStatus (Some i) = Some s →
       i = Columns.droppableId s)
  ∧ (∀ i, String.prefix "status:" i = false →
       BoardPage.parseDropStatus (Some i) = None)
  ∧ (∀ view s scoped, s ∈ Columns.rendered view →
       BoardPage.dropStatus scoped (Columns.droppableId s) = Some s
       ∧ BoardPage.canShowStatus view s = true
       ∧ BoardColumns.canShowStatus view s = true).
Proof.
  split; [exact parseDropStatus_column|]. split; [|split].
  - intros i s. unfold BoardPage.parseDropStatus.
    destruct (bool_decide (i = "")); [done|].
    destruct (String.prefix "status:" i) eqn:Hp; [|done].
    intros [= <-]. by apply prefix_status_inv.
  - intros i Hp. unfold BoardPage.parseDropStatus.
    destruct (bool_decide (i = "")); [done|]. by rewrite Hp.
  - intros view s scoped [Hs Hshow]%rendered_elem_of.
    split; [|done]. apply dropStatus_column. by apply STATUSES_nonempty.
Qed.

(** ** What a drag can emit *)

Lemma BoardPage_reorder_inv (scoped : list Issue) (aId : string)
    (st : IssueStatus) (overIssue : option Issue) (changes : list IssueChange) :
  BoardPage.reorder scoped aId st overIssue = Some changes →
  ∃ i j x,
    BoardPage.columnOf scoped st !! i = Some x ∧ id x = aId
    ∧ (j < length (BoardPage.columnOf scoped st))%nat ∧ i ≠ j
    ∧ changes
      = BoardPage.orderChange
          <$> BoardPage.normalizeOrders
                (arrayMove (BoardPage.columnOf scoped st) i j).
Proof.
  unfold BoardPage.reorder. destruct overIssue as [ov|]; [|done].
  set (lst := BoardPage.columnOf scoped st).
  set (P := λ x : Issue, id x = aId). set (Q := λ x : Issue, id x = id ov).
  cbv zeta.
  destruct (Z.ltb_spec (findIndex P lst) 0) as [|Hold]; [done|].
  destruct (Z.ltb_spec (findIndex Q lst) 0) as [|Hnew]; [done|].
  destruct (Z.eqb_spec (findIndex P lst) (findIndex Q lst)) as [|Hne]; [done|].
  simpl. intros [= <-].
  destruct (findIndex_Some P lst (Z.to_nat (findIndex P lst))) as (x & Hx & HPx & _);
    [lia|].
  exists (Z.to_nat (findIndex P lst)), (Z.to_nat (findIndex Q lst)), x.
  pose proof (findIndex_bounds Q lst) as [?|[? ?]]; [|lia].
  repeat split; [done|done|lia|lia].
Qed.

Lemma BoardColumns_reorder_inv (scoped : list Issue) (aId : string)
    (st : IssueStatus) (overIssue : option Issue) (changes : list IssueChange) :
  BoardColumns.reorder scoped aId st overIssue = Some changes →
  ∃ i j x,
    BoardPage.columnOf scoped st !! i = Some x ∧ id x = aId
    ∧ (j < length (BoardPage.columnOf scoped st))%nat ∧ i ≠ j
    ∧ changes
      = BoardPage.orderChange
          <$> BoardPage.normalizeOrders
                (arrayMove (BoardPage.columnOf scoped st) i j).
Proof.
  unfold BoardColumns.reorder.
  set (lst := BoardPage.columnOf scoped st).
  set (P := λ x : Issue, id x = aId).
  cbv zeta.
  destruct (Z.ltb_spec (findIndex P lst) 0) as [|Hold]; [done|].
  set (newIndex := match overIssue with
                   | Some ov => findIndex (λ x, id x = id ov) lst
                   | None => Z.of_nat (length lst) - 1
                   end).
  destruct (Z.ltb_spec newIndex 0) as [|Hnew]; [done|].
  destruct (Z.eqb_spec (findIndex P lst) newIndex) as [|Hne]; [done|].
  simpl. intros [= <-].
  destruct (findIndex_Some P lst (Z.to_nat (findIndex P lst))) as (x & Hx & HPx & _);
    [lia|].
  exists (Z.to_nat (findIndex P lst)), (Z.to_nat newIndex), x.
  assert (newIndex < Z.of_nat (length lst)).
  { subst newIndex. destruct overIssue as [ov|]; [|lia].
    pose proof (findIndex_bounds (λ x, id x = id ov) lst) as [?|[? ?]]; lia. }
  repeat split; [done|done|lia|lia].
Qed.

Lemma BoardPage_onDragEnd_inv (view : BoardPage.View) (issues : list Issue)
    (aId : string) (overId : option string) (changes : list IssueChange) :
  BoardPage.onDragEnd view issues aId overId = Some changes →
  ∃ oId active toStatus,
    overId = Some oId ∧ oId ≠ ""
    ∧ find (λ x, id x = aId) (BoardPage.scopedIssues issues) = Some active
    ∧ BoardPage.dropStatus (BoardPage.scopedIssues issues) oId = Some toStatus
    ∧ toStatus ≠ ""
    ∧ BoardPage.canShowStatus view toStatus = true
    ∧ drop_changes (BoardPage.scopedIssues issues) active toStatus
        (find (λ x, id x = oId) (BoardPage.scopedIssues issues)) changes.
Proof.
  unfold BoardPage.onDragEnd. cbv zeta.
  destruct overId as [oId|]; [|done]. simpl truthy.
  destruct (bool_decide_reflect (oId = "")) as [|HoId]; [done|]. simpl negb.
  destruct (find (λ x, id x = aId) (BoardPage.scopedIssues issues))
    as [active|] eqn:Hfind; [|done].
  destruct (BoardPage.dropStatus (BoardPage.scopedIssues issues) oId)
    as [toStatus|] eqn:Hdrop; [|done].
  unfold truthy. case_bool_decide as Hto; simpl negb; cbv iota; [done|].
  destruct (BoardPage.canShowStatus view toStatus) eqn:Hshow; [|done]. simpl negb.
  intros H. exists oId, active, toStatus. repeat split; try done.
  apply find_Some in Hfind as Hact. destruct Hact as [_ Hid].
  destruct (bool_decide_reflect (status active = toStatus)) as [Heq|Hne].
  - left. split; [done|]. rewrite Heq in H.
    apply BoardPage_reorder_inv in H as (i & j & x & ? & ? & ? & ? & ?).
    exists i, j, x. repeat split; try done. congruence.
  - right. split; [done|]. by injection H.
Qed.

Lemma BoardColumns_onDragEnd_inv (view : BoardPage.View) (issues : list Issue)
    (lastOver : option string) (aId : string) (overId : option string)
    (changes : list IssueChange) :
  BoardColumns.onDragEnd view issues lastOver aId overId = Some changes →
  ∃ oId active toStatus,
    (overId = Some oId ∨ (truthy overId = false ∧ lastOver = Some oId))
    ∧ oId ≠ ""
    ∧ find (λ x, id x = aId) (BoardPage.scopedIssues issues) = Some active
    ∧ BoardPage.dropStatus (BoardPage.scopedIssues issues) oId = Some toStatus
    ∧ toStatus ≠ ""
    ∧ BoardPage.canShowStatus view toStatus = true
    ∧ drop_changes (BoardPage.scopedIssues issues) active toStatus
        (find (λ x, id x = oId) (BoardPage.scopedIssues issues)) changes.
Proof.
  unfold BoardColumns.onDragEnd, BoardColumns.canShowStatus. cbv zeta.
  set (o := match (if truthy overId then overId else None) with
            | Some o => Some o
            | None => lastOver
            end).
  assert (∀ oId, o = Some oId →
            overId = Some oId ∨ (truthy overId = false ∧ lastOver = Some oId))
    as Ho.
  { subst o. intros oId. destruct (truthy overId) eqn:Ht.
    - destruct overId; [|done]. by left.
    - by right. }
  destruct o as [oId|]; [|done]. specialize (Ho oId eq_refl). simpl truthy.
  destruct (bool_decide_reflect (oId = "")) as [|HoId]; [done|]. simpl negb.
  destruct (find (λ x, id x = aId) (BoardPage.scopedIssues issues))
    as [active|] eqn:Hfind; [|done].
  destruct (BoardPage.dropStatus (BoardPage.scopedIssues issues) oId)
    as [toStatus|] eqn:Hdrop; [|done].
  unfold truthy. case_bool_decide as Hto; simpl negb; cbv iota; [done|].
  destruct (BoardPage.canShowStatus view toStatus) eqn:Hshow; [|done]. simpl negb.
  intros H. exists oId, active, toStatus. repeat split; try done.
  apply find_Some in Hfind as Hact. destruct Hact as [_ Hid].
  destruct (bool_decide_reflect (status active = toStatus)) as [Heq|Hne].
  - left. split; [done|]. rewrite Heq in H.
    apply BoardColumns_reorder_inv in H as (i & j & x & ? & ? & ? & ? & ?).
    exists i, j, x. repeat split; try done. congruence.
  - right. split; [done|]. by injection H.
Qed.

Lemma orderChange_ids (l : list Issue) :
  change_id <$> (BoardPage.orderChange <$> BoardPage.normalizeOrders l) = id <$> l.
Proof.
  apply list_eq. intros k.
  rewrite !list_lookup_fmap, normalizeOrders_lookup.
  by destruct (l !! k).
Qed.

Lemma statusOrderChange_ids (l : list Issue) :
  change_id <$> (BoardPage.statusOrderChange <$> BoardPage.normalizeOrders l)
  = id <$> l.
Proof.
  apply list_eq. intros k.
  rewrite !list_lookup_fmap, normalizeOrders_lookup.
  by destruct (l !! k).
Qed.

Lemma splice_in_perm {A} (i : nat) (x : A) (l : list A) : splice_in i x l ≡ₚ x :: l.
Proof.
  unfold splice_in. rewrite <- Permutation_middle.
  by rewrite take_drop.
Qed.

Lemma splice_in_fmap {A B} (f : A → B) (i : nat) (x : A) (l : list A) :
  f <$> splice_in i x l = splice_in i (f x) (f <$> l).
Proof. unfold splice_in. by rewrite fmap_app, fmap_cons, fmap_take, fmap_drop. Qed.

Lemma splice_in_end {A} (x : A) (l : list A) : splice_in (length l) x l = l ++ [x].
Proof. unfold splice_in. by rewrite take_ge, drop_ge by lia. Qed.

Lemma arrayMove_perm {A} (l : list A) (i j : nat) : arrayMove l i j ≡ₚ l.
Proof.
  unfold arrayMove. destruct (l !! i) as [x|] eqn:Hx; [|done].
  rewrite splice_in_perm. symmetry. by apply delete_Permutation.
Qed.

Lemma with_status_same (x : Issue) : with_status x (status x) = x.
Proof. by destruct x. Qed.

Lemma spread_order_patch (x : Issue) (o : Z) :
  spread x (order_patch o) = with_order x o.
Proof. reflexivity. Qed.

Lemma spread_status_order_patch (x : Issue) (s : IssueStatus) (o : Z) :
  spread x (status_order_patch s o) = with_order (with_status x s) o.
Proof. reflexivity. Qed.

Lemma moveAcross_shape (scoped : list Issue) (active : Issue)
    (toStatus : IssueStatus) (overIssue : option Issue) :
  ∃ dest,
    BoardPage.moveAcross scoped active toStatus overIssue
    = (BoardPage.statusOrderChange <$> BoardPage.normalizeOrders dest)
      ++ (BoardPage.orderChange
            <$> BoardPage.normalizeOrders
                  (filter (λ x, id x ≠ id active)
                     (BoardPage.columnOf scoped (status active))))
    ∧ with_status active toStatus ∈ dest
    ∧ Forall (λ x, status x = toStatus) dest.
Proof.
  unfold BoardPage.moveAcross. cbv zeta.
  set (toNext := filter (λ x, id x ≠ id active) (BoardPage.columnOf scoped toStatus)).
  assert (Forall (λ x, status x = toStatus) toNext) as HtoNext.
  { apply Forall_forall. intros x Hx. subst toNext.
    apply list_elem_of_filter in Hx as [_ Hx].
    by apply columnOf_elem_of in Hx as [_ ?]. }
  match goal with
  | |- context [if ?b then ?l1 else ?l2] => exists (if b then l1 else l2)
  end.
  split; [done|].
  match goal with |- context [if ?b then _ else _] => destruct b end.
  - split.
    + apply splice_in_elem_of. by left.
    + apply Forall_forall. intros x [->|Hx]%splice_in_elem_of; [done|].
      by apply (proj1 (Forall_forall _ _) HtoNext).
  - split.
    + apply elem_of_app. right. by apply list_elem_of_singleton.
    + apply Forall_app. split; [done|]. by apply Forall_singleton.
Qed.

Lemma drop_changes_shape (scoped : list Issue) (active : Issue)
    (toStatus : IssueStatus) (overIssue : option Issue)
    (changes : list IssueChange) :
  drop_changes scoped active toStatus overIssue changes →
  (∃ c, c ∈ changes ∧ change_id c = id active
        ∧ p_status (change_patch c)
          = if bool_decide (status active = toStatus) then None
            else Some toStatus)
  ∧ Forall (λ c, status_order_only (change_patch c)
                 ∧ is_Some (p_order (change_patch c))
                 ∧ (p_status (change_patch c) = None
                    ∨ p_status (change_patch c) = Some toStatus))
      changes
  ∧ (status active = toStatus →
     Forall (λ c, p_status (change_patch c) = None) changes).
Proof.
  intros [(Hsame & i & j & x & Hx & Hidx & Hj & Hij & ->)|(Hcross & ->)].
  - split; [|split].
    + assert (x ∈ arrayMove (BoardPage.columnOf scoped toStatus) i j) as Hin.
      { rewrite arrayMove_perm. by apply list_elem_of_lookup_2 in Hx. }
      apply list_elem_of_lookup in Hin as [n Hn].
      exists (mkChange (id x) (order_patch ((Z.of_nat n + 1) * 1000))).
      split; [|split; [done|by rewrite bool_decide_true]].
      apply list_elem_of_lookup. exists n.
      by rewrite list_lookup_fmap, normalizeOrders_lookup, Hn.
    + apply Forall_forall. intros c (y & -> & Hy)%list_elem_of_fmap.
      repeat split; by eauto.
    + intros _. apply Forall_forall. by intros c (y & -> & Hy)%list_elem_of_fmap.
  - destruct (moveAcross_shape scoped active toStatus overIssue)
      as (dest & -> & Hmoved & Hdest).
    split; [|split].
    + apply list_elem_of_lookup in Hmoved as [n Hn].
      exists (mkChange (id active)
                (status_order_patch toStatus ((Z.of_nat n + 1) * 1000))).
      split; [|split; [done|by rewrite bool_decide_false]].
      apply elem_of_app. left. apply list_elem_of_lookup. exists n.
      by rewrite list_lookup_fmap, normalizeOrders_lookup, Hn.
    + apply Forall_app. split.
      * apply Forall_forall. intros c (y & -> & Hy)%list_elem_of_fmap.
        apply list_elem_of_lookup in Hy as [n Hn].
        rewrite normalizeOrders_lookup in Hn.
        destruct (dest !! n) as [z|] eqn:Hz; [|done]. injection Hn as <-.
        apply list_elem_of_lookup_2 in Hz.
        pose proof (proj1 (Forall_forall _ _) Hdest z Hz) as Hst.
        repeat split; try by eauto. right. simpl. by rewrite Hst.
      * apply Forall_forall. intros c (y & -> & Hy)%list_elem_of_fmap.
        repeat split; by eauto.
    + done.
Qed.

(** X2. What a drag emits. Whenever a handler emits changes, the drag was
    completed over a droppable: the one under the pointer or, in
    [BoardColumns] when there is none, the one hovered last. The dragged
    card is a loaded issue, the destination is the status that droppable
    stands for (the column it names or the status of the issue it is), and
    the view shows that status. The patch of the dragged card writes the
    destination status exactly when the card changes column; every patch
    names [order] and at most [status] besides, a status that is written is
    the destination, and a drop in the card's own column writes no
    status. *)
Theorem drag_emits_shown_status (view : BoardPage.View) (issues : list Issue)
    (lastOver : option string) (aId : string) (overId : option string) :
  let scoped := BoardPage.scopedIssues issues in
  let emits (over : option string) (changes : list IssueChange) : Prop :=
    ∃ oId active toStatus,
      over = Some oId
      ∧ find (λ x, id x = aId) scoped = Some active
      ∧ active ∈ issues
      ∧ BoardPage.dropStatus scoped oId = Some toStatus
      ∧ BoardPage.canShowStatus view toStatus = true
      ∧ (∃ c, c ∈ changes ∧ change_id c = aId
              ∧ p_status (change_patch c)
                = if bool_decide (status active = toStatus) then None
                  else Some toStatus)
      ∧ Forall (λ c, status_order_only (change_patch c)
                     ∧ is_Some (p_order (change_patch c))
                     ∧ (p_status (change_patch c) = None
                        ∨ p_status (change_patch c) = Some toStatus))
          changes
      ∧ (status active = toStatus →
         Forall (λ c, p_status (change_patch c) = None) changes) in
  (∀ changes, BoardPage.onDragEnd view issues aId overId = Some changes →
     emits overId changes)
  ∧ (∀ changes,
       BoardColumns.onDragEnd view issues lastOver aId overId = Some changes →
       emits (if truthy overId then overId else lastOver) changes).
Proof.
  intros scoped emits. subst emits. cbv beta. split; intros changes H.
  - apply BoardPage_onDragEnd_inv in H
      as (oId & active & toStatus & -> & _ & Hfind & Hdrop & _ & Hshow & Hch).
    exists oId, active, toStatus.
    apply find_Some in Hfind as Hact. destruct Hact as [Hact Hid].
    apply (proj1 (scopedIssues_elem_of _ _)) in Hact. simpl in Hid.
    destruct (drop_changes_shape _ _ _ _ _ Hch) as (Hc & Hall & Hnone).
    rewrite Hid in Hc. by repeat split.
  - apply BoardColumns_onDragEnd_inv in H
      as (oId & active & toStatus & Hover & HoId & Hfind & Hdrop & _ & Hshow
          & Hch).
    exists oId, active, toStatus.
    apply find_Some in Hfind as Hact. destruct Hact as [Hact Hid].
    apply (proj1 (scopedIssues_elem_of _ _)) in Hact. simpl in Hid.
    destruct (drop_changes_shape _ _ _ _ _ Hch) as (Hc & Hall & Hnone).
    rewrite Hid in Hc. split; [|by repeat split].
    destruct Hover as [->|[-> ->]]; [|done]. by rewrite truthy_Some.
Qed.

Lemma drag_emits_shown_status_witness :
  ∃ c, c ∈ [ mkChange "A" (status_order_patch in_progress 1000);
             mkChange "C" (status_order_patch in_progress 2000);
             mkChange "B" (order_patch 1000) ]
       ∧ change_id c = "A"
       ∧ p_status (change_patch c) = Some in_progress.
Proof.
  destruct (drag_emits_shown_status BoardPage.SprintView sprint_board None "A"
              (Some "C")) as [H _].
  destruct (H [ mkChange "A" (status_order_patch in_progress 1000);
                mkChange "C" (status_order_patch in_progress 2000);
                mkChange "B" (order_patch 1000) ])
    as (oId & active & toStatus & Hover & Hfind & _ & Hdrop & _ & Hc & _).
  - vm_compute. reflexivity.
  - injection Hover as <-.
    assert (active = sample_issue "A" (Some "s1") todo 1000) as ->.
    { vm_compute in Hfind. by injection Hfind. }
    assert (toStatus = in_progress) as ->.
    { vm_compute in Hdrop. by injection Hdrop. }
    exact Hc.
Defined.

(** ** The optimistic write of a patch set with distinct ids *)

Lemma filter_fmap {A B} (f : A → B) (P : B → Prop) `{!∀ y, Decision (P y)}
    (l : list A) :
  filter P (f <$> l) = f <$> filter (λ x, P (f x)) l.
Proof.
  induction l as [|x l IH]; [done|].
  rewrite fmap_cons, !filter_cons, IH. by destruct (decide (P (f x))).
Qed.

Lemma filter_ext_elem {A} (P Q : A → Prop) `{!∀ x, Decision (P x)}
    `{!∀ x, Decision (Q x)} (l : list A) :
  (∀ x, x ∈ l → P x ↔ Q x) → filter P l = filter Q l.
Proof.
  induction l as [|x l IH]; intros Hl; [done|].
  rewrite !filter_cons, IH.
  - destruct (decide (P x)) as [HP|HP], (decide (Q x)) as [HQ|HQ]; try done.
    + destruct HQ. apply (Hl x); [left|done].
    + destruct HP. apply (Hl x); [left|done].
  - intros y Hy. apply Hl. by right.
Qed.

Lemma fmap_id_elem {A} (f : A → A) (l : list A) :
  (∀ x, x ∈ l → f x = x) → f <$> l = l.
Proof.
  induction l as [|x l IH]; intros Hl; [done|].
  rewrite fmap_cons, IH, (Hl x); [done|left|].
  intros y Hy. apply Hl. by right.
Qed.

Lemma lastPatchFor_None (i : string) (changes : list IssueChange) :
  i ∉ change_id <$> changes → lastPatchFor i changes = None.
Proof.
  intros Hi. unfold lastPatchFor. rewrite filter_none; [done|].
  intros c Hc Heq. apply Hi. apply list_elem_of_fmap. by exists c.
Qed.

Lemma lastPatchFor_NoDup (changes : list IssueChange) (c : IssueChange) :
  NoDup (change_id <$> changes) → c ∈ changes →
  lastPatchFor (change_id c) changes = Some (change_patch c).
Proof.
  intros Hnd Hc. unfold lastPatchFor.
  assert (filter (λ c', change_id c' = change_id c) changes = [c]) as ->; [|done].
  induction changes as [|d changes IH]; [by apply elem_of_nil in Hc|].
  rewrite fmap_cons in Hnd. apply NoDup_cons in Hnd as [Hd Hnd].
  apply elem_of_cons in Hc as [->|Hc].
  - rewrite filter_cons_True by done. f_equal. apply filter_none.
    intros c' Hc' Heq. apply Hd. rewrite <- Heq.
    apply list_elem_of_fmap. by exists c'.
  - rewrite filter_cons_False; [by apply IH|].
    intros Heq. apply Hd. rewrite Heq. apply list_elem_of_fmap. by exists c.
Qed.

Lemma patched_other (changes : list IssueChange) (x : Issue) :
  id x ∉ change_id <$> changes → patched changes x = x.
Proof. intros Hx. unfold patched. by rewrite lastPatchFor_None. Qed.

Lemma patched_at (changes : list IssueChange) (x : Issue) (p : IssuePatch) :
  NoDup (change_id <$> changes) → mkChange (id x) p ∈ changes →
  patched changes x = spread x p.
Proof.
  intros Hnd Hc. unfold patched.
  pose proof (lastPatchFor_NoDup changes (mkChange (id x) p) Hnd Hc) as Hl.
  simpl in Hl. by rewrite Hl.
Qed.

Lemma batch_onMutate_patched (k : JiraQueries.QueryKey)
    (qc : JiraQueries.QueryCache) (changes : list IssueChange) :
  JiraQueries.cachedList (useBatchPatchIssues.onMutate k qc changes).1 k
  = patched changes <$> JiraQueries.cachedList qc k.
Proof.
  apply list_eq. intros i.
  by rewrite batch_onMutate_lookup, list_lookup_fmap.
Qed.

Lemma normalizeOrders_strictly (l : list Issue) :
  strictly_ascending order (BoardPage.normalizeOrders l).
Proof.
  apply sorted_wrt_lookup. intros i j x y Hij Hx Hy.
  apply normalizeOrders_order in Hx, Hy. lia.
Qed.

Lemma columnOf_scoped_filter (issues : list Issue) (s : IssueStatus) :
  BoardPage.columnOf (BoardPage.scopedIssues issues) s
  = sort_by order (filter (λ i, status i = s) issues).
Proof.
  unfold BoardPage.columnOf, BoardPage.scopedIssues.
  by rewrite sort_by_filter, sort_by_idemp.
Qed.

Section PatchedBoard.
Variables (issues destPre srcRest : list Issue) (changes : list IssueChange)
  (toStatus fromStatus : IssueStatus).
Hypothesis Hnd : NoDup (id <$> issues).
Hypothesis Hids : change_id <$> changes = (id <$> destPre) ++ (id <$> srcRest).
Hypothesis Hndc : NoDup ((id <$> destPre) ++ (id <$> srcRest)).
Hypothesis Hdest : ∀ k x, destPre !! k = Some x →
  ∃ p, mkChange (id x) p ∈ changes
       ∧ spread x p
         = with_order (with_status x toStatus) ((Z.of_nat k + 1) * 1000).
Hypothesis Hsrc : ∀ k x, srcRest !! k = Some x →
  mkChange (id x) (order_patch ((Z.of_nat k + 1) * 1000)) ∈ changes.
Hypothesis Hdest_in : ∀ x, x ∈ destPre →
  x ∈ issues ∧ (status x = toStatus ∨ status x = fromStatus).
Hypothesis Hsrc_in : ∀ x, x ∈ srcRest →
  x ∈ issues ∧ status x = fromStatus ∧ fromStatus ≠ toStatus.
Hypothesis Hto : ∀ x, x ∈ issues → status x = toStatus → x ∈ destPre.
Hypothesis Hfrom : ∀ x, x ∈ issues → status x = fromStatus →
  x ∈ destPre ∨ x ∈ srcRest.

Local Abbreviation next := (patched changes <$> issues).

Lemma patched_board_ndc : NoDup (change_id <$> changes).
Proof. by rewrite Hids. Qed.

Lemma patched_board_dest (k : nat) (x : Issue) :
  destPre !! k = Some x →
  patched changes x = with_order (with_status x toStatus) ((Z.of_nat k + 1) * 1000).
Proof.
  intros Hx. destruct (Hdest k x Hx) as (p & Hp & <-).
  apply patched_at; [apply patched_board_ndc|done].
Qed.

Lemma patched_board_src (k : nat) (x : Issue) :
  srcRest !! k = Some x →
  patched changes x = with_order x ((Z.of_nat k + 1) * 1000).
Proof.
  intros Hx. rewrite <- spread_order_patch.
  apply patched_at; [apply patched_board_ndc|by apply Hsrc].
Qed.

Lemma patched_board_other (x : Issue) :
  x ∈ issues → x ∉ destPre → x ∉ srcRest → patched changes x = x.
Proof.
  intros Hx Hd Hs. apply patched_other. rewrite Hids.
  intros [(y & Hy & Hyd)%list_elem_of_fmap|(y & Hy & Hys)%list_elem_of_fmap]%elem_of_app.
  - apply Hd. replace x with y; [done|].
    apply (NoDup_id_inj issues); [done|by apply Hdest_in|done|done].
  - apply Hs. replace x with y; [done|].
    apply (NoDup_id_inj issues); [done|by apply Hsrc_in|done|done].
Qed.

Lemma patched_board_status (x : Issue) :
  x ∈ issues →
  (x ∈ destPre ∧ status (patched changes x) = toStatus)
  ∨ (¬ x ∈ destPre ∧ x ∈ srcRest ∧ status (patched changes x) = fromStatus
     ∧ fromStatus ≠ toStatus)
  ∨ (¬ x ∈ destPre ∧ ¬ x ∈ srcRest ∧ patched changes x = x).
Proof.
  intros Hx. destruct (decide (x ∈ destPre)) as [Hd|Hd].
  - left. split; [done|]. apply list_elem_of_lookup in Hd as [k Hk].
    by rewrite (patched_board_dest k x Hk).
  - right. destruct (decide (x ∈ srcRest)) as [Hs|Hs].
    + left. destruct (Hsrc_in x Hs) as (_ & ? & ?).
      apply list_elem_of_lookup in Hs as Hs'. destruct Hs' as [k Hk].
      by rewrite (patched_board_src k x Hk).
    + right. repeat split; try done. by apply patched_board_other.
Qed.

Lemma patched_board_columns :
  BoardPage.columnOf (BoardPage.scopedIssues next) toStatus
  = BoardPage.normalizeOrders ((λ x, with_status x toStatus) <$> destPre)
  ∧ (fromStatus ≠ toStatus →
       BoardPage.columnOf (BoardPage.scopedIssues next) fromStatus
       = BoardPage.normalizeOrders srcRest)
  ∧ (∀ s, s ≠ toStatus → s ≠ fromStatus →
       BoardPage.columnOf (BoardPage.scopedIssues next) s
       = BoardPage.columnOf (BoardPage.scopedIssues issues) s).
Proof.
  assert (NoDup issues) as Hnd' by (by apply NoDup_fmap_1 in Hnd).
  apply NoDup_app in Hndc as Hparts. destruct Hparts as (Hnd1 & _ & Hnd2).
  apply NoDup_fmap_1 in Hnd1, Hnd2.
  split; [|split].
  - rewrite columnOf_scoped_filter, filter_fmap.
    apply sort_by_unique; [apply normalizeOrders_strictly|].
    assert (BoardPage.normalizeOrders ((λ x, with_status x toStatus) <$> destPre)
            = patched changes <$> destPre) as ->.
    { apply list_eq. intros k.
      rewrite list_lookup_fmap, normalizeOrders_lookup, list_lookup_fmap.
      destruct (destPre !! k) as [x|] eqn:Hx; [|done]. simpl.
      by rewrite (patched_board_dest k x Hx). }
    apply fmap_Permutation, NoDup_Permutation; [by apply NoDup_filter|done|].
      intros x. rewrite list_elem_of_filter. split.
      * intros [Hst Hx].
        destruct (patched_board_status x Hx)
          as [[? _]|[(_ & _ & ? & ?)|(_ & _ & Heq)]]; [done|congruence|].
        rewrite Heq in Hst. by apply Hto.
      * intros Hx. destruct (Hdest_in x Hx) as [Hin _]. split; [|done].
        destruct (patched_board_status x Hin) as [[_ ?]|[(? & _)|(? & _)]]; done.
  - intros Hne. rewrite columnOf_scoped_filter, filter_fmap.
    apply sort_by_unique; [apply normalizeOrders_strictly|].
    assert (BoardPage.normalizeOrders srcRest = patched changes <$> srcRest) as ->.
    { apply list_eq. intros k.
      rewrite list_lookup_fmap, normalizeOrders_lookup.
      destruct (srcRest !! k) as [x|] eqn:Hx; [|done]. simpl.
      by rewrite (patched_board_src k x Hx). }
    apply fmap_Permutation, NoDup_Permutation; [by apply NoDup_filter|done|].
      intros x. rewrite list_elem_of_filter. split.
      * intros [Hst Hx].
        destruct (patched_board_status x Hx)
          as [[_ ?]|[(_ & ? & _)|(Hd & Hs & Heq)]]; [congruence|done|].
        rewrite Heq in Hst. by destruct (Hfrom x Hx Hst).
      * intros Hx. destruct (Hsrc_in x Hx) as (Hin & _). split; [|done].
        destruct (patched_board_status x Hin)
          as [[Hd Hst]|[(_ & _ & ? & _)|(_ & ? & _)]]; [|done|done].
        exfalso. apply list_elem_of_lookup in Hx as [k Hk].
        apply list_elem_of_lookup in Hd as [k' Hk'].
        apply (proj1 (NoDup_app _ _) Hndc) with (id x);
          apply list_elem_of_fmap; exists x; split; try done;
          by eapply list_elem_of_lookup_2.
  - intros s Hs1 Hs2. rewrite !columnOf_scoped_filter, filter_fmap. f_equal.
    rewrite (filter_ext_elem _ (λ i, status i = s)).
    + apply fmap_id_elem. intros x [Hst Hx]%list_elem_of_filter.
      destruct (patched_board_status x Hx)
        as [[Hd _]|[(_ & Hsr & _)|(_ & _ & ?)]]; [| |done].
      * destruct (Hdest_in x Hd) as [_ [?|?]]; congruence.
      * destruct (Hsrc_in x Hsr) as (_ & ? & _). congruence.
    + intros x Hx.
      destruct (patched_board_status x Hx)
        as [[Hd Hst]|[(_ & Hsr & Hst & _)|(_ & _ & Heq)]].
      * destruct (Hdest_in x Hd) as [_ [?|?]]; split; congruence.
      * destruct (Hsrc_in x Hsr) as (_ & ? & _). split; congruence.
      * by rewrite Heq.
Qed.

End PatchedBoard.

Lemma scopedIssues_elem_1 (issues : list Issue) (x : Issue) :
  x ∈ BoardPage.scopedIssues issues → x ∈ issues.
Proof. apply scopedIssues_elem_of. Qed.

Lemma NoDup_ids_sub (l sub : list Issue) :
  NoDup (id <$> l) → NoDup sub → (∀ x, x ∈ sub → x ∈ l) → NoDup (id <$> sub).
Proof.
  intros Hnd Hsub Hin. apply NoDup_fmap_2_strong; [|done].
  intros x y Hx Hy. apply (NoDup_id_inj l); auto.
Qed.

Lemma reorder_renumbers (issues : list Issue) (st : IssueStatus) (i j : nat) :
  NoDup (id <$> issues) →
  let lst := BoardPage.columnOf (BoardPage.scopedIssues issues) st in
  renumbers issues (arrayMove lst i j) []
    (BoardPage.orderChange <$> BoardPage.normalizeOrders (arrayMove lst i j))
    st st.
Proof.
  intros Hnd lst.
  assert (∀ x, x ∈ arrayMove lst i j ↔ x ∈ issues ∧ status x = st) as Hin.
  { intros x. rewrite arrayMove_perm. subst lst.
    by rewrite columnOf_elem_of, scopedIssues_elem_of. }
  unfold renumbers. rewrite fmap_nil, app_nil_r.
  split; [apply orderChange_ids|]. split.
  { rewrite arrayMove_perm. apply columnOf_NoDup. by apply scopedIssues_NoDup. }
  split.
  { intros k x Hx. exists (order_patch ((Z.of_nat k + 1) * 1000)). split.
    - apply list_elem_of_lookup. exists k.
      by rewrite list_lookup_fmap, normalizeOrders_lookup, Hx.
    - apply list_elem_of_lookup_2, Hin in Hx as [_ <-].
      by rewrite with_status_same. }
  split; [intros k x Hx; by rewrite lookup_nil in Hx|].
  split; [intros x [? ?]%Hin; by auto|].
  split; [intros x Hx; by apply elem_of_nil in Hx|].
  split; intros x ? ?; [|left]; by apply Hin.
Qed.

Lemma moveAcross_renumbers (issues : list Issue) (active : Issue)
    (toStatus : IssueStatus) (overIssue : option Issue) :
  NoDup (id <$> issues) → active ∈ issues → status active ≠ toStatus →
  let scoped := BoardPage.scopedIssues issues in
  let toList := BoardPage.columnOf scoped toStatus in
  let fromWithout :=
    filter (λ x, id x ≠ id active) (BoardPage.columnOf scoped (status active)) in
  renumbers issues (splice_in (insertIndex toList overIssue) active toList)
    fromWithout (BoardPage.moveAcross scoped active toStatus overIssue)
    toStatus (status active).
Proof.
  intros Hnd Hact Hcross scoped toList fromWithout.
  assert (NoDup (id <$> scoped)) as Hnds by (by apply scopedIssues_NoDup).
  assert (active ∈ scoped) as Hacts by (by apply scopedIssues_elem_of).
  rewrite (moveAcross_unfold scoped active toStatus overIssue Hnds Hacts Hcross).
  fold toList. fold fromWithout.
  set (p := insertIndex toList overIssue).
  assert (∀ x, x ∈ toList ↔ x ∈ issues ∧ status x = toStatus) as HtoList.
  { intros x. subst toList scoped.
    by rewrite columnOf_elem_of, scopedIssues_elem_of. }
  assert (∀ x, x ∈ fromWithout
               ↔ x ∈ issues ∧ status x = status active ∧ x ≠ active) as Hfw.
  { intros x. subst fromWithout scoped.
    rewrite list_elem_of_filter, columnOf_elem_of, scopedIssues_elem_of.
    split.
    - intros (Hid & Hx & Hst). repeat split; [done|done|]. by intros ->.
    - intros (Hx & Hst & Hne). repeat split; [|done|done].
      intros Hid. apply Hne. by apply (NoDup_id_inj issues). }
  assert (splice_in p (with_status active toStatus) toList
          = (λ x, with_status x toStatus) <$> splice_in p active toList) as HD.
  { rewrite splice_in_fmap. f_equal. symmetry. apply fmap_id_elem.
    intros x [_ <-]%HtoList. apply with_status_same. }
  unfold renumbers. split.
  { rewrite fmap_app, statusOrderChange_ids, orderChange_ids, HD.
    f_equal. rewrite <- list_fmap_compose. by apply list_fmap_ext. }
  split.
  { rewrite <- fmap_app. apply (NoDup_ids_sub issues); [done| |].
    - rewrite splice_in_perm. apply NoDup_cons. split.
      + intros [[_ ?]%HtoList|(_ & _ & ?)%Hfw]%elem_of_app; done.
      + apply NoDup_app. repeat split.
        * subst toList. apply NoDup_fmap_1 with id, columnOf_NoDup, Hnds.
        * intros x [_ Hx]%HtoList (_ & Hx' & _)%Hfw. congruence.
        * subst fromWithout. apply NoDup_filter.
          apply NoDup_fmap_1 with id, columnOf_NoDup, Hnds.
    - intros x. rewrite splice_in_perm.
      intros [[->|[? _]%HtoList]%elem_of_cons|(? & _)%Hfw]%elem_of_app; done. }
  split.
  { intros k x Hx. exists (status_order_patch toStatus ((Z.of_nat k + 1) * 1000)).
    split; [|done]. apply elem_of_app. left.
    apply list_elem_of_lookup. exists k.
    by rewrite list_lookup_fmap, normalizeOrders_lookup, HD, list_lookup_fmap, Hx. }
  split.
  { intros k x Hx. apply elem_of_app. right.
    apply list_elem_of_lookup. exists k.
    by rewrite list_lookup_fmap, normalizeOrders_lookup, Hx. }
  split.
  { intros x [->|[? ?]%HtoList]%splice_in_elem_of; by auto. }
  split.
  { intros x (? & ? & ?)%Hfw. by auto. }
  split.
  { intros x Hx Hst. apply splice_in_elem_of. right. by apply HtoList. }
  intros x Hx Hst. destruct (decide (x = active)) as [->|Hne].
  - left. apply splice_in_elem_of. by left.
  - right. by apply Hfw.
Qed.

Lemma drop_changes_renumbers (issues : list Issue) (active : Issue)
    (toStatus : IssueStatus) (overIssue : option Issue)
    (changes : list IssueChange) :
  NoDup (id <$> issues) → active ∈ issues →
  drop_changes (BoardPage.scopedIssues issues) active toStatus overIssue changes →
  let scoped := BoardPage.scopedIssues issues in
  let toList := BoardPage.columnOf scoped toStatus in
  ∃ destPre srcRest,
    renumbers issues destPre srcRest changes toStatus (status active)
    ∧ ((status active = toStatus ∧ srcRest = []
        ∧ ∃ i j, toList !! i = Some active ∧ (j < length toList)%nat ∧ i ≠ j
                 ∧ destPre = arrayMove toList i j)
       ∨ (status active ≠ toStatus
          ∧ destPre = splice_in (insertIndex toList overIssue) active toList
          ∧ srcRest
            = filter (λ x, id x ≠ id active)
                (BoardPage.columnOf scoped (status active)))).
Proof.
  intros Hnd Hact [(Hsame & i & j & x & Hx & Hid & Hj & Hij & ->)|(Hcross & ->)];
    cbv zeta.
  - exists (arrayMove (BoardPage.columnOf (BoardPage.scopedIssues issues) toStatus)
              i j), [].
    split.
    + rewrite Hsame. by apply reorder_renumbers.
    + left. repeat split; [done|]. exists i, j. repeat split; try done.
      rewrite Hx. f_equal. apply (NoDup_id_inj issues); [done| |done|done].
      apply list_elem_of_lookup_2 in Hx.
      by apply columnOf_elem_of in Hx as [?%scopedIssues_elem_1 _].
  - eexists _, _. split; [by apply moveAcross_renumbers|]. right. by repeat split.
Qed.

Lemma onDragEnd_drop_changes (view : BoardPage.View) (issues : list Issue)
    (lastOver : option string) (aId : string) (overId : option string)
    (changes : list IssueChange) :
  BoardPage.onDragEnd view issues aId overId = Some changes
  ∨ BoardColumns.onDragEnd view issues lastOver aId overId = Some changes →
  ∃ oId active toStatus,
    oId ≠ ""
    ∧ (overId = Some oId ∨ (truthy overId = false ∧ lastOver = Some oId))
    ∧ find (λ x, id x = aId) (BoardPage.scopedIssues issues) = Some active
    ∧ active ∈ issues ∧ id active = aId
    ∧ BoardPage.dropStatus (BoardPage.scopedIssues issues) oId = Some toStatus
    ∧ BoardPage.canShowStatus view toStatus = true
    ∧ drop_changes (BoardPage.scopedIssues issues) active toStatus
        (find (λ x, id x = oId) (BoardPage.scopedIssues issues)) changes.
Proof.
  intros [H|H].
  - apply BoardPage_onDragEnd_inv in H
      as (oId & active & toStatus & ? & ? & Hf & ? & _ & ? & ?).
    exists oId, active, toStatus. apply find_Some in Hf as Hf'.
    destruct Hf' as [?%scopedIssues_elem_1 ?]. repeat split; auto.
  - apply BoardColumns_onDragEnd_inv in H
      as (oId & active & toStatus & ? & ? & Hf & ? & _ & ? & ?).
    exists oId, active, toStatus. apply find_Some in Hf as Hf'.
    destruct Hf' as [?%scopedIssues_elem_1 ?]. repeat split; auto.
Qed.

(** X3. With unique issue ids, a drag never addresses an issue twice: the
    ids of the emitted changes are pairwise distinct, each is the id of a
    loaded issue, and so the optimistic write applies every emitted patch
    (none is shadowed by a later one for the same id). *)
Theorem drag_changes_distinct (view : BoardPage.View) (issues : list Issue)
    (lastOver : option string) (aId : string) (overId : option string)
    (changes : list IssueChange) :
  NoDup (id <$> issues) →
  BoardPage.onDragEnd view issues aId overId = Some changes
  ∨ BoardColumns.onDragEnd view issues lastOver aId overId = Some changes →
  NoDup (change_id <$> changes)
  ∧ (∀ c, c ∈ changes → change_id c ∈ id <$> issues)
  ∧ (∀ c, c ∈ changes →
       lastPatchFor (change_id c) changes = Some (change_patch c))
  ∧ (∀ c it, c ∈ changes → it ∈ issues → id it = change_id c →
       patched changes it = spread it (change_patch c)).
Proof.
  intros Hnd H.
  apply onDragEnd_drop_changes in H
    as (oId & active & toStatus & _ & _ & _ & Hact & _ & _ & _ & Hch).
  destruct (drop_changes_renumbers issues active toStatus _ changes Hnd Hact Hch)
    as (destPre & srcRest & (Hids & Hndc & _ & _ & Hd & Hs & _) & _).
  assert (NoDup (change_id <$> changes)) as Hn by (by rewrite Hids).
  split; [done|]. split; [|split].
  - intros c Hc.
    assert (change_id c ∈ change_id <$> changes) as Hcid.
    { apply list_elem_of_fmap. by exists c. }
    rewrite Hids in Hcid.
    apply elem_of_app in Hcid
      as [(x & -> & Hx)%list_elem_of_fmap|(x & -> & Hx)%list_elem_of_fmap];
      apply list_elem_of_fmap; exists x; split; try done.
    + by apply Hd.
    + by apply Hs.
  - intros c Hc. by apply lastPatchFor_NoDup.
  - intros c it Hc Hit Hid. apply patched_at; [done|].
    rewrite Hid. by destruct c.
Qed.

Lemma drag_changes_distinct_witness :
  NoDup (change_id <$> [ mkChange "A" (status_order_patch in_progress 1000);
                         mkChange "C" (status_order_patch in_progress 2000);
                         mkChange "B" (order_patch 1000) ]).
Proof.
  refine (proj1 (drag_changes_distinct BoardPage.SprintView sprint_board None
                   "A" (Some "C") _ _ _)).
  - apply (bool_decide_unpack _). vm_compute. exact I.
  - left. vm_compute. reflexivity.
Defined.

Lemma BoardColumns_onDragEnd_over (view : BoardPage.View) (issues : list Issue)
    (lastOver : option string) (aId : string) (over : option string) :
  BoardColumns.onDragEnd view issues lastOver aId over
  = BoardColumns.onDragEnd view issues None aId
      (if truthy over then over else lastOver).
Proof.
  unfold BoardColumns.onDragEnd. cbv zeta.
  destruct (truthy over) eqn:Hover.
  - rewrite Hover. by destruct over.
  - destruct lastOver as [o|]; [|done].
    destruct (truthy (Some o)) eqn:Ho; cbv iota beta; simpl negb; cbv iota.
    + simpl in Ho. by rewrite Ho.
    + done.
Qed.

Lemma BoardPage_reorder_index (scoped : list Issue) (aId : string)
    (st : IssueStatus) (overIssue : option Issue) (changes : list IssueChange) :
  BoardPage.reorder scoped aId st overIssue = Some changes →
  let lst := BoardPage.columnOf scoped st in
  let oldIndex := findIndex (λ x, id x = aId) lst in
  let newIndex := pageNewIndex lst overIssue in
  0 ≤ oldIndex ∧ 0 ≤ newIndex < Z.of_nat (length lst) ∧ oldIndex ≠ newIndex
  ∧ changes
    = BoardPage.orderChange
        <$> BoardPage.normalizeOrders
              (arrayMove lst (Z.to_nat oldIndex) (Z.to_nat newIndex)).
Proof.
  unfold BoardPage.reorder, pageNewIndex. destruct overIssue as [ov|]; [|done].
  set (lst := BoardPage.columnOf scoped st).
  set (P := λ x : Issue, id x = aId). set (Q := λ x : Issue, id x = id ov).
  cbv zeta.
  destruct (Z.ltb_spec (findIndex P lst) 0) as [|Hold]; [done|].
  destruct (Z.ltb_spec (findIndex Q lst) 0) as [|Hnew]; [done|].
  destruct (Z.eqb_spec (findIndex P lst) (findIndex Q lst)) as [|Hne]; [done|].
  simpl. intros [= <-].
  pose proof (findIndex_bounds Q lst) as [?|[? ?]]; [|lia].
  repeat split; try done; lia.
Qed.

Lemma BoardColumns_reorder_index (scoped : list Issue) (aId : string)
    (st : IssueStatus) (overIssue : option Issue) (changes : list IssueChange) :
  BoardColumns.reorder scoped aId st overIssue = Some changes →
  let lst := BoardPage.columnOf scoped st in
  let oldIndex := findIndex (λ x, id x = aId) lst in
  let newIndex := columnsNewIndex lst overIssue in
  0 ≤ oldIndex ∧ 0 ≤ newIndex < Z.of_nat (length lst) ∧ oldIndex ≠ newIndex
  ∧ changes
    = BoardPage.orderChange
        <$> BoardPage.normalizeOrders
              (arrayMove lst (Z.to_nat oldIndex) (Z.to_nat newIndex)).
Proof.
  unfold BoardColumns.reorder. fold (columnsNewIndex (BoardPage.columnOf scoped st) overIssue).
  set (lst := BoardPage.columnOf scoped st).
  set (P := λ x : Issue, id x = aId).
  set (newIndex := columnsNewIndex lst overIssue).
  cbv zeta.
  destruct (Z.ltb_spec (findIndex P lst) 0) as [|Hold]; [done|].
  destruct (Z.ltb_spec newIndex 0) as [|Hnew]; [done|].
  destruct (Z.eqb_spec (findIndex P lst) newIndex) as [|Hne]; [done|].
  simpl. intros [= <-].
  assert (newIndex < Z.of_nat (length lst)).
  { subst newIndex. unfold columnsNewIndex. destruct overIssue as [ov|]; [|lia].
    pose proof (findIndex_bounds (λ x, id x = id ov) lst) as [?|[? ?]]; lia. }
  repeat split; try done; lia.
Qed.

Lemma BoardPage_onDragEnd_at (view : BoardPage.View) (issues : list Issue)
    (aId : string) (overId : option string) (changes : list IssueChange) :
  BoardPage.onDragEnd view issues aId overId = Some changes →
  let scoped := BoardPage.scopedIssues issues in
  ∃ oId active toStatus,
    overId = Some oId
    ∧ find (λ x, id x = aId) scoped = Some active
    ∧ BoardPage.dropStatus scoped oId = Some toStatus
    ∧ BoardPage.canShowStatus view toStatus = true
    ∧ drop_changes_at scoped active toStatus (find (λ x, id x = oId) scoped)
        (pageNewIndex (BoardPage.columnOf scoped toStatus)
           (find (λ x, id x = oId) scoped))
        changes.
Proof.
  unfold BoardPage.onDragEnd. cbv zeta.
  destruct overId as [oId|]; [|done]. simpl truthy.
  destruct (bool_decide_reflect (oId = "")) as [|HoId]; [done|]. simpl negb.
  destruct (find (λ x, id x = aId) (BoardPage.scopedIssues issues))
    as [active|] eqn:Hfind; [|done].
  destruct (BoardPage.dropStatus (BoardPage.scopedIssues issues) oId)
    as [toStatus|] eqn:Hdrop; [|done].
  unfold truthy. case_bool_decide as Hto; simpl negb; cbv iota; [done|].
  destruct (BoardPage.canShowStatus view toStatus) eqn:Hshow; [|done]. simpl negb.
  intros H. exists oId, active, toStatus. do 4 (split; [done|]).
  apply find_Some in Hfind as Hact. destruct Hact as [_ Hid]. simpl in Hid.
  unfold drop_changes_at. rewrite Hid.
  destruct (bool_decide_reflect (status active = toStatus)) as [Heq|Hne].
  - left. split; [done|]. rewrite Heq in H.
    by apply BoardPage_reorder_index in H.
  - right. split; [done|]. by injection H.
Qed.

Lemma BoardColumns_onDragEnd_at (view : BoardPage.View) (issues : list Issue)
    (lastOver : option string) (aId : string) (overId : option string)
    (changes : list IssueChange) :
  BoardColumns.onDragEnd view issues lastOver aId overId = Some changes →
  let scoped := BoardPage.scopedIssues issues in
  ∃ oId active toStatus,
    (if truthy overId then overId else lastOver) = Some oId
    ∧ find (λ x, id x = aId) scoped = Some active
    ∧ BoardPage.dropStatus scoped oId = Some toStatus
    ∧ BoardPage.canShowStatus view toStatus = true
    ∧ drop_changes_at scoped active toStatus (find (λ x, id x = oId) scoped)
        (columnsNewIndex (BoardPage.columnOf scoped toStatus)
           (find (λ x, id x = oId) scoped))
        changes.
Proof.
  rewrite BoardColumns_onDragEnd_over.
  destruct (if truthy overId then overId else lastOver) as [oId|] eqn:Hover;
    [|done].
  unfold BoardColumns.onDragEnd, BoardColumns.canShowStatus. cbv zeta.
  simpl truthy.
  destruct (bool_decide_reflect (oId = "")) as [|HoId]; [done|].
  cbv iota. simpl truthy. rewrite (bool_decide_false _ HoId). simpl negb.
  cbv iota.
  destruct (find (λ x, id x = aId) (BoardPage.scopedIssues issues))
    as [active|] eqn:Hfind; [|done].
  destruct (BoardPage.dropStatus (BoardPage.scopedIssues issues) oId)
    as [toStatus|] eqn:Hdrop; [|done].
  unfold truthy. case_bool_decide as Hto; simpl negb; cbv iota; [done|].
  destruct (BoardPage.canShowStatus view toStatus) eqn:Hshow; [|done]. simpl negb.
  intros H. exists oId, active, toStatus. do 4 (split; [done|]).
  apply find_Some in Hfind as Hact. destruct Hact as [_ Hid]. simpl in Hid.
  unfold drop_changes_at. rewrite Hid.
  destruct (bool_decide_reflect (status active = toStatus)) as [Heq|Hne].
  - left. split; [done|]. rewrite Heq in H.
    by apply BoardColumns_reorder_index in H.
  - right. split; [done|]. by injection H.
Qed.

Lemma patched_ids (changes : list IssueChange) (issues : list Issue) :
  Forall (λ c, p_id (change_patch c) = None) changes →
  id <$> (patched changes <$> issues) = id <$> issues.
Proof.
  intros Hall. rewrite <- list_fmap_compose. apply list_fmap_ext.
  intros n x _. simpl. unfold patched.
  destruct (lastPatchFor (id x) changes) as [p|] eqn:Hp; [|done].
  unfold lastPatchFor in Hp.
  destruct (last (filter (λ c, change_id c = id x) changes)) as [c|] eqn:Hl;
    [|done].
  injection Hp as <-.
  apply last_Some_elem_of in Hl. apply list_elem_of_filter in Hl as [_ Hc].
  pose proof (proj1 (Forall_forall _ _) Hall c Hc) as Hpid.
  unfold spread. by rewrite Hpid.
Qed.

Lemma drop_changes_at_ids (scoped : list Issue) (active : Issue)
    (toStatus : IssueStatus) (overIssue : option Issue) (newIndex : Z)
    (changes : list IssueChange) :
  drop_changes_at scoped active toStatus overIssue newIndex changes →
  Forall (λ c, p_id (change_patch c) = None) changes.
Proof.
  intros [(_ & _ & _ & _ & ->)|(_ & ->)].
  - apply Forall_forall. by intros c (y & -> & _)%list_elem_of_fmap.
  - destruct (moveAcross_shape scoped active toStatus overIssue)
      as (dest & -> & _).
    apply Forall_app. split; apply Forall_forall;
      by intros c (y & -> & _)%list_elem_of_fmap.
Qed.

Lemma board_after_drop_at (issues : list Issue) (aId : string) (active : Issue)
    (toStatus : IssueStatus) (overIssue : option Issue) (newIndex : Z)
    (changes : list IssueChange) :
  NoDup (id <$> issues) →
  let scoped := BoardPage.scopedIssues issues in
  let after := BoardPage.scopedIssues (patched changes <$> issues) in
  let toList := BoardPage.columnOf scoped toStatus in
  let oldIndex := findIndex (λ x, id x = aId) toList in
  find (λ x, id x = aId) scoped = Some active →
  drop_changes_at scoped active toStatus overIssue newIndex changes →
  (status active = toStatus →
     0 ≤ oldIndex ∧ 0 ≤ newIndex < Z.of_nat (length toList)
     ∧ oldIndex ≠ newIndex
     ∧ toList !! Z.to_nat oldIndex = Some active
     ∧ BoardPage.columnOf after toStatus
       = BoardPage.normalizeOrders
           (arrayMove toList (Z.to_nat oldIndex) (Z.to_nat newIndex)))
  ∧ (status active ≠ toStatus →
       BoardPage.columnOf after toStatus
       = BoardPage.normalizeOrders
           (splice_in (insertIndex toList overIssue)
              (with_status active toStatus) toList)
       ∧ BoardPage.columnOf after (status active)
         = BoardPage.normalizeOrders
             (filter (λ x, id x ≠ aId)
                (BoardPage.columnOf scoped (status active))))
  ∧ (∀ s, s ≠ toStatus → s ≠ status active →
       BoardPage.columnOf after s = BoardPage.columnOf scoped s).
Proof.
  intros Hnd scoped after toList oldIndex Hfind Hch.
  apply find_Some in Hfind as Hact. destruct Hact as [Hact Hid]. simpl in Hid.
  assert (active ∈ issues) as Hin by (by apply scopedIssues_elem_1).
  unfold drop_changes_at in Hch. rewrite Hid in Hch. fold toList oldIndex in Hch.
  destruct Hch as [(Hsame & Hold & Hnew & Hne & ->)|(Hcross & ->)].
  - pose proof (reorder_renumbers issues toStatus (Z.to_nat oldIndex)
                  (Z.to_nat newIndex) Hnd) as Hren.
    cbv zeta in Hren. fold scoped toList in Hren.
    destruct Hren as (Hids & Hndc & Hd & Hs & Hdi & Hsi & Hto & Hfrom).
    destruct (patched_board_columns issues _ [] _ toStatus toStatus
                Hnd Hids Hndc Hd Hs Hdi Hsi Hto Hfrom)
      as (Hcol1 & _ & Hcol3).
    fold after in Hcol1, Hcol3.
    split; [|split].
    + intros _. do 3 (split; [done|]). split.
      * destruct (findIndex_Some (λ x, id x = aId) toList (Z.to_nat oldIndex))
          as (x & Hx & Hidx & _); [subst oldIndex; lia|].
        rewrite Hx. f_equal. apply (NoDup_id_inj issues); [done| |done|congruence].
        apply list_elem_of_lookup_2 in Hx.
        by apply columnOf_elem_of in Hx as [?%scopedIssues_elem_1 _].
      * rewrite Hcol1. f_equal. apply fmap_id_elem. intros x Hx.
        destruct (Hdi x Hx) as [_ [Hst|Hst]]; rewrite <- Hst;
          apply with_status_same.
    + intros Hcross. done.
    + intros s Hs1 Hs2. by apply Hcol3.
  - pose proof (moveAcross_renumbers issues active toStatus overIssue Hnd Hin
                  Hcross) as Hren.
    cbv zeta in Hren. fold scoped toList in Hren.
    destruct Hren as (Hids & Hndc & Hd & Hs & Hdi & Hsi & Hto & Hfrom).
    destruct (patched_board_columns issues _ _ _ toStatus (status active)
                Hnd Hids Hndc Hd Hs Hdi Hsi Hto Hfrom)
      as (Hcol1 & Hcol2 & Hcol3).
    fold after in Hcol1, Hcol2, Hcol3.
    split; [done|]. split; [|done]. intros _.
    rewrite Hcol1, Hcol2, <- Hid by done. split; [|done]. f_equal.
    rewrite splice_in_fmap. f_equal. apply fmap_id_elem. intros x Hx.
    apply columnOf_elem_of in Hx as [_ <-]. apply with_status_same.
Qed.

(** X4. The board after a drop. Let a handler emit changes, with [oId] the
    droppable the drag was completed over: the one under the pointer or, in
    [BoardColumns] when there is none, the one hovered last. Once the
    optimistic write has merged the changes into the cached list, the
    destination column, the one [oId] stands for, holds the intended
    sequence with orders 1000, 2000, ...: for a drop in the card's own
    column, the column with the card moved from its index to the index of
    the issue with the id [oId] (in [BoardColumns] to the last index when no
    issue has that id); for a move, the column with the card inserted at the
    index of the issue with the id [oId], at the end when no issue has that
    id. The source column of a move holds its remaining cards renumbered;
    every other column and the ids of the list are unchanged. *)
Theorem board_after_drop (k : JiraQueries.QueryKey) (qc : JiraQueries.QueryCache)
    (view : BoardPage.View) (issues : list Issue) (lastOver : option string)
    (aId : string) (overId : option string) :
  NoDup (id <$> issues) →
  JiraQueries.cachedList qc k = issues →
  let scoped := BoardPage.scopedIssues issues in
  let dropped (over : option string) (newIndex : list Issue → option Issue → Z)
      (changes : list IssueChange) : Prop :=
    let next :=
      JiraQueries.cachedList (useBatchPatchIssues.onMutate k qc changes).1 k in
    let after := BoardPage.scopedIssues next in
    ∃ oId active toStatus,
      over = Some oId
      ∧ find (λ x, id x = aId) scoped = Some active
      ∧ BoardPage.dropStatus scoped oId = Some toStatus
      ∧ BoardPage.canShowStatus view toStatus = true
      ∧ (let toList := BoardPage.columnOf scoped toStatus in
         let overIssue := find (λ x, id x = oId) scoped in
         let i := findIndex (λ x, id x = aId) toList in
         let j := newIndex toList overIssue in
         (status active = toStatus →
            0 ≤ i ∧ 0 ≤ j < Z.of_nat (length toList) ∧ i ≠ j
            ∧ toList !! Z.to_nat i = Some active
            ∧ BoardPage.columnOf after toStatus
              = BoardPage.normalizeOrders
                  (arrayMove toList (Z.to_nat i) (Z.to_nat j)))
         ∧ (status active ≠ toStatus →
              BoardPage.columnOf after toStatus
              = BoardPage.normalizeOrders
                  (splice_in (insertIndex toList overIssue)
                     (with_status active toStatus) toList)
              ∧ BoardPage.columnOf after (status active)
                = BoardPage.normalizeOrders
                    (filter (λ x, id x ≠ aId)
                       (BoardPage.columnOf scoped (status active)))))
      ∧ (∀ s, s ≠ toStatus → s ≠ status active →
           BoardPage.columnOf after s = BoardPage.columnOf scoped s)
      ∧ id <$> next = id <$> issues in
  (∀ changes, BoardPage.onDragEnd view issues aId overId = Some changes →
     dropped overId pageNewIndex changes)
  ∧ (∀ changes,
       BoardColumns.onDragEnd view issues lastOver aId overId = Some changes →
       dropped (if truthy overId then overId else lastOver) columnsNewIndex
         changes).
Proof.
  intros Hnd Hqc scoped dropped. subst dropped. cbv beta zeta.
  split; intros changes H.
  - apply BoardPage_onDragEnd_at in H
      as (oId & active & toStatus & Hover & Hfind & Hdrop & Hshow & Hch).
    fold scoped in Hfind, Hdrop, Hch.
    rewrite batch_onMutate_patched, Hqc.
    destruct (board_after_drop_at issues aId active toStatus _ _ changes Hnd
                Hfind Hch) as (H1 & H2 & H3).
    exists oId, active, toStatus. do 4 (split; [done|]).
    split; [by split|]. split; [done|].
    apply patched_ids. by eapply drop_changes_at_ids.
  - apply BoardColumns_onDragEnd_at in H
      as (oId & active & toStatus & Hover & Hfind & Hdrop & Hshow & Hch).
    fold scoped in Hfind, Hdrop, Hch.
    rewrite batch_onMutate_patched, Hqc.
    destruct (board_after_drop_at issues aId active toStatus _ _ changes Hnd
                Hfind Hch) as (H1 & H2 & H3).
    exists oId, active, toStatus. do 4 (split; [done|]).
    split; [by split|]. split; [done|].
    apply patched_ids. by eapply drop_changes_at_ids.
Qed.

Lemma board_after_drop_witness :
  let k : JiraQueries.QueryKey := ("demo", None) in
  let qc : JiraQueries.QueryCache := {[ k := backlog_board ]} in
  let changes := [ mkChange "C" (order_patch 1000);
                   mkChange "A" (order_patch 2000);
                   mkChange "B" (order_patch 3000) ] in
  let after :=
    BoardPage.scopedIssues
      (JiraQueries.cachedList (useBatchPatchIssues.onMutate k qc changes).1 k) in
  BoardPage.onDragEnd BoardPage.BacklogView backlog_board "C" (Some "A")
  = Some changes
  ∧ BoardPage.columnOf after backlog
    = BoardPage.normalizeOrders
        (arrayMove (BoardPage.columnOf (BoardPage.scopedIssues backlog_board)
                      backlog) 2 0).
Proof.
  intros k qc changes after.
  assert (BoardPage.onDragEnd BoardPage.BacklogView backlog_board "C" (Some "A")
          = Some changes) as Hend by (vm_compute; reflexivity).
  split; [exact Hend|].
  destruct (board_after_drop k qc BoardPage.BacklogView backlog_board None "C"
              (Some "A")) as [H _].
  - apply (bool_decide_unpack _). vm_compute. exact I.
  - vm_compute. reflexivity.
  - destruct (H changes Hend)
      as (oId & active & toStatus & Hover & Hfind & Hdrop & _ & [Hsame _] & _).
    injection Hover as <-.
    assert (active = sample_issue "C" None backlog 3000) as ->.
    { vm_compute in Hfind. by injection Hfind. }
    assert (toStatus = backlog) as ->.
    { vm_compute in Hdrop. by injection Hdrop. }
    destruct (Hsame eq_refl) as (_ & _ & _ & _ & Hcol).
    exact Hcol.
Defined.

(** ** Drops that change nothing, and the release outside the board *)

Lemma BoardPage_reorder_self (scoped : list Issue) (aId : string)
    (st : IssueStatus) (ov : Issue) :
  id ov = aId → BoardPage.reorder scoped aId st (Some ov) = None.
Proof.
  intros <-. unfold BoardPage.reorder. cbv zeta.
  by rewrite Z.eqb_refl, !orb_true_r.
Qed.

Lemma BoardColumns_reorder_self (scoped : list Issue) (aId : string)
    (st : IssueStatus) (ov : Issue) :
  id ov = aId → BoardColumns.reorder scoped aId st (Some ov) = None.
Proof.
  intros <-. unfold BoardColumns.reorder. cbv zeta.
  rewrite Z.eqb_refl, !orb_true_r. by destruct (_ <? 0).
Qed.

Lemma dropStatus_issue (scoped : list Issue) (oId : string) :
  BoardPage.parseDropStatus (Some oId) = None →
  BoardPage.dropStatus scoped oId = status <$> find (λ x, id x = oId) scoped.
Proof. intros Hp. unfold BoardPage.dropStatus. by rewrite Hp. Qed.

(** X5. A card released over itself is left where it is: neither handler
    emits a patch, whatever the view and the board. The same holds in
    [BoardColumns] for a drag that is released outside every droppable
    before the pointer has been over one. *)
Theorem drop_on_itself (view : BoardPage.View) (issues : list Issue)
    (lastOver : option string) (aId : string) :
  aId ≠ "" →
  String.prefix "status:" aId = false →
  BoardPage.onDragEnd view issues aId (Some aId) = None
  ∧ BoardColumns.onDragEnd view issues lastOver aId (Some aId) = None
  ∧ ∀ overs s, Forall (λ o, truthy o = false) overs →
      (Columns.gesture view issues aId overs None s).2 = None.
Proof.
  intros Hne Hprefix.
  assert (BoardPage.parseDropStatus (Some aId) = None) as Hp.
  { unfold BoardPage.parseDropStatus. rewrite Hprefix.
    by destruct (bool_decide (aId = "")). }
  assert (truthy (Some aId) = true) as Ht by (by apply truthy_Some).
  assert (BoardColumns.onDragEnd view issues None aId (Some aId) = None) as Hcol.
  { unfold BoardColumns.onDragEnd, BoardColumns.canShowStatus. cbv zeta.
    rewrite Ht. cbv iota. rewrite Ht. cbn [negb].
    destruct (find (λ x, id x = aId) (BoardPage.scopedIssues issues))
      as [active|] eqn:Hfind; [|done].
    rewrite (dropStatus_issue _ _ Hp), Hfind. cbn [fmap option_fmap option_map].
    destruct (truthy (Some (status active))); [|done]. cbn [negb].
    destruct (BoardPage.canShowStatus view (status active)); [|done].
    cbn [negb].
    rewrite bool_decide_true by done.
    apply BoardColumns_reorder_self. by apply find_Some in Hfind as [_ ?]. }
  split; [|split].
  - unfold BoardPage.onDragEnd. cbv zeta. rewrite Ht. cbn [negb].
    destruct (find (λ x, id x = aId) (BoardPage.scopedIssues issues))
      as [active|] eqn:Hfind; [|done].
    rewrite (dropStatus_issue _ _ Hp), Hfind. cbn [fmap option_fmap option_map].
    destruct (truthy (Some (status active))); [|done]. cbn [negb].
    destruct (BoardPage.canShowStatus view (status active)); [|done].
    cbn [negb].
    rewrite bool_decide_true by done.
    apply BoardPage_reorder_self. by apply find_Some in Hfind as [_ ?].
  - by rewrite BoardColumns_onDragEnd_over, Ht.
  - intros overs s Hovers. unfold Columns.gesture, Columns.onDragEnd. simpl.
    assert (Columns.lastOverIdRef
              (foldl (λ s o, Columns.onDragOver o s)
                 (Columns.onDragStart aId s) overs) = Some aId) as ->.
    { induction overs as [|o overs IH] using rev_ind; [done|].
      apply Forall_app in Hovers as [Hovers Ho].
      apply Forall_inv in Ho.
      rewrite foldl_app. simpl. unfold Columns.onDragOver at 1. rewrite Ho.
      by apply IH. }
    by rewrite BoardColumns_onDragEnd_over.
Qed.

Lemma drop_on_itself_witness :
  BoardPage.onDragEnd BoardPage.SprintView sprint_board "A" (Some "A") = None.
Proof.
  refine (proj1 (drop_on_itself BoardPage.SprintView sprint_board None "A" _ _));
    [done|reflexivity].
Defined.

Lemma lastOverIdRef_hovered (aId : string) (overs : list (option string))
    (s : Columns.DragState) :
  Columns.lastOverIdRef
    (foldl (λ s o, Columns.onDragOver o s) (Columns.onDragStart aId s) overs)
  = default (Some aId) (last (filter (λ o, truthy o = true) overs)).
Proof.
  induction overs as [|o overs IH] using rev_ind; [done|].
  rewrite foldl_app, filter_app, filter_cons, filter_nil. simpl.
  unfold Columns.onDragOver at 1.
  destruct (truthy o) eqn:Ho.
  - rewrite decide_True by done. by rewrite last_snoc.
  - rewrite decide_False by done. by rewrite app_nil_r.
Qed.

(** X6. The release outside the board. In [BoardColumns] a drag that is
    released over no droppable is completed as if it had been released over
    the droppable the pointer was over last, and over the dragged card
    itself if there was none; a release over a droppable ignores what was
    hovered before. The handler of [BoardPage] has no such fallback and
    emits nothing. Ending or cancelling a drag clears the active card, and
    cancelling also forgets the hovered droppable. *)
Theorem release_outside_board (view : BoardPage.View) (issues : list Issue)
    (aId : string) (overs : list (option string)) (s : Columns.DragState) :
  let hovered := filter (λ o, truthy o = true) overs in
  let dragging :=
    foldl (λ s o, Columns.onDragOver o s) (Columns.onDragStart aId s) overs in
  Columns.lastOverIdRef dragging = default (Some aId) (last hovered)
  ∧ (Columns.gesture view issues aId overs None s).2
    = BoardColumns.onDragEnd view issues None aId
        (default (Some aId) (last hovered))
  ∧ (∀ over, truthy over = true →
       (Columns.gesture view issues aId overs over s).2
       = BoardColumns.onDragEnd view issues None aId over)
  ∧ BoardPage.onDragEnd view issues aId None = None
  ∧ (∀ over, Columns.activeId (Columns.gesture view issues aId overs over s).1
             = None)
  ∧ Columns.onDragCancel dragging = Columns.idle.
Proof.
  intros hovered dragging.
  pose proof (lastOverIdRef_hovered aId overs s) as Hlast.
  fold hovered in Hlast. fold dragging in Hlast.
  split; [done|]. split; [|split; [|by repeat split]].
  - unfold Columns.gesture, Columns.onDragEnd. simpl. fold dragging.
    by rewrite BoardColumns_onDragEnd_over, Hlast.
  - intros over Hover. unfold Columns.gesture, Columns.onDragEnd. simpl.
    by rewrite BoardColumns_onDragEnd_over, Hover.
Qed.

(** ** A drop on the background of another column *)

(** X7. A card dropped on the background of a column on screen, other than
    its own, becomes the last card of that column: both handlers emit the
    destination column followed by the card and renumbered, with the new
    status, and then the source column without the card and renumbered. *)
Theorem drop_on_column_appends (view : BoardPage.View) (issues : list Issue)
    (lastOver : option string) (aId : string) (active : Issue)
    (s : IssueStatus) :
  NoDup (id <$> issues) →
  find (λ x, id x = aId) (BoardPage.scopedIssues issues) = Some active →
  s ∈ Columns.rendered view →
  status active ≠ s →
  Columns.droppableId s ∉ id <$> issues →
  let scoped := BoardPage.scopedIssues issues in
  let expected :=
    (BoardPage.statusOrderChange
       <$> BoardPage.normalizeOrders
             (BoardPage.columnOf scoped s ++ [with_status active s]))
    ++ (BoardPage.orderChange
          <$> BoardPage.normalizeOrders
                (filter (λ x, id x ≠ aId)
                   (BoardPage.columnOf scoped (status active)))) in
  BoardPage.onDragEnd view issues aId (Some (Columns.droppableId s))
  = Some expected
  ∧ BoardColumns.onDragEnd view issues lastOver aId
      (Some (Columns.droppableId s))
    = Some expected.
Proof.
  intros Hnd Hfind [Hs Hshow]%rendered_elem_of Hcross Hfresh scoped expected.
  apply STATUSES_nonempty in Hs.
  assert (Columns.droppableId s ≠ "") as Hcol by done.
  pose proof (dropStatus_column scoped s Hs) as Hdrop.
  assert (find (λ x, id x = Columns.droppableId s) scoped = None) as Hover.
  { apply find_None, Forall_forall. intros x Hx Hid. apply Hfresh.
    apply list_elem_of_fmap. exists x. split; [done|].
    by apply scopedIssues_elem_1. }
  assert (NoDup (id <$> scoped)) as Hnds by (by apply scopedIssues_NoDup).
  apply find_Some in Hfind as Hact. destruct Hact as [Hact Hid].
  assert (BoardPage.moveAcross scoped active s None = expected) as Hmove.
  { rewrite (moveAcross_unfold scoped active s None Hnds Hact Hcross).
    unfold insertIndex. by rewrite splice_in_end, Hid. }
  rewrite (BoardPage_onDragEnd_resolved view issues aId _ active s Hcol Hs
             Hfind Hdrop Hshow).
  rewrite (BoardColumns_onDragEnd_resolved view issues aId _ active s Hcol Hs
             Hfind Hdrop Hshow).
  rewrite bool_decide_false by done. fold scoped. by rewrite Hover, Hmove.
Qed.

Lemma drop_on_column_appends_witness :
  BoardPage.onDragEnd BoardPage.SprintView sprint_board "A"
    (Some (Columns.droppableId in_progress))
  = Some [ mkChange "C" (status_order_patch in_progress 1000);
           mkChange "A" (status_order_patch in_progress 2000);
           mkChange "B" (order_patch 1000) ].
Proof.
  refine (proj1 (drop_on_column_appends BoardPage.SprintView sprint_board None
                   "A" (sample_issue "A" (Some "s1") todo 1000) in_progress
                   _ _ _ _ _)).
  - apply (bool_decide_unpack _). vm_compute. exact I.
  - vm_compute. reflexivity.
  - apply (bool_decide_unpack _). vm_compute. exact I.
  - done.
  - apply (bool_decide_unpack _). vm_compute. exact I.
Defined.

(** ** The lists the columns display *)

Lemma pushByStatus_foldl_None (l : list Issue) :
  foldl Columns.pushByStatus None l = None.
Proof. by induction l. Qed.

Lemma pushByStatus_foldl (l : list Issue) (m : gmap string (list Issue)) :
  (Forall (λ it, is_Some (m !! status it)) l →
   ∃ m', foldl Columns.pushByStatus (Some m) l = Some m'
         ∧ ∀ s, m' !! s
                = (λ v, v ++ filter (λ it, status it = s) l) <$> m !! s)
  ∧ (¬ Forall (λ it, is_Some (m !! status it)) l →
     foldl Columns.pushByStatus (Some m) l = None).
Proof.
  revert m. induction l as [|x l IH]; intros m.
  { split; [|intros []; constructor].
    intros _. exists m. split; [done|]. intros s.
    destruct (m !! s); simpl; [|done]. by rewrite app_nil_r. }
  simpl. destruct (m !! status x) as [v|] eqn:Hx.
  - assert (∀ it, is_Some (<[status x := v ++ [x]]> m !! status it)
                  ↔ is_Some (m !! status it)) as Hdom.
    { intros it. destruct (decide (status x = status it)) as [<-|Hne].
      - rewrite lookup_insert_eq, Hx. split; by eauto.
      - by rewrite lookup_insert_ne. }
    destruct (IH (<[status x := v ++ [x]]> m)) as [IH1 IH2]. split.
    + intros [_ Hl]%Forall_cons.
      destruct IH1 as (m' & Hm' & Hlook).
      { eapply Forall_impl; [exact Hl|]. intros it. apply Hdom. }
      exists m'. split; [done|]. intros s. rewrite Hlook, filter_cons.
      destruct (decide (status x = s)) as [<-|Hne].
      * rewrite lookup_insert_eq, Hx. simpl. by rewrite <- app_assoc.
      * by rewrite lookup_insert_ne.
    + intros Hl. apply IH2. intros Hl'. apply Hl. constructor; [by eauto|].
      eapply Forall_impl; [exact Hl'|]. intros it. apply Hdom.
  - split.
    + intros [[? ?] _]%Forall_cons. congruence.
    + intros _. apply pushByStatus_foldl_None.
Qed.

(** X8. The list a column displays is the list the drag handler works on:
    for each of the four statuses, [issuesByStatus] holds exactly the column
    that [onDragEnd] computes for it, so an index on screen is the index the
    handler uses. Building the lists fails as soon as one loaded issue has a
    status outside the four. *)
Theorem issuesByStatus_columns (scoped : list Issue) :
  (Forall (λ it, status it ∈ Columns.STATUSES) scoped →
   ∃ m, Columns.issuesByStatus scoped = Some m
        ∧ (∀ s, s ∈ Columns.STATUSES → m !! s = Some (BoardPage.columnOf scoped s))
        ∧ (∀ s, s ∉ Columns.STATUSES → m !! s = None))
  ∧ (¬ Forall (λ it, status it ∈ Columns.STATUSES) scoped →
     Columns.issuesByStatus scoped = None).
Proof.
  set (base := ({[ backlog := []; todo := []; in_progress := []; done := [] ]}
                : gmap string (list Issue))).
  assert (∀ s, (s ∈ Columns.STATUSES → base !! s = Some [])
               ∧ (s ∉ Columns.STATUSES → base !! s = None)) as Hbase.
  { intros s. unfold Columns.STATUSES.
    rewrite !not_elem_of_cons, !elem_of_cons, elem_of_nil. subst base. split.
    - intros [->|[->|[->|[->|[]]]]]; by vm_compute.
    - intros (? & ? & ? & ? & _).
      by rewrite !lookup_insert_ne, lookup_singleton_ne by done. }
  assert (∀ it : Issue, is_Some (base !! status it)
                        ↔ status it ∈ Columns.STATUSES) as Hdom.
  { intros it. destruct (decide (status it ∈ Columns.STATUSES)) as [Hin|Hout].
    - rewrite (proj1 (Hbase _) Hin). split; by eauto.
    - rewrite (proj2 (Hbase _) Hout). split; [by intros [? ?]|done]. }
  destruct (pushByStatus_foldl scoped base) as [H1 H2].
  unfold Columns.issuesByStatus. fold base. split.
  - intros Hall. destruct H1 as (m' & -> & Hlook).
    { eapply Forall_impl; [exact Hall|]. intros it. apply Hdom. }
    eexists. split; [done|]. split.
    + intros s Hs. rewrite lookup_fmap, Hlook, (proj1 (Hbase s) Hs). done.
    + intros s Hs. by rewrite lookup_fmap, Hlook, (proj2 (Hbase s) Hs).
  - intros Hnot. rewrite H2; [done|]. intros Hall. apply Hnot.
    eapply Forall_impl; [exact Hall|]. intros it. apply Hdom.
Qed.

(** ** The optimistic cache: rollback, single patch, move *)

(** X9. Rollback. For each of the three mutations that keep the previous
    list as their context (batch patch, single patch, sprint move), the
    error handler puts back exactly the list that was cached before the
    optimistic write; if the key was cached, the whole cache is as before;
    the lists of other keys are never touched. *)
Theorem optimistic_rollback (k : JiraQueries.QueryKey)
    (qc : JiraQueries.QueryCache) (changes : list IssueChange) (i : string)
    (p : IssuePatch) (toSprintId : option string) :
  let before := JiraQueries.cachedList qc k in
  let batch := useBatchPatchIssues.onMutate k qc changes in
  let single := usePatchIssue.onMutate k qc i p in
  let move := useMoveIssue.onMutate k qc i toSprintId in
  let batch' := useBatchPatchIssues.onError k batch.1 (Some batch.2) in
  let single' := usePatchIssue.onError k single.1 (Some single.2) in
  let move' := useMoveIssue.onError k move.1 (Some move.2) in
  (JiraQueries.cachedList batch' k = before
   ∧ JiraQueries.cachedList single' k = before
   ∧ JiraQueries.cachedList move' k = before)
  ∧ (JiraQueries.getQueryData qc k = Some before →
       batch' = qc ∧ single' = qc ∧ move' = qc)
  ∧ (∀ k', k ≠ k' →
       JiraQueries.getQueryData batch' k' = JiraQueries.getQueryData qc k'
       ∧ JiraQueries.getQueryData single' k' = JiraQueries.getQueryData qc k'
       ∧ JiraQueries.getQueryData move' k' = JiraQueries.getQueryData qc k').
Proof.
  cbv zeta.
  unfold useBatchPatchIssues.onError, usePatchIssue.onError,
    useMoveIssue.onError, useBatchPatchIssues.onMutate,
    usePatchIssue.onMutate, useMoveIssue.onMutate.
  cbv zeta. cbn [fst snd]. split; [|split].
  - by rewrite !cachedList_set.
  - intros Hk. by rewrite !setQueryData_restore.
  - intros k' Hne. by rewrite !cachedList_set_ne.
Qed.

Lemma new_Map_singleton {V} (i : string) (v : V) :
  JiraQueries.new_Map [(i, v)] = {[ i := v ]}.
Proof. unfold JiraQueries.new_Map. simpl. by rewrite insert_empty. Qed.

(** X10. The single patch. Its optimistic write is the batch write of the
    one change; and once the server has answered, the row it returned stands
    in the place of the patched issue, whatever the optimistic guess was,
    while a returned row whose id is not in the list changes nothing. *)
Theorem single_patch_optimism (k : JiraQueries.QueryKey)
    (qc : JiraQueries.QueryCache) (i : string) (p : IssuePatch)
    (updated : Issue) :
  let started := usePatchIssue.onMutate k qc i p in
  let settled := usePatchIssue.onSuccess k started.1 updated in
  started = useBatchPatchIssues.onMutate k qc [mkChange i p]
  ∧ (p_id p = None → id updated = i →
       JiraQueries.cachedList settled k
       = (λ it, if bool_decide (id it = i) then updated else it)
           <$> JiraQueries.cachedList qc k)
  ∧ (id updated ∉ id <$> JiraQueries.cachedList started.1 k →
       JiraQueries.cachedList settled k = JiraQueries.cachedList started.1 k)
  ∧ length (JiraQueries.cachedList settled k)
    = length (JiraQueries.cachedList qc k).
Proof.
  cbv zeta. split; [|split; [|split]].
  - unfold usePatchIssue.onMutate, useBatchPatchIssues.onMutate. cbv zeta.
    f_equal. f_equal. apply list_fmap_ext. intros _ it _. simpl.
    rewrite new_Map_singleton.
    destruct (bool_decide_reflect (id it = i)) as [->|Hne].
    + by rewrite lookup_singleton_eq.
    + by rewrite lookup_singleton_ne.
  - intros Hp Hid. unfold usePatchIssue.onSuccess, usePatchIssue.onMutate.
    cbv zeta. simpl. rewrite !cachedList_set, <- list_fmap_compose.
    apply list_fmap_ext. intros _ it _. simpl. rewrite Hid.
    destruct (bool_decide_reflect (id it = i)) as [Hit|Hne].
    + unfold spread at 1. simpl. rewrite Hp. simpl. by rewrite bool_decide_true.
    + by rewrite bool_decide_false.
  - intros Hfresh. unfold usePatchIssue.onSuccess. cbv zeta.
    rewrite cachedList_set. apply fmap_id_elem. intros it Hit.
    rewrite bool_decide_false; [done|]. intros Heq. apply Hfresh.
    apply list_elem_of_fmap. by exists it.
  - unfold usePatchIssue.onSuccess, usePatchIssue.onMutate. cbv zeta. simpl.
    by rewrite !cachedList_set, !length_fmap.
Qed.

(** X11. The optimistic sprint move keeps the cached list within the scope
    of its route: afterwards every issue of the list has the sprint of the
    route; an issue moved to another sprint is gone from the list; and if
    the list was within the scope before, nothing else changes: the list
    is the same for a move within the scope and loses exactly the moved
    issue otherwise. *)
Theorem move_keeps_scope (k : JiraQueries.QueryKey) (qc : JiraQueries.QueryCache)
    (i : string) (toSprintId : option string) :
  let prev := JiraQueries.cachedList qc k in
  let next := JiraQueries.cachedList (useMoveIssue.onMutate k qc i toSprintId).1 k in
  Forall (λ it, sprintId it = k.2) next
  ∧ (toSprintId ≠ k.2 → i ∉ id <$> next)
  ∧ (∀ it, it ∈ prev → id it ≠ i → (it ∈ next ↔ sprintId it = k.2))
  ∧ (Forall (λ it, sprintId it = k.2) prev →
       (toSprintId = k.2 → next = prev)
       ∧ (toSprintId ≠ k.2 → next = filter (λ it, id it ≠ i) prev)).
Proof.
  cbv zeta. unfold useMoveIssue.onMutate. cbv zeta. simpl.
  rewrite cachedList_set.
  set (prev := JiraQueries.cachedList qc k).
  set (f := λ it, if bool_decide (id it = i)
                  then useMoveIssue.with_sprintId it toSprintId else it).
  assert (∀ it, id (f it) = id it) as Hfid.
  { intros it. unfold f. by destruct (bool_decide (id it = i)). }
  split; [|split; [|split]].
  - apply Forall_forall. by intros it [? _]%list_elem_of_filter.
  - intros Hne (it & Hid & [Hsp (x & -> & Hx)%list_elem_of_fmap]%list_elem_of_filter)
      %list_elem_of_fmap.
    rewrite Hfid in Hid. unfold f in Hsp. rewrite bool_decide_true in Hsp by done.
    by apply Hne.
  - intros it Hit Hne. rewrite list_elem_of_filter, list_elem_of_fmap. split.
    + by intros [? _].
    + intros Hsp. split; [done|]. exists it. split; [|done].
      unfold f. by rewrite bool_decide_false.
  - intros Hscope. split.
    + intros ->. rewrite filter_Forall_id.
      * apply fmap_id_elem. intros it Hit. unfold f.
        destruct (bool_decide (id it = i)); [|done].
        pose proof (proj1 (Forall_forall _ _) Hscope it Hit) as Hsp.
        simpl in Hsp. rewrite <- Hsp. by destruct it.
      * apply Forall_forall. intros y (x & -> & Hx)%list_elem_of_fmap.
        pose proof (proj1 (Forall_forall _ _) Hscope x Hx) as Hsp.
        unfold f. by destruct (bool_decide (id x = i)).
    + intros Hne. rewrite filter_fmap.
      rewrite (filter_ext_elem _ (λ it, id it ≠ i)).
      * apply fmap_id_elem. intros it [Hid _]%list_elem_of_filter.
        unfold f. by rewrite bool_decide_false.
      * intros it Hit.
        pose proof (proj1 (Forall_forall _ _) Hscope it Hit) as Hsp.
        unfold f. destruct (bool_decide_reflect (id it = i)); simpl; split;
          try done; by intros ?.
Qed.

(** ** The issue service: updates keep the identity of the rows *)

Lemma find_id_is_Some (db : list Issue) (i : string) :
  i ∈ id <$> db ↔ is_Some (find (λ x, id x = i) db).
Proof.
  split.
  - intros (x & -> & Hx)%list_elem_of_fmap. by apply (find_is_Some _ _ x).
  - intros [x [Hx Hid]%find_Some]. apply list_elem_of_fmap. by exists x.
Qed.

Lemma find_id_NoDup (db : list Issue) (x : Issue) :
  NoDup (id <$> db) → x ∈ db → find (λ y, id y = id x) db = Some x.
Proof.
  intros Hnd Hx.
  destruct (find_is_Some (λ y, id y = id x) db x Hx eq_refl) as [y Hy].
  rewrite Hy. f_equal. apply find_Some in Hy as [Hy Hid].
  by apply (NoDup_id_inj db).
Qed.

Lemma same_row_refl (x : Issue) : same_row x x.
Proof. by repeat split. Qed.

Lemma same_row_trans (x y z : Issue) : same_row x y → same_row y z → same_row x z.
Proof. intros (? & ? & ?) (? & ? & ?). repeat split; congruence. Qed.

Lemma same_identity_refl (db : list Issue) : same_identity db db.
Proof. apply Forall2_same_length_lookup. split; [done|].
  intros i x y Hx Hy. assert (x = y) as -> by congruence. apply same_row_refl. Qed.

Lemma same_identity_trans (a b c : list Issue) :
  same_identity a b → same_identity b c → same_identity a c.
Proof.
  unfold same_identity. intros Hab. revert c.
  induction Hab as [|x y a b Hxy _ IH]; intros c Hbc.
  - by inversion Hbc.
  - inversion Hbc as [|? z ? c' Hyz Hbc']; subst. constructor.
    + by apply same_row_trans with y.
    + by apply IH.
Qed.

Lemma same_identity_fmap (f : Issue → Issue) (db : list Issue) :
  (∀ x, x ∈ db → same_row x (f x)) → same_identity db (f <$> db).
Proof.
  unfold same_identity. induction db as [|x db IH]; intros Hf; [constructor|].
  rewrite fmap_cons. constructor; [apply Hf; left|].
  apply IH. intros y Hy. apply Hf. by right.
Qed.

Lemma same_identity_ids (db db' : list Issue) :
  same_identity db db' →
  id <$> db' = id <$> db ∧ key <$> db' = key <$> db
  ∧ boardId <$> db' = boardId <$> db ∧ length db' = length db.
Proof.
  induction 1 as [|x y db db' (? & ? & ?) _ (? & ? & ? & ?)]; [done|].
  rewrite !fmap_cons. simpl. repeat split; congruence.
Qed.


Lemma spread_same_row (x : Issue) (p : IssuePatch) :
  p_id p = None → p_key p = None → p_boardId p = None → same_row x (spread x p).
Proof. intros H1 H2 H3. unfold same_row, spread. simpl. by rewrite H1, H2, H3. Qed.

Lemma update_None (db : IssuesService.Table) (i : string) (data : IssuePatch) :
  IssuesService.update db i data = None ↔ i ∉ id <$> db.
Proof.
  unfold IssuesService.update. rewrite find_id_is_Some.
  destruct (find (λ x, id x = i) db) as [row|].
  - split; [done|]. intros Hn. destruct Hn. by eauto.
  - split; [|done]. by intros _ [? ?].
Qed.

Lemma update_Some (db db' : IssuesService.Table) (i : string)
    (data : IssuePatch) (row' : Issue) :
  NoDup (id <$> db) →
  p_id data = None → p_key data = None → p_boardId data = None →
  IssuesService.update db i data = Some (db', row') →
  ∃ row, row ∈ db ∧ id row = i
         ∧ row' = spread row data
         ∧ db' = (λ x, if bool_decide (id x = i) then spread x data else x) <$> db
         ∧ same_identity db db'
         ∧ row' ∈ db'.
Proof.
  intros Hnd H1 H2 H3. unfold IssuesService.update.
  destruct (find (λ x, id x = i) db) as [row|] eqn:Hfind; [|done].
  intros [= <- <-]. exists row.
  apply find_Some in Hfind as [Hrow Hid].
  assert ((λ x, if bool_decide (id x = i) then spread row data else x) <$> db
          = (λ x, if bool_decide (id x = i) then spread x data else x) <$> db)
    as Heq.
  { apply list_fmap_ext. intros n x Hx. simpl.
    destruct (bool_decide_reflect (id x = i)) as [Hxi|]; [|done].
    f_equal. apply (NoDup_id_inj db); [done|done| |congruence].
    by apply list_elem_of_lookup_2 in Hx. }
  rewrite Heq. repeat split; try done.
  - apply same_identity_fmap. intros x Hx.
    destruct (bool_decide (id x = i)); [|apply same_row_refl].
    by apply spread_same_row.
  - apply list_elem_of_fmap. exists row. split; [|done].
    by rewrite bool_decide_true.
Qed.

Lemma buildBatchPatchData_identity (p : IssuePatch) :
  p_id (IssuesService.buildBatchPatchData p) = None
  ∧ p_key (IssuesService.buildBatchPatchData p) = None
  ∧ p_boardId (IssuesService.buildBatchPatchData p) = None
  ∧ p_title (IssuesService.buildBatchPatchData p) = None
  ∧ p_description (IssuesService.buildBatchPatchData p) = None.
Proof. by repeat split. Qed.

Lemma buildBatchPatchData_plain (p : IssuePatch) :
  batch_plain p → IssuesService.buildBatchPatchData p = p.
Proof.
  destruct p. unfold batch_plain, IssuesService.buildBatchPatchData. simpl.
  intros (-> & -> & -> & -> & -> & ->). done.
Qed.

Lemma updated_by_cons (c : IssueChange) (cs : list IssueChange) (x : Issue) :
  updated_by (c :: cs) x
  = updated_by cs
      (if bool_decide (id x = change_id c)
       then spread x (IssuesService.buildBatchPatchData (change_patch c)) else x).
Proof. done. Qed.

Lemma updated_by_same (changes : list IssueChange) (x : Issue) :
  same_row x (updated_by changes x)
  ∧ title (updated_by changes x) = title x
  ∧ description (updated_by changes x) = description x.
Proof.
  revert x. induction changes as [|c cs IH]; intros x; [by repeat split|].
  rewrite updated_by_cons.
  destruct (bool_decide (id x = change_id c)); [|apply IH].
  destruct (IH (spread x (IssuesService.buildBatchPatchData (change_patch c))))
    as (Hs & Ht & Hd).
  split; [|by split].
  eapply same_row_trans; [|exact Hs]. by apply spread_same_row.
Qed.

Lemma updated_by_other (changes : list IssueChange) (x : Issue) :
  id x ∉ change_id <$> changes → updated_by changes x = x.
Proof.
  induction changes as [|c cs IH]; [done|].
  rewrite fmap_cons, not_elem_of_cons. intros [Hc Hcs].
  rewrite updated_by_cons, bool_decide_false by done. by apply IH.
Qed.

Lemma patched_cons_other (c : IssueChange) (cs : list IssueChange) (x : Issue) :
  id x ≠ change_id c → patched (c :: cs) x = patched cs x.
Proof.
  intros Hne. unfold patched, lastPatchFor.
  rewrite filter_cons_False; [done|]. by intros ?.
Qed.

Lemma updated_by_patched (changes : list IssueChange) (x : Issue) :
  NoDup (change_id <$> changes) →
  Forall (λ c, batch_plain (change_patch c)) changes →
  updated_by changes x = patched changes x.
Proof.
  revert x. induction changes as [|[ci cp] cs IH]; intros x Hnd Hplain; [done|].
  rewrite fmap_cons in Hnd. apply NoDup_cons in Hnd as [Hc Hnd].
  apply Forall_cons in Hplain as [Hp Hplain]. simpl in Hc, Hp.
  rewrite updated_by_cons. cbn [change_id change_patch].
  rewrite (buildBatchPatchData_plain _ Hp).
  destruct (bool_decide_reflect (id x = ci)) as [Heq|Hne].
  - rewrite updated_by_other.
    + symmetry. apply patched_at.
      * rewrite fmap_cons. by apply NoDup_cons.
      * rewrite Heq. left.
    + destruct Hp as (Hid & _). unfold spread. simpl. rewrite Hid. simpl.
      by rewrite Heq.
  - rewrite patched_cons_other by done. by apply IH.
Qed.

Lemma batchPatch_None (changes : list IssueChange) (db : IssuesService.Table) :
  NoDup (id <$> db) →
  ¬ Forall (λ c, change_id c ∈ id <$> db) changes →
  IssuesService.batchPatch db changes = None.
Proof.
  revert db. induction changes as [|c cs IH]; intros db Hnd Hnot.
  { destruct Hnot. constructor. }
  simpl.
  destruct (IssuesService.update db (change_id c)
              (IssuesService.buildBatchPatchData (change_patch c)))
    as [[db1 row]|] eqn:Hup; [|done].
  assert (change_id c ∈ id <$> db) as Hc.
  { destruct (decide (change_id c ∈ id <$> db)) as [|Hn]; [done|].
    apply (proj2 (update_None db (change_id c)
                    (IssuesService.buildBatchPatchData (change_patch c)))) in Hn.
    congruence. }
  apply update_Some in Hup as (_ & _ & _ & _ & _ & Hsame & _); [|done..].
  apply same_identity_ids in Hsame as (Hids & _).
  rewrite IH; [done|by rewrite Hids|].
  intros Hall. apply Hnot. constructor; [done|]. by rewrite <- Hids.
Qed.

Lemma batchPatch_Some (changes : list IssueChange) (db : IssuesService.Table) :
  NoDup (id <$> db) →
  Forall (λ c, change_id c ∈ id <$> db) changes →
  ∃ rows, IssuesService.batchPatch db changes
          = Some (updated_by changes <$> db, rows)
          ∧ id <$> rows = change_id <$> changes.
Proof.
  revert db. induction changes as [|c cs IH]; intros db Hnd Hall.
  { exists []. split; [|done]. simpl. f_equal. f_equal. symmetry.
    by apply fmap_id_elem. }
  apply Forall_cons in Hall as [Hc Hall]. simpl.
  destruct (IssuesService.update db (change_id c)
              (IssuesService.buildBatchPatchData (change_patch c)))
    as [[db1 row]|] eqn:Hup.
  - apply update_Some in Hup
      as (row0 & _ & Hid0 & -> & -> & Hsame & _); [|done..].
    apply same_identity_ids in Hsame as (Hids & _).
    destruct (IH _ ltac:(by rewrite Hids) ltac:(by rewrite Hids))
      as (rows & -> & Hrows).
    eexists. split.
    + f_equal. f_equal. rewrite <- list_fmap_compose.
      apply list_fmap_ext. intros n x _. reflexivity.
    + rewrite !fmap_cons, Hrows. f_equal.
      rewrite <- Hid0. symmetry.
      by apply (spread_same_row row0).
  - apply (proj1 (update_None _ _ _)) in Hup. done.
Qed.

(** X12. The batch endpoint is all or nothing and keeps the identity of the
    rows: with unique ids it succeeds exactly when every change addresses an
    existing issue; then it returns one row per change, in order, touches no
    issue that is not addressed, and leaves [id], [key], [boardId], [title]
    and [description] of every row as they were, whatever the patches
    name. *)
Theorem batchPatch_atomic (db : IssuesService.Table)
    (changes : list IssueChange) :
  NoDup (id <$> db) →
  (is_Some (IssuesService.batchPatch db changes)
   ↔ Forall (λ c, change_id c ∈ id <$> db) changes)
  ∧ ∀ db' rows, IssuesService.batchPatch db changes = Some (db', rows) →
      same_identity db db'
      ∧ Forall2 (λ x y, title x = title y ∧ description x = description y) db db'
      ∧ id <$> rows = change_id <$> changes
      ∧ (∀ x, x ∈ db → id x ∉ change_id <$> changes → x ∈ db').
Proof.
  intros Hnd. split.
  - split.
    + intros Hsome.
      destruct (decide (Forall (λ c, change_id c ∈ id <$> db) changes))
        as [|Hnot]; [done|].
      rewrite (batchPatch_None changes db Hnd Hnot) in Hsome.
      by destruct Hsome.
    + intros Hall. destruct (batchPatch_Some changes db Hnd Hall) as (rows & -> & _).
      by eexists.
  - intros db' rows Hb.
    destruct (decide (Forall (λ c, change_id c ∈ id <$> db) changes))
      as [Hall|Hnot]; [|by rewrite batchPatch_None in Hb].
    destruct (batchPatch_Some changes db Hnd Hall) as (rows' & Heq & Hrows).
    rewrite Heq in Hb. injection Hb as <- <-.
    split; [|split; [|split]]; [| |done|].
    + apply same_identity_fmap. intros x _. apply updated_by_same.
    + apply Forall2_fmap_r, Forall_Forall2_diag, Forall_forall.
      intros x _. destruct (updated_by_same changes x) as (_ & Ht & Hd).
      simpl. by rewrite Ht, Hd.
    + intros x Hx Hout. apply list_elem_of_fmap. exists x.
      split; [|done]. by rewrite updated_by_other.
Qed.

Lemma batchPatch_atomic_witness :
  is_Some (IssuesService.batchPatch backlog_board
             [mkChange "A" (order_patch 1); mkChange "C" (order_patch 2)]).
Proof.
  apply (batchPatch_atomic backlog_board).
  - apply (bool_decide_unpack _). vm_compute. exact I.
  - repeat constructor; apply (bool_decide_unpack _); vm_compute; exact I.
Defined.

(** X13. The optimistic write predicts the server. If the changes of a
    batch have pairwise distinct ids of existing issues and name none of
    [id], [key], [boardId], [sprintId], [title] and [description], then the
    table after the batch endpoint is the table with every row overwritten
    by its patch, which is row for row what the optimistic write of the
    same changes makes of a cached list of these rows. *)
Theorem batch_write_predicted (k : JiraQueries.QueryKey)
    (qc : JiraQueries.QueryCache) (db : IssuesService.Table)
    (changes : list IssueChange) :
  NoDup (id <$> db) →
  NoDup (change_id <$> changes) →
  Forall (λ c, change_id c ∈ id <$> db ∧ batch_plain (change_patch c)) changes →
  ∃ db' rows,
    IssuesService.batchPatch db changes = Some (db', rows)
    ∧ db' = patched changes <$> db
    ∧ (JiraQueries.cachedList qc k = db →
         JiraQueries.cachedList (useBatchPatchIssues.onMutate k qc changes).1 k
         = db')
    ∧ (∀ n it, JiraQueries.cachedList qc k !! n = Some it → it ∈ db →
         ∃ row, JiraQueries.cachedList
                  (useBatchPatchIssues.onMutate k qc changes).1 k !! n
                = Some row
                ∧ row ∈ db').
Proof.
  intros Hnd Hndc Hall.
  apply Forall_and in Hall as [Hids Hplain].
  destruct (batchPatch_Some changes db Hnd Hids) as (rows & Hb & _).
  exists (patched changes <$> db), rows.
  assert (updated_by changes <$> db = patched changes <$> db) as Heq.
  { apply list_fmap_ext. intros n x _. by apply updated_by_patched. }
  rewrite <- Heq at 1. split; [done|]. split; [done|]. split.
  - intros Hqc. by rewrite batch_onMutate_patched, Hqc.
  - intros n it Hn Hit. exists (patched changes it).
    rewrite batch_onMutate_patched, list_lookup_fmap, Hn. split; [done|].
    apply list_elem_of_fmap. by exists it.
Qed.

Lemma batch_write_predicted_witness :
  ∃ rows,
    IssuesService.batchPatch backlog_board
      [mkChange "A" (order_patch 5000)]
    = Some (patched [mkChange "A" (order_patch 5000)] <$> backlog_board, rows).
Proof.
  destruct (batch_write_predicted ("demo", None) ∅ backlog_board
              [mkChange "A" (order_patch 5000)])
    as (db' & rows & Hb & -> & _).
  - apply (bool_decide_unpack _). vm_compute. exact I.
  - apply (bool_decide_unpack _). vm_compute. exact I.
  - constructor; [|constructor]. split.
    + apply (bool_decide_unpack _). vm_compute. exact I.
    + by repeat split.
  - by exists rows.
Defined.

(** ** A drop, end to end *)

Lemma drop_changes_plain (scoped : list Issue) (active : Issue)
    (toStatus : IssueStatus) (overIssue : option Issue)
    (changes : list IssueChange) :
  drop_changes scoped active toStatus overIssue changes →
  Forall (λ c, batch_plain (change_patch c)) changes.
Proof.
  intros [(_ & i & j & x & _ & _ & _ & _ & ->)|(_ & ->)].
  - apply Forall_forall. intros c (y & -> & _)%list_elem_of_fmap.
    by repeat split.
  - destruct (moveAcross_shape scoped active toStatus overIssue)
      as (dest & -> & _).
    apply Forall_app. split; apply Forall_forall;
      intros c (y & -> & _)%list_elem_of_fmap; by repeat split.
Qed.

Lemma renumbers_perm (issues issues' destPre srcRest : list Issue)
    (changes : list IssueChange) (toStatus fromStatus : IssueStatus) :
  issues ≡ₚ issues' →
  renumbers issues destPre srcRest changes toStatus fromStatus →
  renumbers issues' destPre srcRest changes toStatus fromStatus.
Proof.
  intros Hp (H1 & H2 & H3 & H4 & H5 & H6 & H7 & H8).
  unfold renumbers. do 4 (split; [done|]).
  split; [intros x Hx; rewrite <- Hp; by apply H5|].
  split; [intros x Hx; rewrite <- Hp; by apply H6|].
  split.
  - intros x Hx. apply H7. by rewrite Hp.
  - intros x Hx. apply H8. by rewrite Hp.
Qed.

Lemma patched_plain (changes : list IssueChange) (x : Issue) :
  Forall (λ c, batch_plain (change_patch c)) changes →
  id (patched changes x) = id x
  ∧ boardId (patched changes x) = boardId x
  ∧ sprintId (patched changes x) = sprintId x.
Proof.
  intros Hplain. unfold patched, lastPatchFor.
  destruct (last (filter (λ c, change_id c = id x) changes)) as [c|] eqn:Hl;
    [|done].
  apply last_Some_elem_of, list_elem_of_filter in Hl as [_ Hc].
  destruct (proj1 (Forall_forall _ _) Hplain c Hc) as (H1 & _ & H3 & H4 & _).
  simpl. unfold spread. simpl. by rewrite H1, H3, H4.
Qed.

Lemma renumbers_columns (issues destPre srcRest : list Issue)
    (changes : list IssueChange) (toStatus fromStatus : IssueStatus) :
  NoDup (id <$> issues) →
  renumbers issues destPre srcRest changes toStatus fromStatus →
  BoardPage.columnOf (BoardPage.scopedIssues (patched changes <$> issues)) toStatus
  = BoardPage.normalizeOrders ((λ x, with_status x toStatus) <$> destPre)
  ∧ (fromStatus ≠ toStatus →
       BoardPage.columnOf (BoardPage.scopedIssues (patched changes <$> issues))
         fromStatus
       = BoardPage.normalizeOrders srcRest)
  ∧ (∀ s, s ≠ toStatus → s ≠ fromStatus →
       BoardPage.columnOf (BoardPage.scopedIssues (patched changes <$> issues)) s
       = BoardPage.columnOf (BoardPage.scopedIssues issues) s).
Proof.
  intros Hnd (H1 & H2 & H3 & H4 & H5 & H6 & H7 & H8).
  by apply (patched_board_columns issues destPre srcRest changes toStatus
              fromStatus).
Qed.

(** X14. The refetch confirms the drop. Let the cached list be what [list]
    returns for the partition of the route, and let a drag on it emit
    [changes]. Then the batch endpoint accepts the changes, and in the list
    it returns afterwards for the same partition every column is, card for
    card, the column the optimistic write has put on screen: the refetch
    that follows the mutation moves nothing. Rows of other partitions are
    not touched. *)
Theorem refetch_confirms_drop (qc : JiraQueries.QueryCache)
    (view : BoardPage.View) (db : IssuesService.Table) (b : string)
    (sp : option string) (lastOver : option string) (aId : string)
    (overId : option string) (changes : list IssueChange) :
  NoDup (id <$> db) →
  let k : JiraQueries.QueryKey := (b, sp) in
  let issues := IssuesTable.list db b sp in
  JiraQueries.cachedList qc k = issues →
  BoardPage.onDragEnd view issues aId overId = Some changes
  ∨ BoardColumns.onDragEnd view issues lastOver aId overId = Some changes →
  ∃ db' rows,
    IssuesService.batchPatch db changes = Some (db', rows)
    ∧ (∀ s, BoardPage.columnOf
              (BoardPage.scopedIssues (IssuesTable.list db' b sp)) s
            = BoardPage.columnOf
                (BoardPage.scopedIssues
                   (JiraQueries.cachedList
                      (useBatchPatchIssues.onMutate k qc changes).1 k)) s)
    ∧ (∀ x, x ∈ db → ¬ (boardId x = b ∧ sprintId x = sp) → x ∈ db')
    ∧ id <$> db' = id <$> db.
Proof.
  intros Hnd k issues Hqc H.
  set (L := filter (λ x, boardId x = b ∧ sprintId x = sp) db).
  assert (issues ≡ₚ L) as Hperm by apply sort_by_perm.
  assert (NoDup (id <$> L)) as HndL.
  { apply (NoDup_ids_sub db); [done| |].
    - apply NoDup_filter. by apply NoDup_fmap_1 in Hnd.
    - by intros x [_ ?]%list_elem_of_filter. }
  assert (NoDup (id <$> issues)) as Hndi by (by rewrite Hperm).
  apply onDragEnd_drop_changes in H
    as (oId & active & toStatus & _ & _ & _ & Hact & _ & _ & _ & Hch).
  pose proof (drop_changes_plain _ _ _ _ _ Hch) as Hplain.
  destruct (drop_changes_renumbers issues active toStatus _ changes Hndi Hact Hch)
    as (destPre & srcRest & Hren & _).
  pose proof (renumbers_perm _ _ _ _ _ _ _ Hperm Hren) as HrenL.
  pose proof Hren as (Hids & Hndc & _ & _ & Hdi & Hsi & _).
  assert (NoDup (change_id <$> changes)) as Hndch by (by rewrite Hids).
  assert (∀ c, c ∈ changes → ∃ y, y ∈ L ∧ id y = change_id c) as Hsub.
  { intros c Hc.
    assert (change_id c ∈ change_id <$> changes) as Hcid.
    { apply list_elem_of_fmap. by exists c. }
    rewrite Hids in Hcid.
    apply elem_of_app in Hcid
      as [(y & Hy & Hin)%list_elem_of_fmap|(y & Hy & Hin)%list_elem_of_fmap];
      exists y; split; try done; rewrite <- Hperm.
    - by apply Hdi.
    - by apply Hsi. }
  assert (Forall (λ c, change_id c ∈ id <$> db) changes) as Hall.
  { apply Forall_forall. intros c Hc. destruct (Hsub c Hc) as (y & Hy & <-).
    apply list_elem_of_fmap. exists y. split; [done|].
    by apply list_elem_of_filter in Hy as [_ ?]. }
  destruct (batchPatch_Some changes db Hnd Hall) as (rows & Hb & _).
  assert (updated_by changes <$> db = patched changes <$> db) as Heq.
  { apply list_fmap_ext. intros n x _. by apply updated_by_patched. }
  rewrite Heq in Hb. exists (patched changes <$> db), rows.
  split; [done|]. split; [|split].
  - intros s.
    assert (IssuesTable.list (patched changes <$> db) b sp
            = sort_by order (patched changes <$> L)) as ->.
    { unfold IssuesTable.list. f_equal.
      rewrite (filter_fmap (patched changes)
                 (λ x, boardId x = b ∧ sprintId x = sp) db).
      f_equal. apply filter_ext_elem. intros x _.
      by destruct (patched_plain changes x Hplain) as (_ & -> & ->). }
    rewrite batch_onMutate_patched, Hqc.
    unfold BoardPage.scopedIssues at 1. rewrite sort_by_idemp.
    fold (BoardPage.scopedIssues (patched changes <$> L)).
    destruct (renumbers_columns L destPre srcRest changes toStatus
                (status active) HndL HrenL) as (HL1 & HL2 & HL3).
    destruct (renumbers_columns issues destPre srcRest changes toStatus
                (status active) Hndi Hren) as (HI1 & HI2 & HI3).
    destruct (decide (s = toStatus)) as [->|Hs1]; [by rewrite HL1, HI1|].
    destruct (decide (s = status active)) as [->|Hs2].
    + rewrite HL2, HI2 by done. done.
    + rewrite HL3, HI3 by done.
      unfold issues, IssuesTable.list. fold L.
      unfold BoardPage.scopedIssues. by rewrite sort_by_idemp.
  - intros x Hx Hout. apply list_elem_of_fmap. exists x. split; [|done].
    symmetry. apply patched_other.
    intros (c & Hc & Hin)%list_elem_of_fmap.
    destruct (Hsub c Hin) as (y & Hy & Hyid).
    apply list_elem_of_filter in Hy as [Hscope Hy].
    assert (x = y) as ->
      by (apply (NoDup_id_inj db); [done|done|done|congruence]).
    done.
  - rewrite <- list_fmap_compose. apply list_fmap_ext. intros n x _. simpl.
    by destruct (patched_plain changes x Hplain) as (-> & _).
Qed.

Lemma refetch_confirms_drop_witness :
  ∃ db' rows,
    IssuesService.batchPatch backlog_board
      [ mkChange "C" (order_patch 1000); mkChange "A" (order_patch 2000);
        mkChange "B" (order_patch 3000) ]
    = Some (db', rows)
    ∧ id <$> db' = id <$> backlog_board.
Proof.
  destruct (refetch_confirms_drop {[ ("demo", None) := backlog_board ]}
              BoardPage.BacklogView backlog_board "demo" None None "C"
              (Some "A")
              [ mkChange "C" (order_patch 1000); mkChange "A" (order_patch 2000);
                mkChange "B" (order_patch 3000) ])
    as (db' & rows & Hb & _ & _ & Hids).
  - apply (bool_decide_unpack _). vm_compute. exact I.
  - vm_compute. reflexivity.
  - left. vm_compute. reflexivity.
  - by exists db', rows.
Defined.

(** ** The single patch endpoint *)

Lemma patchData_identity (existing : Issue) (p : IssuePatch) :
  p_id (IssuesService.patchData existing p) = None
  ∧ p_key (IssuesService.patchData existing p) = None
  ∧ p_boardId (IssuesService.patchData existing p) = None.
Proof. by repeat split. Qed.

(** X15. The single patch endpoint fails exactly when no issue has the id.
    When it succeeds, the table keeps its rows in place with their [id],
    [key] and [boardId], only the addressed row changes, and the returned
    row is the one stored; the keys [id], [key] and [boardId] of a patch are
    ignored, so a patch that names nothing else changes nothing. *)
Theorem patch_frame (db : IssuesService.Table) (i : string) (p : IssuePatch) :
  NoDup (id <$> db) →
  (is_Some (IssuesService.patch db i p) ↔ i ∈ id <$> db)
  ∧ ∀ db' row, IssuesService.patch db i p = Some (db', row) →
      same_identity db db'
      ∧ row ∈ db' ∧ id row = i
      ∧ (∀ x, x ∈ db → id x ≠ i → x ∈ db')
      ∧ (∀ y, y ∈ db' → id y ≠ i → y ∈ db)
      ∧ (p_sprintId p = None → p_status p = None → p_order p = None →
         p_title p = None → p_description p = None →
         p_assigneeId p = None → p_watcherIds p = None →
         db' = db ∧ row ∈ db).
Proof.
  intros Hnd. split.
  - unfold IssuesService.patch. rewrite find_id_is_Some.
    destruct (find (λ x, id x = i) db) as [existing|] eqn:Hfind.
    + split; [by eauto|]. intros _.
      unfold IssuesService.update. rewrite Hfind. by eexists.
    + split; by intros [? ?].
  - intros db' row. unfold IssuesService.patch.
    destruct (find (λ x, id x = i) db) as [existing|] eqn:Hfind; [|done].
    intros Hup.
    destruct (patchData_identity existing p) as (H1 & H2 & H3).
    apply update_Some in Hup as (row0 & Hrow0 & Hid0 & -> & -> & Hsame & Hin);
      [|done..].
    apply find_Some in Hfind as [Hex Hexid].
    assert (row0 = existing) as ->
      by (apply (NoDup_id_inj db); [done|done|done|congruence]).
    split; [done|]. split; [done|]. split; [done|]. split; [|split].
    + intros x Hx Hne. apply list_elem_of_fmap. exists x.
      split; [|done]. by rewrite bool_decide_false.
    + intros y (x & -> & Hx)%list_elem_of_fmap.
      destruct (bool_decide_reflect (id x = i)) as [Heq|Hne]; [|done].
      intros Hy. destruct Hy. exact Heq.
    + intros Hs Hst Ho Ht Hd Ha Hw.
      assert (∀ x, x ∈ db → id x = i →
                spread x (IssuesService.patchData existing p) = x) as Hnoop.
      { intros x _ _. unfold IssuesService.patchData. rewrite Hs, Hst.
        unfold spread. simpl. rewrite Ho, Ht, Hd, Ha, Hw. by destruct x. }
      split.
      * apply fmap_id_elem. intros x Hx.
        destruct (bool_decide_reflect (id x = i)); [by apply Hnoop|done].
      * by rewrite (Hnoop existing Hex Hexid).
Qed.

Lemma patch_frame_witness :
  is_Some (IssuesService.patch sprint_board "B" (order_patch 7)).
Proof.
  apply (patch_frame sprint_board "B" (order_patch 7)).
  - apply (bool_decide_unpack _). vm_compute. exact I.
  - apply (bool_decide_unpack _). vm_compute. exact I.
Defined.

(** ** Issue keys *)







Lemma updateOrder_same_identity (db : list Issue) (io : BoardsService.IdOrder) :
  same_identity db (BoardsService.updateOrder db io).
Proof.
  apply same_identity_fmap. intros x _.
  destruct (bool_decide (id x = BoardsService.io_id io)); by repeat split.
Qed.

Lemma foldl_updateOrder_same_identity (ios : list BoardsService.IdOrder)
    (db : list Issue) :
  same_identity db (foldl BoardsService.updateOrder db ios).
Proof.
  revert db. induction ios as [|io ios IH]; intros db; [apply same_identity_refl|].
  simpl. eapply same_identity_trans; [apply updateOrder_same_identity|apply IH].
Qed.

Lemma moveIssue_same_identity (db : list Issue) (b i : string)
    (body : BoardsService.MoveBody) (db' ret : list Issue) :
  BoardsService.moveIssue db b i body = Some (db', ret) →
  same_identity db db' ∧ ret = BoardsService.findScope db' b (BoardsService.body_sprintId body).
Proof.
  unfold BoardsService.moveIssue.
  destruct (find (λ x, id x = i) db) as [issue|]; [|done].
  destruct (negb (bool_decide (boardId issue = b))); [done|]. cbv zeta.
  match goal with |- context [if ?c then _ else _] => destruct c end.
  { intros [= <- <-]. split; [apply same_identity_refl|done]. }
  match goal with |- context [match ?f with Some _ => _ | None => _ end] =>
    destruct f as [mine|] end; [|done].
  intros [= <- <-]. split; [|done].
  eapply same_identity_trans; [|apply foldl_updateOrder_same_identity].
  eapply same_identity_trans; [|apply foldl_updateOrder_same_identity].
  apply same_identity_fmap. intros x _.
  destruct (bool_decide (id x = i)); by repeat split.
Qed.






(** ** The server-side move *)

Lemma filter_key_NoDup {A B} `{EqDecision B} (f : A → B) (l : list A) (z : A) :
  NoDup (f <$> l) → z ∈ l → filter (λ a, f a = f z) l = [z].
Proof.
  intros Hnd Hz.
  induction l as [|d l IH]; [by apply elem_of_nil in Hz|].
  rewrite fmap_cons in Hnd. apply NoDup_cons in Hnd as [Hd Hnd].
  apply elem_of_cons in Hz as [->|Hz].
  - rewrite filter_cons_True by done. f_equal. apply filter_none.
    intros a Ha Heq. apply Hd. rewrite <- Heq.
    apply list_elem_of_fmap. by exists a.
  - rewrite filter_cons_False; [by apply IH|].
    intros Heq. apply Hd. rewrite Heq. apply list_elem_of_fmap. by exists z.
Qed.

Lemma sort_filter_fmap_unique (db pre n : list Issue) (G : Issue → Issue)
    (P : Issue → Prop) `{!∀ x, Decision (P x)} :
  NoDup db → NoDup pre →
  (∀ x, x ∈ db ∧ P (G x) ↔ x ∈ pre) →
  G <$> pre = n → strictly_ascending order n →
  sort_by order (filter P (G <$> db)) = n.
Proof.
  intros Hdb Hpre Hiff <- Hn. apply sort_by_unique; [done|].
  rewrite filter_fmap. apply fmap_Permutation, NoDup_Permutation;
    [by apply NoDup_filter|done|].
  intros x. rewrite list_elem_of_filter, <- Hiff. tauto.
Qed.

Lemma sort_filter_fmap_same (db : list Issue) (G : Issue → Issue)
    (P : Issue → Prop) `{!∀ x, Decision (P x)} :
  (∀ x, x ∈ db → P (G x) ∨ P x → G x = x) →
  sort_by order (filter P (G <$> db)) = sort_by order (filter P db).
Proof.
  intros HG. f_equal. rewrite filter_fmap.
  rewrite (filter_ext_elem _ P).
  - apply fmap_id_elem. intros x [HP Hx]%list_elem_of_filter. apply HG; auto.
  - intros x Hx. split; intros HP.
    + rewrite <- (HG x Hx); auto.
    + rewrite (HG x Hx); auto.
Qed.

Lemma server_normalizeOrders_filter (l : list Issue) (k : nat) (y : Issue) :
  NoDup (id <$> l) → l !! k = Some y →
  filter (λ io, BoardsService.io_id io = id y)
    (BoardsService.normalizeOrders id l)
  = [BoardsService.mkIdOrder (id y) ((Z.of_nat k + 1) * 1000)].
Proof.
  intros Hnd Hk.
  apply (filter_key_NoDup BoardsService.io_id
           (BoardsService.normalizeOrders id l)
           (BoardsService.mkIdOrder (id y) ((Z.of_nat k + 1) * 1000))).
  - by rewrite server_normalizeOrders_ids.
  - apply list_elem_of_lookup. exists k.
    by rewrite server_normalizeOrders_lookup, Hk.
Qed.

Lemma server_normalizeOrders_filter_none (l : list Issue) (x : Issue) :
  id x ∉ id <$> l →
  filter (λ io, BoardsService.io_id io = id x)
    (BoardsService.normalizeOrders id l) = [].
Proof.
  intros Hx. apply filter_none. intros io Hio Heq. apply Hx.
  rewrite <- Heq, <- (server_normalizeOrders_ids id l).
  apply list_elem_of_fmap. by exists io.
Qed.

Section MoveColumns.
Variables (db : list Issue) (b i : string) (body : BoardsService.MoveBody)
  (issue : Issue).
Hypothesis Hnd : NoDup (id <$> db).
Hypothesis Hfind : find (λ x, id x = i) db = Some issue.
Hypothesis Hboard : boardId issue = b.
Hypothesis Hdiff :
  ¬ (sprintId issue = BoardsService.body_sprintId body
     ∧ status issue = destinationStatus body).

Local Abbreviation toSp := (BoardsService.body_sprintId body).
Local Abbreviation toSt := (destinationStatus body).
Local Abbreviation toL := (BoardsService.findColumn db b toSp toSt).
Local Abbreviation fromL :=
  (BoardsService.findColumn db b (sprintId issue) (status issue)).
Local Abbreviation fromW := (filter (λ x, id x ≠ i) fromL).
Local Abbreviation scopedIssue := (BoardsService.with_scope issue toSp toSt).
Local Abbreviation g1 :=
  (λ x, if bool_decide (id x = i)
        then with_order (BoardsService.with_scope x toSp toSt)
               ((Z.of_nat (length toL) + 1) * BoardsService.ORDER_STEP)
        else x).
Local Abbreviation upd :=
  (λ (ios : list BoardsService.IdOrder) (x : Issue),
     match last (filter (λ io, BoardsService.io_id io = id x) ios) with
     | Some io => with_order x (BoardsService.io_order io)
     | None => x
     end).
Local Abbreviation G :=
  (λ x, upd (filter (λ it, BoardsService.io_id it ≠ i)
               (BoardsService.normalizeOrders id (toL ++ [scopedIssue])))
          (upd (BoardsService.normalizeOrders id fromW) (g1 x))).

Lemma moveColumns_issue : issue ∈ db ∧ id issue = i.
Proof. by apply find_Some in Hfind. Qed.

Lemma moveColumns_table :
  BoardsService.moveIssue db b i body
  = Some (G <$> db, BoardsService.findScope (G <$> db) b toSp).
Proof.
  rewrite (moveIssue_unfold db b i body issue Hnd Hfind Hboard Hdiff).
  cbv zeta. rewrite !foldl_updateOrder, <- !list_fmap_compose. done.
Qed.

Lemma moveColumns_NoDup_to : NoDup (id <$> toL) ∧ NoDup (id <$> fromW).
Proof.
  split; apply (NoDup_ids_sub db); try done.
  - apply NoDup_fmap_1 with id. unfold BoardsService.findColumn.
    rewrite sort_by_perm. apply (NoDup_ids_sub db); [done| |].
    + apply NoDup_filter. by apply NoDup_fmap_1 in Hnd.
    + by intros x [_ ?]%list_elem_of_filter.
  - by intros x (? & _)%findColumn_elem_of.
  - apply NoDup_filter. apply NoDup_fmap_1 with id.
    unfold BoardsService.findColumn.
    rewrite sort_by_perm. apply (NoDup_ids_sub db); [done| |].
    + apply NoDup_filter. by apply NoDup_fmap_1 in Hnd.
    + by intros x [_ ?]%list_elem_of_filter.
  - by intros x [_ (? & _)%findColumn_elem_of]%list_elem_of_filter.
Qed.

Lemma moveColumns_disjoint (x : Issue) : x ∈ toL → x ∈ fromL → False.
Proof.
  intros (_ & _ & Hsp & Hst)%findColumn_elem_of
         (_ & _ & Hsp' & Hst')%findColumn_elem_of.
  apply Hdiff. split; congruence.
Qed.

Lemma moveColumns_id_in (x y : Issue) (l : list Issue) :
  x ∈ db → y ∈ l → (∀ z, z ∈ l → z ∈ db) → id y = id x → x ∈ l.
Proof.
  intros Hx Hy Hl Hid. replace x with y; [done|].
  apply (NoDup_id_inj db); auto.
Qed.

Lemma moveColumns_toL_db (z : Issue) : z ∈ toL → z ∈ db.
Proof. by intros (? & _)%findColumn_elem_of. Qed.

Lemma moveColumns_fromW_db (z : Issue) : z ∈ fromW → z ∈ db.
Proof. by intros [_ (? & _)%findColumn_elem_of]%list_elem_of_filter. Qed.

Lemma moveColumns_toNext_NoDup : NoDup (id <$> toL ++ [scopedIssue]).
Proof.
  rewrite fmap_app. apply NoDup_app. split; [apply moveColumns_NoDup_to|].
  split; [|apply NoDup_singleton].
  intros k (x & -> & Hx)%list_elem_of_fmap Hk%list_elem_of_singleton.
  simpl in Hk.
  pose proof (moveIssue_toList_other db b i body issue Hnd Hfind Hdiff) as Hto.
  apply (proj1 (Forall_forall _ _) Hto x Hx).
  rewrite Hk. apply moveColumns_issue.
Qed.

Lemma moveColumns_row (x : Issue) :
  x ∈ db →
  (id x = i →
   G x = with_order scopedIssue
           ((Z.of_nat (length toL) + 1) * 1000))
  ∧ (∀ k, toL !! k = Some x → G x = with_order x ((Z.of_nat k + 1) * 1000))
  ∧ (∀ k, fromW !! k = Some x → G x = with_order x ((Z.of_nat k + 1) * 1000))
  ∧ (id x ≠ i → ¬ x ∈ toL → ¬ x ∈ fromW → G x = x).
Proof.
  intros Hx. destruct moveColumns_issue as [Hissue Hid].
  pose proof (moveIssue_toList_other db b i body issue Hnd Hfind Hdiff) as Hto.
  rewrite Forall_forall in Hto.
  assert (∀ y, id y ≠ i →
            filter (λ io, BoardsService.io_id io = id y)
              (filter (λ it, BoardsService.io_id it ≠ i)
                 (BoardsService.normalizeOrders id (toL ++ [scopedIssue])))
            = filter (λ io, BoardsService.io_id io = id y)
                (BoardsService.normalizeOrders id (toL ++ [scopedIssue])))
    as Hskip.
  { intros y Hy. rewrite list_filter_filter. apply filter_ext_elem.
    intros io _. split; [by intros [? _]|]. intros Hio. split; [done|congruence]. }
  split; [|split; [|split]].
  - intros Hxi.
    assert (x = issue) as -> by (apply (NoDup_id_inj db); congruence).
    rewrite bool_decide_true by done. cbn [id with_order BoardsService.with_scope].
    rewrite server_normalizeOrders_filter_none.
    + cbn [last id with_order BoardsService.with_scope].
      rewrite filter_none; [done|].
      intros io [Hne _]%list_elem_of_filter Heq. congruence.
    + intros (y & Hy & [Hne _]%list_elem_of_filter)%list_elem_of_fmap. congruence.
  - intros k Hk. apply list_elem_of_lookup_2 in Hk as Hin.
    pose proof (Hto x Hin) as Hne.
    rewrite bool_decide_false by done.
    rewrite server_normalizeOrders_filter_none.
    + cbn [last]. rewrite (Hskip x Hne).
      rewrite (server_normalizeOrders_filter (toL ++ [scopedIssue]) k x).
      * done.
      * apply moveColumns_toNext_NoDup.
      * by apply lookup_app_l_Some.
    + intros (y & Hy & Hyin)%list_elem_of_fmap.
      apply (moveColumns_disjoint x Hin).
      apply list_elem_of_filter in Hyin as Hyin'. destruct Hyin' as [_ Hyfrom].
      apply (moveColumns_id_in x y); [done|done| |done].
      by intros z (? & _)%findColumn_elem_of.
  - intros k Hk. apply list_elem_of_lookup_2 in Hk as Hin.
    apply list_elem_of_filter in Hin as Hin'. destruct Hin' as [Hne Hfrom].
    rewrite bool_decide_false by done.
    rewrite (server_normalizeOrders_filter fromW k x);
      [|apply moveColumns_NoDup_to|done].
    cbn [last BoardsService.io_order id with_order]. rewrite (Hskip _ Hne).
    rewrite server_normalizeOrders_filter_none; [done|].
    rewrite fmap_app. cbn [id with_order fmap list_fmap BoardsService.with_scope].
    intros [(y & Hy & Hyin)%list_elem_of_fmap|Hy%list_elem_of_singleton]%elem_of_app.
    + apply (moveColumns_disjoint x); [|done].
      apply (moveColumns_id_in x y); [done|done|apply moveColumns_toL_db|done].
    + congruence.
  - intros Hne Hnto Hnfrom. rewrite bool_decide_false by done.
    rewrite server_normalizeOrders_filter_none.
    + cbn [last]. rewrite (Hskip x Hne).
      rewrite server_normalizeOrders_filter_none; [done|].
      rewrite fmap_app.
      intros [(y & Hy & Hyin)%list_elem_of_fmap|Hy%list_elem_of_singleton]
        %elem_of_app.
      * apply Hnto.
        apply (moveColumns_id_in x y); [done|done|apply moveColumns_toL_db|done].
      * simpl in Hy. congruence.
    + intros (y & Hy & Hyin)%list_elem_of_fmap. apply Hnfrom.
      apply (moveColumns_id_in x y); [done|done|apply moveColumns_fromW_db|done].
Qed.

Lemma moveColumns_cases (x : Issue) :
  x ∈ db →
  (x = issue ∧ G x = with_order scopedIssue ((Z.of_nat (length toL) + 1) * 1000))
  ∨ (id x ≠ i ∧ ∃ o, G x = with_order x o)
  ∨ (id x ≠ i ∧ ¬ x ∈ toL ∧ ¬ x ∈ fromL ∧ G x = x).
Proof.
  intros Hx. destruct (moveColumns_row x Hx) as (H1 & H2 & H3 & H4).
  destruct moveColumns_issue as [Hissue Hid].
  destruct (decide (id x = i)) as [Hxi|Hne].
  { left. split; [|by apply H1]. apply (NoDup_id_inj db); congruence. }
  right. destruct (decide (x ∈ toL)) as [Hto|Hnto].
  { left. split; [done|]. apply list_elem_of_lookup in Hto as [k Hk].
    eexists. by apply (H2 k). }
  destruct (decide (x ∈ fromW)) as [Hfrom|Hnfrom].
  { left. split; [done|]. apply list_elem_of_lookup in Hfrom as [k Hk].
    eexists. by apply (H3 k). }
  right. repeat split; try done.
  - intros Hfrom. apply Hnfrom. by apply list_elem_of_filter.
  - by apply H4.
Qed.

(** X17. The columns after a server-side move. When [moveIssue] moves an
    issue to another column of its board, the destination column afterwards
    is its former content followed by the issue, with orders 1000, 2000,
    ...; the source column is its former content without the issue,
    renumbered the same way; every other column of every board, and every
    row outside the two columns, is as before. *)
Theorem moveIssue_columns :
  ∃ db' ret,
    BoardsService.moveIssue db b i body = Some (db', ret)
    ∧ BoardsService.findColumn db' b toSp toSt
      = BoardPage.normalizeOrders (toL ++ [scopedIssue])
    ∧ BoardsService.findColumn db' b (sprintId issue) (status issue)
      = BoardPage.normalizeOrders fromW
    ∧ (∀ b' sp st,
         ¬ (b' = b ∧ sp = toSp ∧ st = toSt) →
         ¬ (b' = b ∧ sp = sprintId issue ∧ st = status issue) →
         BoardsService.findColumn db' b' sp st
         = BoardsService.findColumn db b' sp st)
    ∧ (∀ x, x ∈ db → id x ≠ i → ¬ x ∈ toL → ¬ x ∈ fromL → x ∈ db').
Proof.
  pose (g := G).
  assert (∀ x, x ∈ db →
            (x = issue
             ∧ g x = with_order scopedIssue ((Z.of_nat (length toL) + 1) * 1000))
            ∨ (id x ≠ i ∧ ∃ o, g x = with_order x o)
            ∨ (id x ≠ i ∧ ¬ x ∈ toL ∧ ¬ x ∈ fromL ∧ g x = x)) as Hcases
    by exact moveColumns_cases.
  assert (∀ x, x ∈ db →
            (id x = i →
             g x = with_order scopedIssue ((Z.of_nat (length toL) + 1) * 1000))
            ∧ (∀ k, toL !! k = Some x → g x = with_order x ((Z.of_nat k + 1) * 1000))
            ∧ (∀ k, fromW !! k = Some x →
                 g x = with_order x ((Z.of_nat k + 1) * 1000))
            ∧ (id x ≠ i → ¬ x ∈ toL → ¬ x ∈ fromW → g x = x)) as Hrow
    by exact moveColumns_row.
  exists (g <$> db), (BoardsService.findScope (g <$> db) b toSp).
  split; [apply moveColumns_table|].
  clearbody g.
  destruct moveColumns_issue as [Hissue Hid].
  assert (NoDup db) as Hnd' by (by apply NoDup_fmap_1 in Hnd).
  pose proof (moveIssue_toList_other db b i body issue Hnd Hfind Hdiff) as Hto.
  rewrite Forall_forall in Hto.
  split; [|split; [|split]].
  - unfold BoardsService.findColumn at 1.
    apply (sort_filter_fmap_unique db (toL ++ [issue])).
    + done.
    + apply NoDup_app. split; [|split; [|apply NoDup_singleton]].
      * apply NoDup_fmap_1 with id. apply moveColumns_NoDup_to.
      * intros x Hx ->%list_elem_of_singleton. by apply (Hto issue).
    + intros x. rewrite elem_of_app, list_elem_of_singleton, findColumn_elem_of.
      split.
      * intros [Hx HP].
        destruct (Hcases x Hx)
          as [[-> _]|[(_ & o & Ho)|(_ & _ & _ & Ho)]]; [by right| |].
        -- left. rewrite Ho in HP. by split.
        -- left. rewrite Ho in HP. by split.
      * intros [(Hx & HP)| ->].
        -- split; [done|].
           destruct (Hcases x Hx)
             as [[-> _]|[(_ & o & Ho)|(_ & _ & _ & Ho)]]; [|by rewrite Ho..].
           by destruct (Hto issue); [apply findColumn_elem_of|].
        -- split; [done|].
           destruct (Hrow issue Hissue) as (H1 & _).
           rewrite (H1 Hid). by repeat split.
    + apply list_eq. intros k.
      rewrite list_lookup_fmap, normalizeOrders_lookup.
      destruct (decide (k < length toL)%nat) as [Hlt|Hge].
      * rewrite !lookup_app_l by done.
        destruct (toL !! k) as [x|] eqn:Hk; [|done]. simpl. f_equal.
        apply list_elem_of_lookup_2 in Hk as Hin.
        destruct (Hrow x (moveColumns_toL_db x Hin)) as (_ & H2 & _).
        by apply H2.
      * destruct (decide (k = length toL)) as [->|Hk'].
        -- rewrite !list_lookup_middle by done. simpl. f_equal.
           destruct (Hrow issue Hissue) as (H1 & _). by apply H1.
        -- rewrite !lookup_ge_None_2; [done|rewrite length_app; simpl; lia..].
    + apply normalizeOrders_strictly.
  - unfold BoardsService.findColumn at 1.
    apply (sort_filter_fmap_unique db fromW).
    + done.
    + apply NoDup_fmap_1 with id. apply moveColumns_NoDup_to.
    + intros x. rewrite list_elem_of_filter, !findColumn_elem_of. split.
      * intros [Hx HP].
        destruct (Hcases x Hx)
          as [[-> Ho]|[(Hne & o & Ho)|(Hne & _ & _ & Ho)]];
          rewrite Ho in HP.
        -- destruct HP as (_ & Hsp & Hst). simpl in Hsp, Hst.
           destruct Hdiff. by split.
        -- split; [done|]. by split.
        -- split; [done|]. by split.
      * intros (Hne & Hx & HP). split; [done|].
        destruct (Hcases x Hx)
          as [[-> _]|[(_ & o & Ho)|(_ & _ & _ & Ho)]]; [done|by rewrite Ho..].
    + apply list_eq. intros k.
      rewrite list_lookup_fmap, normalizeOrders_lookup.
      destruct (fromW !! k) as [x|] eqn:Hk; [|done]. simpl. f_equal.
      apply list_elem_of_lookup_2 in Hk as Hin.
      destruct (Hrow x (moveColumns_fromW_db x Hin)) as (_ & _ & H3 & _).
      by apply H3.
    + apply normalizeOrders_strictly.
  - intros b' sp st Hnto Hnfrom. unfold BoardsService.findColumn.
    apply sort_filter_fmap_same. intros x Hx HP.
    destruct (Hcases x Hx)
      as [[-> Ho]|[(Hne & o & Ho)|(Hne & Hxto & Hxfrom & Ho)]]; [| |done].
    + exfalso. rewrite Ho in HP. destruct HP as [(? & ? & ?)|(? & ? & ?)].
      * apply Hnto. simpl in *. repeat split; congruence.
      * apply Hnfrom. repeat split; congruence.
    + destruct (Hrow x Hx) as (_ & _ & _ & H4).
      apply H4; [done| |].
      * intros (_ & ? & ? & ?)%findColumn_elem_of. apply Hnto.
        rewrite Ho in HP. destruct HP as [(? & ? & ?)|(? & ? & ?)];
          repeat split; simpl in *; congruence.
      * intros [_ (_ & ? & ? & ?)%findColumn_elem_of]%list_elem_of_filter.
        apply Hnfrom.
        rewrite Ho in HP. destruct HP as [(? & ? & ?)|(? & ? & ?)];
          repeat split; simpl in *; congruence.
  - intros x Hx Hne Hnto Hnfrom. apply list_elem_of_fmap. exists x.
    split; [|done]. symmetry.
    destruct (Hrow x Hx) as (_ & _ & _ & H4).
    apply H4; [done|done|]. by intros [_ ?]%list_elem_of_filter.
Qed.

End MoveColumns.

Lemma moveIssue_columns_witness :
  ∃ db' ret,
    BoardsService.moveIssue sprint_board "demo" "A"
      (BoardsService.mkMoveBody (Some "s1") (Some in_progress) None)
    = Some (db', ret)
    ∧ BoardsService.findColumn db' "demo" (Some "s1") in_progress
      = [ sample_issue "C" (Some "s1") in_progress 1000;
          sample_issue "A" (Some "s1") in_progress 2000 ].
Proof.
  destruct (moveIssue_columns sprint_board "demo" "A"
              (BoardsService.mkMoveBody (Some "s1") (Some in_progress) None)
              (sample_issue "A" (Some "s1") todo 1000))
    as (db' & ret & Hm & Hto & _).
  - apply (bool_decide_unpack _). vm_compute. exact I.
  - vm_compute. reflexivity.
  - reflexivity.
  - intros [_ H]. discriminate H.
  - exists db', ret. split; [exact Hm|].
    etrans; [exact Hto|]. vm_compute. reflexivity.
Defined.

Lemma foldl_updateOrder_keeps (ios : list BoardsService.IdOrder)
    (db : list Issue) (x : Issue) :
  x ∈ db → Forall (λ io, BoardsService.io_id io ≠ id x) ios →
  x ∈ foldl BoardsService.updateOrder db ios.
Proof.
  intros Hx Hios. rewrite foldl_updateOrder. apply list_elem_of_fmap.
  exists x. split; [|done]. rewrite filter_none; [done|].
  intros io Hio Heq. by apply (proj1 (Forall_forall _ _) Hios io).
Qed.

Lemma sorted_wrt_snoc {A} (R : A → A → Prop) (l : list A) (x : A) :
  sorted_wrt R (l ++ [x]) → sorted_wrt R l ∧ Forall (λ y, R y x) l.
Proof.
  induction l as [|y l IH]; [done|]. simpl. intros [Hy Hs].
  apply Forall_app in Hy as [Hy Hyx]. destruct (IH Hs) as [Hl Hx].
  split; [done|]. constructor; [|done]. by apply Forall_inv in Hyx.
Qed.

Lemma insert_sorted_lex {A} (k1 k2 : A → Z) (x : A) (l : list A) :
  sorted_wrt (λ a b, k2 a < k2 b ∨ (k2 a = k2 b ∧ k1 a ≤ k1 b)) l →
  Forall (λ y, k1 y ≤ k1 x) l →
  sorted_wrt (λ a b, k2 a < k2 b ∨ (k2 a = k2 b ∧ k1 a ≤ k1 b))
    (insert_sorted k2 x l).
Proof.
  induction l as [|y l IH]; intros Hs Hall.
  { simpl. by split. }
  destruct Hs as [Hy Hs]. apply Forall_cons in Hall as [Hyx Hall]. simpl.
  destruct (Z.ltb_spec (k2 x) (k2 y)) as [Hlt|Hge].
  - split; [|by split]. constructor; [by left|].
    apply Forall_forall. intros z Hz.
    pose proof (proj1 (Forall_forall _ _) Hy z Hz) as Hyz. simpl in Hyz.
    left. lia.
  - split; [|by apply IH]. apply Forall_forall. intros z Hz.
    rewrite insert_sorted_perm in Hz. apply elem_of_cons in Hz as [->|Hz].
    + simpl in Hyx. lia.
    + by apply (proj1 (Forall_forall _ _) Hy).
Qed.

Lemma sort_by_lex {A} (k1 k2 : A → Z) (l : list A) :
  ascending k1 l →
  sorted_wrt (λ a b, k2 a < k2 b ∨ (k2 a = k2 b ∧ k1 a ≤ k1 b)) (sort_by k2 l).
Proof.
  induction l as [|x l IH] using rev_ind; intros Hasc; [done|].
  apply sorted_wrt_snoc in Hasc as [Hl Hx].
  rewrite sort_by_snoc. apply insert_sorted_lex; [by apply IH|].
  apply Forall_forall. intros y Hy. rewrite sort_by_elem_of in Hy.
  by apply (proj1 (Forall_forall _ _) Hx).
Qed.

Lemma findScope_sorted (db : list Issue) (b : string) (sp : option string) :
  BoardsService.findScope db b sp
  ≡ₚ filter (λ x, boardId x = b ∧ sprintId x = sp) db
  ∧ sorted_wrt by_status_then_order (BoardsService.findScope db b sp).
Proof.
  unfold BoardsService.findScope. split.
  - by rewrite !sort_by_perm.
  - apply (sort_by_lex order (λ x, BoardsService.statusRank (status x))).
    apply sort_by_ascending.
Qed.

(** X18. The outcome of [moveIssue]. It is refused exactly when no issue
    has the id or the issue belongs to another board. A move to the column
    the issue is in already leaves the table as it is. In every case the
    table keeps its rows in place with their [id], [key] and [boardId], and
    the list returned holds the rows of the destination sprint in the new
    table, each once, sorted by status and within a status by order. *)
Theorem moveIssue_outcome (db : list Issue) (b i : string)
    (body : BoardsService.MoveBody) :
  (is_Some (BoardsService.moveIssue db b i body)
   ↔ ∃ issue, find (λ x, id x = i) db = Some issue ∧ boardId issue = b)
  ∧ (∀ issue, find (λ x, id x = i) db = Some issue → boardId issue = b →
       sprintId issue = BoardsService.body_sprintId body →
       status issue = destinationStatus body →
       ∃ ret, BoardsService.moveIssue db b i body = Some (db, ret))
  ∧ (∀ db' ret, BoardsService.moveIssue db b i body = Some (db', ret) →
       same_identity db db'
       ∧ ret ≡ₚ filter (λ x, boardId x = b
                             ∧ sprintId x = BoardsService.body_sprintId body) db'
       ∧ sorted_wrt by_status_then_order ret).
Proof.
  split; [|split].
  - unfold BoardsService.moveIssue.
    destruct (find (λ x, id x = i) db) as [issue|] eqn:Hfind.
    + destruct (bool_decide_reflect (boardId issue = b)) as [Hb|Hb]; simpl.
      * split; [by eauto|]. intros _.
        match goal with |- context [if ?c then _ else _] => destruct c end;
          [by eexists|].
        match goal with
        | |- context [find ?P ?l] =>
            destruct (find_is_Some P l
                        (BoardsService.mkIdOrder i
                           ((Z.of_nat
                               (length
                                  (BoardsService.findColumn db b
                                     (BoardsService.body_sprintId body)
                                     match BoardsService.body_status body with
                                     | Some s => s
                                     | None =>
                                         if truthy (BoardsService.body_sprintId body)
                                         then todo else backlog
                                     end)) + 1) * 1000))) as [mine Hmine]
        end.
        -- apply list_elem_of_lookup. eexists.
           rewrite server_normalizeOrders_lookup, list_lookup_middle by done.
           simpl. apply find_Some in Hfind as [_ ->]. done.
        -- done.
        -- rewrite Hmine. by eexists.
      * split; [by intros [? ?]|]. intros (x & [= <-] & ?). done.
    + split; [by intros [? ?]|]. by intros (x & ? & _).
  - intros issue Hfind Hb Hsp Hst. unfold BoardsService.moveIssue.
    rewrite Hfind, bool_decide_true by done. simpl.
    fold (destinationStatus body).
    rewrite !bool_decide_true by done. by eexists.
  - intros db' ret Hm.
    apply moveIssue_same_identity in Hm as [Hsame ->].
    split; [done|]. apply findScope_sorted.
Qed.

(** ** The active sprint *)

Lemma filter_fmap_same {A} (G : A → A) (P : A → Prop) `{!∀ x, Decision (P x)}
    (l : list A) :
  (∀ x, x ∈ l → P (G x) ∨ P x → G x = x) →
  filter P (G <$> l) = filter P l.
Proof.
  intros HG. rewrite filter_fmap. rewrite (filter_ext_elem _ P).
  - apply fmap_id_elem. intros x [HP Hx]%list_elem_of_filter. apply HG; auto.
  - intros x Hx. split; intros HP.
    + rewrite <- (HG x Hx); auto.
    + rewrite (HG x Hx); auto.
Qed.

Lemma NoDup_only {A} (l : list A) (a : A) :
  NoDup l → (∀ x, x ∈ l ↔ x = a) → l = [a].
Proof.
  intros Hnd Hl. destruct l as [|x l].
  { assert (a ∈ []) as Ha by (by apply Hl). by apply elem_of_nil in Ha. }
  assert (x = a) as -> by (apply Hl; left).
  f_equal. destruct l as [|y l]; [done|].
  assert (y = a) as -> by (apply Hl; right; left).
  apply NoDup_cons in Hnd as [Hnd _]. destruct Hnd. left.
Qed.

Lemma activeSprints_deactivateBoard (b b' : string) (s : list Sprint) :
  b' ≠ b →
  activeSprints b' (BoardsService.deactivateBoard b s) = activeSprints b' s.
Proof.
  intros Hne. unfold activeSprints, BoardsService.deactivateBoard.
  apply filter_fmap_same. intros x _ HP.
  destruct (bool_decide_reflect (sprint_boardId x = b)) as [Hb|Hb]; [|done].
  destruct (isActive x) eqn:Ha; [|done]. simpl.
  exfalso. destruct HP as [[HP _]|[HP _]]; simpl in HP; congruence.
Qed.

Lemma activeSprints_deactivated (b : string) (s : list Sprint) :
  activeSprints b (BoardsService.deactivateBoard b s) = [].
Proof.
  unfold activeSprints. apply filter_none. intros x Hx [Hb Ha].
  rewrite (deactivateBoard_none_active b s x Hx Hb) in Ha. done.
Qed.

(** X19. Which sprint is active. Creating a sprint as active and activating
    a sprint of the board both leave that sprint as the only active sprint
    of its board and do not change the active sprints of any other board;
    creating a sprint that is not active changes the active sprints of no
    board. (The activation is the one of the service that checks that the
    sprint belongs to the board.) *)
Theorem activation_exclusive (boards : list string) (s : list Sprint)
    (newId b name sprintId : string) :
  NoDup (sprint_id <$> s) →
  (∀ s' row,
     BoardsServiceChecked.createSprint boards s newId b name (Some true)
     = Some (s', row) →
     activeSprints b s' = [row]
     ∧ ∀ b', b' ≠ b → activeSprints b' s' = activeSprints b' s)
  ∧ (∀ act s' row, act ≠ Some true →
       BoardsServiceChecked.createSprint boards s newId b name act
       = Some (s', row) →
       ∀ b', activeSprints b' s' = activeSprints b' s)
  ∧ (∀ s' row,
       BoardsServiceChecked.setActiveSprint s b sprintId = Some (s', row) →
       activeSprints b s' = [row]
       ∧ sprint_id row = sprintId
       ∧ ∀ b', b' ≠ b → activeSprints b' s' = activeSprints b' s).
Proof.
  intros Hnd. split; [|split].
  - intros s' row. unfold BoardsServiceChecked.createSprint.
    destruct (negb (bool_decide (b ∈ boards))); [done|].
    unfold BoardsService.createSprint, BoardsService.insertSprint. simpl.
    case_bool_decide; [done|]. intros [= <- <-]. split.
    + unfold activeSprints. rewrite filter_app.
      fold (activeSprints b (BoardsService.deactivateBoard b s)).
      rewrite activeSprints_deactivated. simpl.
      rewrite filter_cons_True by done. done.
    + intros b' Hne. unfold activeSprints. rewrite filter_app.
      fold (activeSprints b' (BoardsService.deactivateBoard b s)).
      rewrite activeSprints_deactivateBoard by done.
      rewrite filter_cons_False, filter_nil, app_nil_r; [done|].
      simpl. intros [? _]. congruence.
  - intros act s' row Hact. unfold BoardsServiceChecked.createSprint.
    destruct (negb (bool_decide (b ∈ boards))); [done|].
    unfold BoardsService.createSprint, BoardsService.insertSprint.
    assert (default false act = false) as ->.
    { destruct act as [[|]|]; done. }
    simpl. case_bool_decide; [done|]. intros [= <- <-] b'.
    unfold activeSprints. rewrite filter_app.
    rewrite filter_cons_False, filter_nil, app_nil_r; [done|].
    simpl. by intros [_ ?].
  - intros s' row. unfold BoardsServiceChecked.setActiveSprint.
    destruct (find (λ x, sprint_id x = sprintId ∧ sprint_boardId x = b) s)
      as [r0|] eqn:Hcheck; [|done].
    apply find_Some in Hcheck as (Hr0 & Hr0id & Hr0b).
    unfold BoardsService.setActiveSprint. cbv zeta. intros Hact.
    set (tx := BoardsService.deactivateBoard b s) in *.
    assert (∀ x, x ∈ tx → sprint_id x = sprintId → sprint_boardId x = b) as Hown.
    { intros x Hx Hid.
      destruct (deactivateBoard_elem b s x Hx) as (x0 & Hx0 & Hid0 & Hb0 & _).
      assert (x0 = r0) as ->
        by (apply (NoDup_key_inj sprint_id s); congruence).
      congruence. }
    destruct (activate_ids sprintId tx s' row Hact)
      as (Hids & r & Hr & Hrid & Hrow & Hin).
    assert (sprint_boardId row = b) as Hrowb.
    { rewrite Hrow. simpl. by apply Hown. }
    split; [|split].
    + apply NoDup_only.
      * apply NoDup_filter. apply NoDup_fmap_1 with sprint_id.
        rewrite Hids. unfold tx. by rewrite deactivateBoard_ids.
      * intros x. unfold activeSprints. rewrite list_elem_of_filter. split.
        -- intros [[Hb Ha] Hx].
           destruct (activate_elem sprintId tx s' row x Hact Hx)
             as [[_ ?]|[_ Hxtx]]; [done|].
           rewrite (deactivateBoard_none_active b s x Hxtx Hb) in Ha. done.
        -- intros ->. split; [|done]. split; [done|]. by rewrite Hrow.
    + by rewrite Hrow.
    + intros b' Hne. rewrite <- (activeSprints_deactivateBoard b b' s Hne).
      fold tx. unfold BoardsService.activate in Hact.
      destruct (find (λ x, sprint_id x = sprintId) tx) as [r'|] eqn:Hr';
        [|done].
      injection Hact as <- _. unfold activeSprints.
      apply filter_fmap_same. intros x Hx HP.
      destruct (bool_decide_reflect (sprint_id x = sprintId)) as [Hid|]; [|done].
      exfalso. apply find_Some in Hr' as [Hr'in Hr'id].
      destruct HP as [[HP _]|[HP _]]; simpl in HP.
      * apply Hne. rewrite <- HP. by apply Hown.
      * apply Hne. rewrite <- HP. by apply Hown.
Qed.

Lemma activation_exclusive_witness :
  ∃ s' row,
    BoardsServiceChecked.setActiveSprint two_boards "b2" "p3" = Some (s', row)
    ∧ activeSprints "b2" s' = [row].
Proof.
  pose proof (activation_exclusive [] two_boards "" "b2" "" "p3") as H.
  destruct H as (_ & _ & H).
  - apply (bool_decide_unpack _). vm_compute. exact I.
  - eexists _, _. split; [vm_compute; reflexivity|].
    apply (H _ _). vm_compute. reflexivity.
Defined.

(** ** The search controller: what is in flight *)

Lemma queries_abort (p : Props) (ref : option nat) (reqs : list Request) :
  queries_long_enough p reqs → queries_long_enough p (abort ref reqs).
Proof.
  unfold queries_long_enough. intros H. destruct ref as [c|]; [|done]. simpl.
  apply Forall_lookup. intros k r Hk.
  destruct (decide (c = k)) as [->|Hne].
  - rewrite list_lookup_alter_eq in Hk.
    destruct (reqs !! k) as [r0|] eqn:Hr0; simpl in Hk; [|done].
    injection Hk as <-. simpl. by apply (Forall_lookup_1 _ _ _ _ H Hr0).
  - rewrite list_lookup_alter_ne in Hk by done.
    by apply (Forall_lookup_1 _ _ _ _ H Hk).
Qed.

Lemma queries_settle (p : Props) (c : nat) (reqs : list Request) :
  queries_long_enough p reqs →
  queries_long_enough p (alter settleRequest c reqs).
Proof.
  unfold queries_long_enough. intros H.
  apply Forall_lookup. intros k r Hk.
  destruct (decide (c = k)) as [->|Hne].
  - rewrite list_lookup_alter_eq in Hk.
    destruct (reqs !! k) as [r0|] eqn:Hr0; simpl in Hk; [|done].
    injection Hk as <-. simpl. by apply (Forall_lookup_1 _ _ _ _ H Hr0).
  - rewrite list_lookup_alter_ne in Hk by done.
    by apply (Forall_lookup_1 _ _ _ _ H Hk).
Qed.

Lemma quiet_settle (c : nat) (reqs : list Request) :
  quiet reqs → quiet (alter settleRequest c reqs).
Proof.
  intros H k r Hk. destruct (outstanding r) eqn:Ho; [|done].
  apply settle_lookup_outstanding in Hk; [|done]. by rewrite (H k r Hk) in Ho.
Qed.

Lemma tracked_settle_quiet (ref : option nat) (c : nat) (reqs : list Request)
    (r : Request) :
  tracked ref reqs → reqs !! c = Some r → outstanding r = true →
  quiet (alter settleRequest c reqs).
Proof.
  intros Ht Hc Ho k r' Hk. destruct (outstanding r') eqn:Ho'; [|done].
  pose proof (settle_lookup_outstanding _ _ _ _ Hk Ho') as Hk0.
  assert (ref = Some c) as Hc' by (by apply (Ht c r)).
  assert (ref = Some k) as Hk' by (by apply (Ht k r')).
  assert (k = c) as -> by congruence.
  rewrite list_lookup_alter_eq, Hc in Hk. injection Hk as <-.
  by rewrite outstanding_settleRequest in Ho'.
Qed.

Lemma picker_inv_quiet (p : Props) (s : State) :
  quiet (requests s) → queries_long_enough p (requests s) → picker_inv p s.
Proof.
  intros Hq HQ. unfold picker_inv.
  split; [by apply quiet_tracked|]. split; [by apply quiet_tracked|]. by repeat split.
Qed.

Lemma multi_effect_inv (p : Props) (s : State) :
  tracked (cleanup s) (requests s) → queries_long_enough p (requests s) →
  picker_inv p (useEntityMultiPicker.effect p s).
Proof.
  intros Ht HQ.
  assert (quiet (abort (cleanup s) (requests s))) as Hq
    by (by apply tracked_abort_quiet).
  pose proof (queries_abort p (cleanup s) _ HQ) as HQ1.
  unfold useEntityMultiPicker.effect. cbv zeta.
  destruct (open (runCleanup s)) eqn:Hopen; cbn [negb].
  - destruct (Nat.ltb_spec (String.length (trim (debounced (runCleanup s))))
                (minChars p)) as [Hshort|Hlong].
    + apply picker_inv_quiet; cbn.
      * by apply quiet_abort.
      * by apply queries_abort.
    + unfold picker_inv. cbn. cbn in Hopen.
      split; [apply quiet_dispatch; by apply quiet_abort|].
      split; [apply quiet_dispatch; by apply quiet_abort|].
      split; [by rewrite Hopen|]. split; [done|].
      apply Forall_app. split; [by apply queries_abort|].
      apply Forall_singleton. simpl. exact Hlong.
  - by apply picker_inv_quiet.
Qed.

Lemma single_effect_inv (p : Props) (s : State) :
  tracked (cleanup s) (requests s) → queries_long_enough p (requests s) →
  picker_inv p (EntityPicker.effect p s).
Proof.
  intros Ht HQ.
  assert (quiet (abort (cleanup s) (requests s))) as Hq
    by (by apply tracked_abort_quiet).
  pose proof (queries_abort p (cleanup s) _ HQ) as HQ1.
  unfold EntityPicker.effect. cbv zeta.
  destruct (open (runCleanup s)) eqn:Hopen; cbn [negb].
  - destruct (Nat.ltb_spec (String.length (trim (debounced (runCleanup s))))
                (minChars p)) as [Hshort|Hlong].
    + apply picker_inv_quiet; cbn.
      * by apply quiet_abort.
      * by apply queries_abort.
    + unfold picker_inv. cbn. cbn in Hopen.
      split; [apply quiet_dispatch; by apply quiet_abort|].
      split; [apply quiet_dispatch; by apply quiet_abort|].
      split; [by rewrite Hopen|]. split; [done|].
      apply Forall_app. split; [by apply queries_abort|].
      apply Forall_singleton. simpl. exact Hlong.
  - by apply picker_inv_quiet.
Qed.

Lemma elapseDebounce_fields (ms : nat) (s : State) :
  abortRef (elapseDebounce ms s).1 = abortRef s
  ∧ requests (elapseDebounce ms s).1 = requests s
  ∧ cleanup (elapseDebounce ms s).1 = cleanup s
  ∧ open (elapseDebounce ms s).1 = open s
  ∧ loading (elapseDebounce ms s).1 = loading s.
Proof.
  unfold elapseDebounce. destruct (timer s) as [[v rest]|]; [|done].
  by destruct (rest <=? ms)%nat.
Qed.

Lemma picker_inv_fields (p : Props) (s s' : State) :
  abortRef s' = abortRef s → requests s' = requests s →
  cleanup s' = cleanup s → open s' = open s → loading s' = loading s →
  picker_inv p s → picker_inv p s'.
Proof. unfold picker_inv. by intros -> -> -> -> ->. Qed.

Lemma picker_inv_settle (p : Props) (s s' : State) (c : nat) :
  abortRef s' = abortRef s →
  requests s' = alter settleRequest c (requests s) →
  cleanup s' = cleanup s → open s' = open s → loading s' = loading s →
  picker_inv p s → picker_inv p s'.
Proof.
  unfold picker_inv. intros -> -> -> -> -> (H1 & H2 & H3 & H4 & H5).
  split; [by apply tracked_settle|]. split; [by apply tracked_settle|].
  split; [intros Ho; by apply quiet_settle, H3|].
  split; [intros Hl; by apply quiet_settle, H4|].
  by apply queries_settle.
Qed.

Lemma picker_inv_answered (p : Props) (s s' : State) (c : nat) (r : Request) :
  requests s !! c = Some r → settled r = false → aborted r = false →
  requests s' = alter settleRequest c (requests s) →
  picker_inv p s → picker_inv p s'.
Proof.
  intros Hc Hs Ha Hreq (H1 & _ & _ & _ & H5).
  apply picker_inv_quiet; rewrite Hreq.
  - apply (tracked_settle_quiet (abortRef s) c _ r); [done|done|].
    unfold outstanding. by rewrite Hs, Ha.
  - by apply queries_settle.
Qed.

Lemma multi_step_inv (p : Props) (e : Event) (s : State) :
  picker_inv p s → picker_inv p (useEntityMultiPicker.step p e s).
Proof.
  intros H. pose proof H as (H1 & H2 & H3 & H4 & H5). destruct e; simpl.
  - case_bool_decide; [done|]. by apply multi_effect_inv.
  - case_bool_decide; [done|]. by apply (picker_inv_fields p s).
  - destruct (elapseDebounce_fields ms s) as (Ha & Hr & Hc & Ho & Hl).
    destruct (elapseDebounce ms s) as [s' changed]. simpl in *.
    destruct changed.
    + apply multi_effect_inv; by rewrite ?Hc, ?Hr.
    + by apply (picker_inv_fields p s).
  - by apply multi_effect_inv.
  - by apply (picker_inv_fields p s).
  - unfold useEntityMultiPicker.resetResults. apply picker_inv_quiet; cbn.
    + by apply tracked_abort_quiet.
    + by apply queries_abort.
  - case_bool_decide; [done|]. by apply multi_effect_inv.
  - unfold useEntityMultiPicker.onResolve.
    destruct (requests s !! c) as [r|] eqn:Hc; [|done].
    destruct (settled r) eqn:Hs; [done|]. destruct (aborted r) eqn:Ha.
    + by apply (picker_inv_settle p s _ c).
    + apply (picker_inv_answered p s _ c r); try done.
      by destruct (isNewQuery r).
  - unfold useEntityMultiPicker.onReject.
    destruct (requests s !! c) as [r|] eqn:Hc; [|done].
    destruct (settled r) eqn:Hs; [done|]. destruct (aborted r) eqn:Ha.
    + by apply (picker_inv_settle p s _ c).
    + by apply (picker_inv_answered p s _ c r).
  - unfold useEntityMultiPicker.onReject.
    destruct (requests s !! c) as [r|] eqn:Hc; [|done].
    destruct (settled r) eqn:Hs; [done|]. destruct (aborted r) eqn:Ha.
    + by apply (picker_inv_settle p s _ c).
    + by apply (picker_inv_answered p s _ c r).
Qed.

Lemma single_step_inv (p : Props) (e : Event) (s : State) :
  picker_inv p s → picker_inv p (EntityPicker.step p e s).
Proof.
  intros H. pose proof H as (H1 & H2 & H3 & H4 & H5). destruct e; simpl.
  - case_bool_decide; [done|]. by apply single_effect_inv.
  - destruct (open s); case_bool_decide; try done;
      try (by apply (picker_inv_fields p s)); by apply single_effect_inv.
  - destruct (elapseDebounce_fields ms s) as (Ha & Hr & Hc & Ho & Hl).
    destruct (elapseDebounce ms s) as [s' changed]. simpl in *.
    destruct changed.
    + apply single_effect_inv; by rewrite ?Hc, ?Hr.
    + by apply (picker_inv_fields p s).
  - by apply single_effect_inv.
  - by apply (picker_inv_fields p s).
  - done.
  - destruct (open s).
    + apply single_effect_inv; case_bool_decide; cbn;
        first [by apply tracked_abort|by apply queries_abort].
    + apply picker_inv_quiet; case_bool_decide; cbn;
        first [by apply tracked_abort_quiet|by apply queries_abort].
  - unfold EntityPicker.onResolve.
    destruct (requests s !! c) as [r|] eqn:Hc; [|done].
    destruct (settled r) eqn:Hs; [done|]. destruct (aborted r) eqn:Ha.
    + by apply (picker_inv_settle p s _ c).
    + by apply (picker_inv_answered p s _ c r).
  - unfold EntityPicker.onReject.
    destruct (requests s !! c) as [r|] eqn:Hc; [|done].
    destruct (settled r) eqn:Hs; [done|]. destruct (aborted r) eqn:Ha.
    + by apply (picker_inv_settle p s _ c).
    + by apply (picker_inv_answered p s _ c r).
  - unfold EntityPicker.onReject.
    destruct (requests s !! c) as [r|] eqn:Hc; [|done].
    destruct (settled r) eqn:Hs; [done|]. destruct (aborted r) eqn:Ha.
    + by apply (picker_inv_settle p s _ c).
    + by apply (picker_inv_answered p s _ c r).
Qed.

Lemma picker_inv_initial (p : Props) : picker_inv p initial.
Proof. apply picker_inv_quiet; [by intros c r Hc|constructor]. Qed.

Lemma multi_run_inv (p : Props) (es : list Event) (s : State) :
  picker_inv p s → picker_inv p (useEntityMultiPicker.run p es s).
Proof.
  revert s. induction es as [|e es IH]; intros s H; [done|].
  simpl. apply IH. by apply multi_step_inv.
Qed.

Lemma single_run_inv (p : Props) (es : list Event) (s : State) :
  picker_inv p s → picker_inv p (EntityPicker.run p es s).
Proof.
  revert s. induction es as [|e es IH]; intros s H; [done|].
  simpl. apply IH. by apply single_step_inv.
Qed.

(** X20. No search for a query that is too short. Whatever the user and
    the network do to a picker, starting from its initial state, every
    request it has sent carries a query of at least [minChars] characters.
    This holds for both pickers. *)
Theorem picker_query_length (p : Props) (es : list Event) :
  queries_long_enough p (requests (useEntityMultiPicker.run p es initial))
  ∧ queries_long_enough p (requests (EntityPicker.run p es initial)).
Proof.
  split.
  - by destruct (multi_run_inv p es initial (picker_inv_initial p))
      as (_ & _ & _ & _ & ?).
  - by destruct (single_run_inv p es initial (picker_inv_initial p))
      as (_ & _ & _ & _ & ?).
Qed.

(** X21. Nothing in flight behind the user's back. After any sequence of
    events, a picker that is closed has no search request outstanding:
    closing it cancels the running request; and a picker that does not show
    the loading state has none outstanding either. This holds for both
    pickers. *)
Theorem picker_closed_quiet (p : Props) (es : list Event) :
  let multi := useEntityMultiPicker.run p es initial in
  let single := EntityPicker.run p es initial in
  (open multi = false ∨ loading multi = false → outstandingCount multi = 0%nat)
  ∧ (open single = false ∨ loading single = false →
       outstandingCount single = 0%nat).
Proof.
  assert (∀ s, picker_inv p s → open s = false ∨ loading s = false →
               outstandingCount s = 0%nat) as Hcount.
  { intros s (_ & _ & H3 & H4 & _) Hor.
    assert (quiet (requests s)) as Hq by (destruct Hor; auto).
    unfold outstandingCount. rewrite filter_none; [done|].
    intros r Hr Ho. apply list_elem_of_lookup in Hr as [c Hc].
    by rewrite (Hq c r Hc) in Ho. }
  split; apply Hcount.
  - apply multi_run_inv, picker_inv_initial.
  - apply single_run_inv, picker_inv_initial.
Qed.

(** ** The multi picker: selection and keyboard *)

Lemma canSelectMore_room (cfg : MultiSelect.Config) (value : list Entity) (m : nat) :
  MultiSelect.canSelectMore cfg value = true →
  MultiSelect.maxSelected cfg = Some m → (length value < m)%nat.
Proof.
  unfold MultiSelect.canSelectMore. intros H Hm. rewrite Hm in H.
  by apply Nat.ltb_lt.
Qed.

Lemma add_changed (cfg : MultiSelect.Config) (value : list Entity)
    (item : Entity) (next : list Entity) :
  MultiSelect.changed (MultiSelect.add cfg value item) = Some next →
  next = value ++ [item]
  ∧ MultiSelect.canSelectMore cfg value = true
  ∧ ent_id item ∉ ent_id <$> value.
Proof.
  unfold MultiSelect.add.
  destruct (MultiSelect.canSelectMore cfg value); [|done]. simpl.
  case_bool_decide as Hin; [done|]. simpl. intros [= <-]. done.
Qed.

Lemma add_valid (cfg : MultiSelect.Config) (value : list Entity)
    (item : Entity) (next : list Entity) :
  valid_selection cfg value →
  MultiSelect.changed (MultiSelect.add cfg value item) = Some next →
  valid_selection cfg next.
Proof.
  intros [Hnd Hmax] (-> & Hroom & Hfresh)%add_changed. split.
  - rewrite fmap_app. apply NoDup_app. split; [done|].
    split; [|apply NoDup_singleton].
    intros i Hi ->%list_elem_of_singleton. done.
  - intros m Hm. rewrite length_app. simpl.
    pose proof (canSelectMore_room cfg value m Hroom Hm). lia.
Qed.

Lemma filter_valid (cfg : MultiSelect.Config) (value : list Entity)
    (P : Entity → Prop) `{!∀ v, Decision (P v)} :
  valid_selection cfg value → valid_selection cfg (filter P value).
Proof.
  intros [Hnd Hmax]. split.
  - apply NoDup_fmap_2_strong; [|apply NoDup_filter; by apply NoDup_fmap_1 in Hnd].
    intros x y [_ Hx]%list_elem_of_filter [_ Hy]%list_elem_of_filter.
    by apply (NoDup_key_inj ent_id value).
  - intros m Hm. pose proof (length_filter P value). specialize (Hmax m Hm). lia.
Qed.

(** X22. The selection stays valid. Starting from a selection without
    repeated ids and within [maxSelected], whatever a handler of the multi
    picker passes to [onChange] is again such a selection: [add] appends an
    entity only if there is room and its id is new, [removeById] removes the
    entity with the id and nothing else, [clearAll] empties the selection,
    and neither a key press nor a created entity can do anything else. *)
Theorem selection_stays_valid (p : Props) (cfg : MultiSelect.Config)
    (value : list Entity) (s : State) :
  valid_selection cfg value →
  (∀ item next,
     MultiSelect.changed (MultiSelect.add cfg value item) = Some next →
     valid_selection cfg next ∧ next = value ++ [item])
  ∧ (∀ i, ∃ next,
       MultiSelect.changed (MultiSelect.removeById value i) = Some next
       ∧ valid_selection cfg next
       ∧ ¬ i ∈ ent_id <$> next
       ∧ ∀ v, v ∈ next ↔ v ∈ value ∧ ent_id v ≠ i)
  ∧ MultiSelect.changed MultiSelect.clearAll = Some []
  ∧ (∀ key next,
       MultiSelect.changed (MultiSelect.onKeyDown p cfg value s key) = Some next →
       valid_selection cfg next)
  ∧ (∀ result next,
       MultiSelect.changed (MultiSelect.afterCreate cfg value result).1
       = Some next →
       valid_selection cfg next).
Proof.
  intros Hvalid. split; [|split; [|split; [done|split]]].
  - intros item next Hadd. split; [by apply (add_valid cfg value item)|].
    by apply add_changed in Hadd as (? & _).
  - intros i. eexists. split; [done|]. split; [by apply filter_valid|]. split.
    + intros (v & -> & [Hne _]%list_elem_of_filter)%list_elem_of_fmap. done.
    + intros v. rewrite list_elem_of_filter. tauto.
  - intros key next. unfold MultiSelect.onKeyDown.
    destruct (MultiSelect.disabled cfg); [done|].
    case_bool_decide; [done|].
    match goal with |- context [if ?c then _ else _] => destruct c end; [done|].
    match goal with |- context [if ?c then _ else _] => destruct c end.
    { destruct (last value) as [v|]; [|done]. simpl. intros [= <-].
      by apply filter_valid. }
    destruct (negb (open s)); [done|].
    destruct key; try done.
    destruct (MultiSelect.getActiveOption p cfg value s) as [|item|]; try done.
    + by destruct (negb (loading s)).
    + simpl. by apply add_valid.
  - intros [created|] next; simpl; [|done]. by apply add_valid.
Qed.

Lemma selection_stays_valid_witness :
  MultiSelect.changed (MultiSelect.removeById sample_selection "8")
  = Some [ mkEntity "7" "Ada" None; mkEntity "9" "Cy" None ]
  ∧ valid_selection (MultiSelect.mkConfig (Some 3%nat) false false false)
      [ mkEntity "7" "Ada" None; mkEntity "9" "Cy" None ].
Proof.
  set (cfg := MultiSelect.mkConfig (Some 3%nat) false false false).
  assert (valid_selection cfg sample_selection) as Hvalid.
  { split.
    - apply (bool_decide_unpack _). vm_compute. exact I.
    - intros m [= <-]. simpl. lia. }
  destruct (selection_stays_valid (mkProps 2 250) cfg sample_selection initial
              Hvalid) as (_ & Hremove & _).
  destruct (Hremove "8") as (next & Hnext & Hv & _).
  vm_compute in Hnext. injection Hnext as <-. split; [by vm_compute|exact Hv].
Defined.

Lemma visibleItems_elem (value : list Entity) (s : State) (item : Entity) :
  item ∈ MultiSelect.visibleItems value s
  ↔ item ∈ items s ∧ ent_id item ∉ ent_id <$> value.
Proof.
  unfold MultiSelect.visibleItems, MultiSelect.selectedIds.
  rewrite list_elem_of_filter. tauto.
Qed.

Lemma getActiveOption_item (p : Props) (cfg : MultiSelect.Config)
    (value : list Entity) (s : State) (item : Entity) :
  MultiSelect.getActiveOption p cfg value s = MultiSelect.OptItem item →
  item ∈ MultiSelect.visibleItems value s
  ∧ MultiSelect.canCreate p cfg value s = false.
Proof.
  unfold MultiSelect.getActiveOption.
  destruct (MultiSelect.canCreate p cfg value s) eqn:Hc.
  - assert (MultiSelect.visibleItems value s = []) as ->.
    { unfold MultiSelect.canCreate in Hc.
      apply andb_true_iff in Hc as [_ Hlen]. apply Nat.eqb_eq in Hlen.
      by apply nil_length_inv. }
    destruct (activeIndex s =? 0)%nat; [done|]. by rewrite lookup_nil.
  - destruct (MultiSelect.visibleItems value s !! activeIndex s) as [it|] eqn:Hit;
      [|done].
    intros [= <-]. split; [|done]. by apply list_elem_of_lookup_2 in Hit.
Qed.

Lemma getActiveOption_create (p : Props) (cfg : MultiSelect.Config)
    (value : list Entity) (s : State) :
  MultiSelect.getActiveOption p cfg value s = MultiSelect.OptCreate →
  MultiSelect.canCreate p cfg value s = true ∧ activeIndex s = 0%nat.
Proof.
  unfold MultiSelect.getActiveOption.
  destruct (MultiSelect.canCreate p cfg value s).
  - destruct (Nat.eqb_spec (activeIndex s) 0); [done|].
    by destruct (_ !! _).
  - by destruct (_ !! _).
Qed.

Lemma canCreate_true (p : Props) (cfg : MultiSelect.Config)
    (value : list Entity) (s : State) :
  MultiSelect.canCreate p cfg value s = true →
  open s = true ∧ MultiSelect.allowCreate cfg = true
  ∧ MultiSelect.hasOnCreate cfg = true
  ∧ MultiSelect.canSelectMore cfg value = true
  ∧ (minChars p ≤ String.length (trim (input s)))%nat
  ∧ truthy (error s) = false
  ∧ MultiSelect.alreadySelectedByLabel value s = false
  ∧ MultiSelect.visibleItems value s = [].
Proof.
  unfold MultiSelect.canCreate. rewrite !andb_true_iff, !negb_true_iff.
  intros (((((((? & ?) & ?) & ?) & ?%Nat.leb_le) & ?) & ?) & ?%Nat.eqb_eq).
  repeat split; try done. by apply nil_length_inv.
Qed.

(** X23. The keys that change the selection. On an enabled, open multi
    picker, Enter on a highlighted result adds that result, which is never
    a selected one, unless the selection is full; Enter on the create row,
    which is shown only without visible results, changes nothing by itself
    and asks [onCreate] for the trimmed input unless a search is loading.
    Backspace on a blank input removes the entity selected last and nothing
    else, open or closed; on other input it leaves the selection alone. *)
Theorem keyboard_selects (p : Props) (cfg : MultiSelect.Config)
    (value : list Entity) (s : State) :
  MultiSelect.disabled cfg = false →
  (open s = true → ∀ item,
     MultiSelect.getActiveOption p cfg value s = MultiSelect.OptItem item →
     item ∈ items s ∧ ¬ ent_id item ∈ ent_id <$> value
     ∧ MultiSelect.changed (MultiSelect.onKeyDown p cfg value s MultiSelect.Enter)
       = if MultiSelect.canSelectMore cfg value then Some (value ++ [item])
         else None)
  ∧ (open s = true →
     MultiSelect.getActiveOption p cfg value s = MultiSelect.OptCreate →
     MultiSelect.visibleItems value s = []
     ∧ MultiSelect.changed (MultiSelect.onKeyDown p cfg value s MultiSelect.Enter)
       = None
     ∧ MultiSelect.creating (MultiSelect.onKeyDown p cfg value s MultiSelect.Enter)
       = if loading s then None
         else if bool_decide (trim (input s) = "") then None
         else Some (trim (input s)))
  ∧ (trim (input s) = "" → ∀ init v, value = init ++ [v] →
     NoDup (ent_id <$> value) →
     MultiSelect.changed
       (MultiSelect.onKeyDown p cfg value s MultiSelect.Backspace)
     = Some init)
  ∧ (trim (input s) ≠ "" →
     MultiSelect.changed
       (MultiSelect.onKeyDown p cfg value s MultiSelect.Backspace)
     = None).
Proof.
  intros Hen. split; [|split; [|split]].
  - intros Hopen item Hopt.
    destruct (getActiveOption_item p cfg value s item Hopt) as [Hvis _].
    apply visibleItems_elem in Hvis as [Hin Hfresh].
    split; [done|]. split; [done|].
    unfold MultiSelect.onKeyDown. rewrite Hen, Hopen, Hopt. simpl.
    unfold MultiSelect.add.
    destruct (MultiSelect.canSelectMore cfg value); [|done]. simpl.
    by rewrite bool_decide_false.
  - intros Hopen Hopt.
    destruct (getActiveOption_create p cfg value s Hopt) as [Hc _].
    destruct (canCreate_true p cfg value s Hc)
      as (_ & _ & Hon & Hmore & _ & _ & _ & Hvis).
    split; [done|].
    unfold MultiSelect.onKeyDown. rewrite Hen, Hopen, Hopt. simpl.
    unfold MultiSelect.createAndAdd. rewrite Hon, Hmore. simpl.
    by destruct (loading s).
  - intros Hblank init v -> Hnd.
    unfold MultiSelect.onKeyDown. rewrite Hen. simpl.
    rewrite andb_false_r. rewrite Hblank, bool_decide_true by done.
    rewrite length_app, last_snoc. simpl.
    replace (0 <? length init + 1)%nat with true
      by (symmetry; apply Nat.ltb_lt; lia).
    simpl. f_equal. rewrite filter_app, filter_cons_False, filter_nil, app_nil_r;
      [|by intros ?].
    apply filter_Forall_id, Forall_forall. intros x Hx Heq.
    rewrite fmap_app in Hnd. apply NoDup_app in Hnd as (_ & Hdis & _).
    apply (Hdis (ent_id x)).
    + apply list_elem_of_fmap. by exists x.
    + rewrite Heq. by apply list_elem_of_singleton.
  - intros Hinput.
    unfold MultiSelect.onKeyDown. rewrite Hen. simpl.
    rewrite andb_false_r. rewrite (bool_decide_false (trim (input s) = "")) by done.
    simpl. by destruct (negb (open s)).
Qed.

Lemma keyboard_selects_witness :
  MultiSelect.changed
    (MultiSelect.onKeyDown (mkProps 2 250)
       (MultiSelect.mkConfig None false false false) sample_selection initial
       MultiSelect.Backspace)
  = Some [ mkEntity "7" "Ada" None; mkEntity "8" "Bob" None ].
Proof.
  refine (proj1 (proj2 (proj2 (keyboard_selects (mkProps 2 250)
            (MultiSelect.mkConfig None false false false) sample_selection
            initial _))) _ [ mkEntity "7" "Ada" None; mkEntity "8" "Bob" None ]
            (mkEntity "9" "Cy" None) _ _).
  - reflexivity.
  - reflexivity.
  - reflexivity.
  - apply (bool_decide_unpack _). vm_compute. exact I.
Defined.

(** X24. The keys that move. A disabled picker ignores every key. Escape
    closes the picker; ArrowDown and Enter open a closed picker and do
    nothing else. On an open picker ArrowDown moves the highlight one
    option down and ArrowUp one up, and neither leaves the range of the
    options: ArrowDown stops at the last option (and brings a highlight that
    is beyond it back to it), ArrowUp stops at the first. None of these
    keys changes the selection. *)
Theorem keyboard_moves (p : Props) (cfg : MultiSelect.Config)
    (value : list Entity) (s : State) :
  let total := MultiSelect.totalOptions p cfg value s in
  let last_index := Nat.max (total - 1) 0 in
  (MultiSelect.disabled cfg = true →
     ∀ key, MultiSelect.onKeyDown p cfg value s key = MultiSelect.nothing)
  ∧ (MultiSelect.disabled cfg = false →
     MultiSelect.onKeyDown p cfg value s MultiSelect.Escape
     = MultiSelect.mkOutcome false None [Open false] None None
     ∧ (open s = false →
          MultiSelect.onKeyDown p cfg value s MultiSelect.ArrowDown
          = MultiSelect.mkOutcome false None [Open true] None None
          ∧ MultiSelect.onKeyDown p cfg value s MultiSelect.Enter
            = MultiSelect.mkOutcome false None [Open true] None None
          ∧ MultiSelect.onKeyDown p cfg value s MultiSelect.ArrowUp
            = MultiSelect.nothing)
     ∧ (open s = true →
          ∃ j, MultiSelect.onKeyDown p cfg value s MultiSelect.ArrowDown
               = MultiSelect.mkOutcome true None [Highlight j] None None
               ∧ (j ≤ last_index)%nat
               ∧ ((activeIndex s < last_index)%nat → j = (activeIndex s + 1)%nat)
               ∧ ((last_index ≤ activeIndex s)%nat → j = last_index)
               ∧ MultiSelect.onKeyDown p cfg value s MultiSelect.ArrowUp
                 = MultiSelect.mkOutcome true None
                     [Highlight (activeIndex s - 1)%nat] None None
               ∧ ((activeIndex s ≤ last_index)%nat →
                    (activeIndex s - 1 ≤ last_index)%nat)))
  ∧ (∀ key, key ≠ MultiSelect.Enter → key ≠ MultiSelect.Backspace →
       MultiSelect.changed (MultiSelect.onKeyDown p cfg value s key) = None).
Proof.
  intros total last_index. split; [|split].
  - intros Hdis key. unfold MultiSelect.onKeyDown. by rewrite Hdis.
  - intros Hen. unfold MultiSelect.onKeyDown. rewrite Hen. simpl.
    split; [done|]. split.
    + intros ->. simpl. done.
    + intros ->. simpl. fold total. fold last_index.
      exists (Nat.min (activeIndex s + 1) last_index).
      split; [done|]. split; [lia|]. split; [lia|]. split; [lia|].
      split; [|lia]. by rewrite Nat.max_0_r.
  - intros key Hk1 Hk2. unfold MultiSelect.onKeyDown.
    destruct (MultiSelect.disabled cfg); [done|].
    case_bool_decide; [done|].
    destruct key; try done; simpl; by destruct (open s).
Qed.

(** ** A sprint move, end to end *)

Lemma filter_filter_and {A} (P Q R : A → Prop) `{!∀ x, Decision (P x)}
    `{!∀ x, Decision (Q x)} `{!∀ x, Decision (R x)} (l : list A) :
  (∀ x, R x ↔ P x ∧ Q x) → filter P (filter Q l) = filter R l.
Proof.
  intros HR. induction l as [|x l IH]; [done|].
  rewrite !filter_cons.
  pose proof (HR x) as Hx.
  destruct (decide (Q x)) as [HQ|HQ]; rewrite ?filter_cons;
    destruct (decide (R x)) as [Hr|Hr]; try destruct (decide (P x)) as [HP|HP];
    rewrite ?IH; try done; exfalso; tauto.
Qed.

Lemma move_onMutate_out (k : JiraQueries.QueryKey) (qc : JiraQueries.QueryCache)
    (i : string) (toSprintId : option string) :
  Forall (λ it, sprintId it = k.2) (JiraQueries.cachedList qc k) →
  toSprintId ≠ k.2 →
  JiraQueries.cachedList (useMoveIssue.onMutate k qc i toSprintId).1 k
  = filter (λ it, id it ≠ i) (JiraQueries.cachedList qc k).
Proof.
  intros Hscope Hne. unfold useMoveIssue.onMutate. cbv zeta. simpl.
  rewrite cachedList_set, filter_fmap.
  rewrite (filter_ext_elem _ (λ it, id it ≠ i)).
  - apply fmap_id_elem. intros it [Hid _]%list_elem_of_filter.
    by rewrite bool_decide_false.
  - intros it Hit.
    pose proof (proj1 (Forall_forall _ _) Hscope it Hit) as Hsp.
    destruct (bool_decide_reflect (id it = i)); simpl; split;
      try done; by intros ?.
Qed.

(** X25. The refetch confirms the move. Let the cached list be what [list]
    returns for the partition of the route. When an issue is moved to
    another sprint (or to the backlog), the optimistic write removes it from
    the list; if the patch endpoint accepts the request that the client
    sends for the move, the list it returns afterwards for the partition is
    exactly that list, and the moved issue carries the new sprint; the
    endpoint refuses only an issue the table does not hold, and then the
    optimistic write had changed nothing. *)
Theorem refetch_confirms_move (qc : JiraQueries.QueryCache)
    (db : IssuesService.Table) (b : string) (sp : option string) (i : string)
    (toSprintId : option string) :
  NoDup (id <$> db) →
  let k : JiraQueries.QueryKey := (b, sp) in
  JiraQueries.cachedList qc k = IssuesTable.list db b sp →
  toSprintId ≠ sp →
  let next :=
    JiraQueries.cachedList (useMoveIssue.onMutate k qc i toSprintId).1 k in
  (∀ db' row,
     IssuesService.patch db i (JiraClient.moveIssueBody toSprintId)
     = Some (db', row) →
     IssuesTable.list db' b sp = next
     ∧ sprintId row = toSprintId
     ∧ (toSprintId = None → status row = backlog)
     ∧ ¬ i ∈ id <$> next)
  ∧ (IssuesService.patch db i (JiraClient.moveIssueBody toSprintId) = None →
     next = JiraQueries.cachedList qc k).
Proof.
  intros Hnd k Hqc Hne next.
  assert (Forall (λ it, sprintId it = k.2) (JiraQueries.cachedList qc k)) as Hsc.
  { rewrite Hqc. apply Forall_forall. intros x Hx.
    unfold IssuesTable.list in Hx. rewrite sort_by_elem_of in Hx.
    by apply list_elem_of_filter in Hx as [[_ ?] _]. }
  assert (next = sort_by order
                   (filter (λ x, (boardId x = b ∧ sprintId x = sp) ∧ id x ≠ i) db))
    as Hnext.
  { unfold next. rewrite (move_onMutate_out k qc i toSprintId Hsc Hne), Hqc.
    unfold IssuesTable.list. rewrite sort_by_filter. f_equal.
    apply filter_filter_and. intros x. tauto. }
  split.
  - intros db' row. unfold IssuesService.patch.
    destruct (find (λ x, id x = i) db) as [existing|] eqn:Hfind; [|done].
    intros Hup.
    destruct (patchData_identity existing (JiraClient.moveIssueBody toSprintId))
      as (H1 & H2 & H3).
    apply update_Some in Hup as (row0 & Hrow0 & Hid0 & -> & -> & _ & _);
      [|done..].
    split; [|split; [|split]].
    + rewrite Hnext. unfold IssuesTable.list. f_equal.
      rewrite (filter_fmap _ (λ x, boardId x = b ∧ sprintId x = sp) db).
      rewrite (filter_ext_elem _ (λ x, (boardId x = b ∧ sprintId x = sp) ∧ id x ≠ i)).
      * apply fmap_id_elem. intros x [[_ Hid] _]%list_elem_of_filter.
        by rewrite bool_decide_false.
      * intros x _. destruct (bool_decide_reflect (id x = i)) as [Hid|Hid].
        -- simpl. split; [|tauto]. intros [_ Hsp]. by destruct Hne.
        -- tauto.
    + done.
    + intros ->. done.
    + rewrite Hnext. intros (x & -> & Hx)%list_elem_of_fmap.
      rewrite sort_by_elem_of in Hx.
      by apply list_elem_of_filter in Hx as [[_ ?] _].
  - intros Hnone. unfold next.
    rewrite (move_onMutate_out k qc i toSprintId Hsc Hne).
    apply filter_Forall_id, Forall_forall. intros x Hx Hid.
    unfold IssuesService.patch in Hnone.
    destruct (find (λ y, id y = i) db) as [existing|] eqn:Hfind.
    + unfold IssuesService.update in Hnone. by rewrite Hfind in Hnone.
    + apply find_None in Hfind. rewrite Forall_forall in Hfind.
      apply (Hfind x); [|done]. rewrite Hqc in Hx.
      unfold IssuesTable.list in Hx. rewrite sort_by_elem_of in Hx.
      by apply list_elem_of_filter in Hx as [_ ?].
Qed.

Lemma refetch_confirms_move_witness :
  ∃ db' row,
    IssuesService.patch sprint_board "B" (JiraClient.moveIssueBody None)
    = Some (db', row)
    ∧ IssuesTable.list db' "demo" (Some "s1")
      = [ sample_issue "A" (Some "s1") todo 1000;
          sample_issue "C" (Some "s1") in_progress 1000 ]
    ∧ status row = backlog.
Proof.
  destruct (IssuesService.patch sprint_board "B" (JiraClient.moveIssueBody None))
    as [[db' row]|] eqn:Hp; [|by vm_compute in Hp].
  exists db', row. split; [done|].
  destruct (refetch_confirms_move
              {[ ("demo", Some "s1")
                 := IssuesTable.list sprint_board "demo" (Some "s1") ]}
              sprint_board "demo" (Some "s1") "B" None) as [H _].
  - apply (bool_decide_unpack _). vm_compute. exact I.
  - vm_compute. reflexivity.
  - done.
  - destruct (H db' row Hp) as (Hl & _ & Hst & _). split; [|by apply Hst].
    rewrite Hl. vm_compute. reflexivity.
Defined.

(** ** Short input in the multi picker *)

Lemma abort_length (ref : option nat) (reqs : list Request) :
  length (abort ref reqs) = length reqs.
Proof. destruct ref; [apply length_alter|done]. Qed.

Lemma quiet_count (reqs : list Request) :
  quiet reqs → length (filter (λ r, outstanding r = true) reqs) = 0%nat.
Proof.
  intros Hq. rewrite filter_none; [done|].
  intros r Hr Ho. apply list_elem_of_lookup in Hr as [c Hc].
  by rewrite (Hq c r Hc) in Ho.
Qed.

Lemma multi_typed_reset (p : Props) (s : State) (next : string) :
  let s2 := useEntityMultiPicker.step p ResetResults
              (useEntityMultiPicker.step p (Input next) s) in
  input s2 = next ∧ open s2 = open s ∧ debounced s2 = debounced s
  ∧ lastQueryRef s2 = lastQueryRef s
  ∧ (items s2 = [] ∧ error s2 = None ∧ loading s2 = false
     ∧ activeIndex s2 = 0%nat)
  ∧ length (requests s2) = length (requests s).
Proof.
  simpl. case_bool_decide; simpl; by rewrite abort_length.
Qed.

(** X26. Short input in the multi picker. When the text typed into the
    multi picker is shorter than [minChars], its change handler keeps the
    text, opens the list and empties the results, the error and the
    highlight. If the picker was open, or the debounced text is too short as
    well, nothing is loading afterwards, no request is outstanding and none
    was sent. If the picker was closed and the debounced text is still long
    enough, opening it starts a search for that earlier text: the picker is
    loading and exactly that request is outstanding. *)
Theorem short_input_clears (p : Props) (s : State) (next : string) :
  (String.length (trim next) < minChars p)%nat →
  picker_inv p s →
  let s' := useEntityMultiPicker.run p (multiOnChange p next) s in
  let earlier := trim (debounced s) in
  input s' = next ∧ open s' = true
  ∧ items s' = [] ∧ error s' = None ∧ activeIndex s' = 0%nat
  ∧ (open s = true ∨ (String.length earlier < minChars p)%nat →
     loading s' = false ∧ outstandingCount s' = 0%nat
     ∧ length (requests s') = length (requests s))
  ∧ (open s = false → (minChars p ≤ String.length earlier)%nat →
     loading s' = true ∧ outstandingCount s' = 1%nat
     ∧ length (requests s') = S (length (requests s))
     ∧ last (requests s')
       = Some (mkRequest earlier
                 (negb (bool_decide (earlier = lastQueryRef s))) false false)).
Proof.
  intros Hshort Hinv s' earlier. subst s'. unfold multiOnChange.
  rewrite (proj2 (Nat.ltb_lt _ _) Hshort). simpl app.
  unfold useEntityMultiPicker.run. cbn [foldl].
  destruct (multi_typed_reset p s next)
    as (Hin & Hop & Hdeb & Hlq & (Hit & Her & Hlo & Hai) & Hlen).
  cbv zeta in Hin, Hop, Hdeb, Hlq, Hit, Her, Hlo, Hai, Hlen.
  assert (picker_inv p (useEntityMultiPicker.step p ResetResults
                          (useEntityMultiPicker.step p (Input next) s)))
    as Hinv2 by (by do 2 apply multi_step_inv).
  set (s2 := useEntityMultiPicker.step p ResetResults
               (useEntityMultiPicker.step p (Input next) s)) in *.
  clearbody s2.
  assert (quiet (requests s2)) as Hq2.
  { destruct Hinv2 as (_ & _ & _ & H4 & _). by apply H4. }
  cbn [useEntityMultiPicker.step].
  destruct (open s) eqn:Hopen.
  - rewrite bool_decide_true by done.
    do 5 (split; [done|]). split; [|done]. intros _.
    split; [done|]. split; [by apply quiet_count|done].
  - rewrite bool_decide_false by (by rewrite Hop).
    assert (quiet (abort (abortRef s2) (abort (cleanup s2) (requests s2))))
      as Hq3 by (by do 2 apply quiet_abort).
    unfold useEntityMultiPicker.effect. cbn -[Nat.ltb trim].
    rewrite Hdeb. fold earlier.
    destruct (Nat.ltb_spec (String.length earlier) (minChars p)) as [Hs|Hl];
      cbn -[trim].
    + do 5 (split; [done|]). split; [|intros _ ?; lia]. intros _.
      split; [done|]. split; [by apply quiet_count|].
      by rewrite !abort_length.
    + rewrite Hit, Hai, Hlq.
      do 5 (split; [done|]). split; [intros [?|?]; [done|lia]|]. intros _ _.
      split; [done|]. unfold outstandingCount. cbn -[trim].
      rewrite filter_app, !length_app, (quiet_count _ Hq3).
      rewrite !abort_length, last_snoc. split; [done|]. split; [simpl; lia|done].
Qed.

Lemma short_input_clears_witness :
  let p := mkProps 2 250 in
  let s := useEntityMultiPicker.run p
             [Open true; Input "jo"; Elapse 250; Open false] initial in
  let s' := useEntityMultiPicker.run p (multiOnChange p "j") s in
  loading s' = true ∧ outstandingCount s' = 1%nat
  ∧ req_query <$> requests s' = ["jo"; "jo"].
Proof.
  intros p s s'.
  destruct (short_input_clears p s "j") as (_ & _ & _ & _ & _ & _ & H).
  - vm_compute. lia.
  - apply multi_run_inv, picker_inv_initial.
  - destruct H as (Hl & Hc & _); [reflexivity|vm_compute; lia|].
    split; [exact Hl|]. split; [exact Hc|]. vm_compute. reflexivity.
Defined.

(** ** A creation, end to end *)

Lemma IssuesTable_list_snoc (db : IssuesService.Table) (r : Issue) (b : string)
    (sp : option string) :
  IssuesTable.list (db ++ [r]) b sp
  = if decide (boardId r = b ∧ sprintId r = sp)
    then insert_sorted order r (IssuesTable.list db b sp)
    else IssuesTable.list db b sp.
Proof.
  unfold IssuesTable.list, IssuesService.Table.
  rewrite filter_app, filter_cons, filter_nil.
  destruct (decide (boardId r = b ∧ sprintId r = sp)).
  - by rewrite sort_by_snoc.
  - by rewrite app_nil_r.
Qed.

(** X27. The creation, end to end. Once the server has created the issue,
    the cached list is the former list followed by the created row, which
    agrees with the temporary row of the optimistic write on everything but
    [id] and [key]. If the issue belongs to the partition of the route and
    its order is not below the orders of the list, the list the server
    returns afterwards is exactly this list; if it belongs to another
    partition, the server returns the former list, without the row that is
    on screen. *)
Theorem refetch_confirms_create (qc : JiraQueries.QueryCache)
    (db : IssuesService.Table) (b : string) (sp : option string)
    (uuid newId : string) (issue : useCreateIssue.CreateIssueInput)
    (db' : IssuesService.Table) (row : Issue) :
  let k : JiraQueries.QueryKey := (b, sp) in
  let before := JiraQueries.cachedList qc k in
  let started := useCreateIssue.onMutate k qc uuid issue in
  let temp :=
    useCreateIssue.optimistic issue (useCreateIssue.tempId started.2) in
  let settled :=
    JiraQueries.cachedList
      (useCreateIssue.onSuccess k started.1 row (Some started.2)) k in
  before = IssuesTable.list db b sp →
  ¬ useCreateIssue.tempId started.2 ∈ id <$> before →
  IssuesTable.create db newId (JiraClient.createIssueBody issue)
  = Some (db', row) →
  settled = before ++ [row]
  ∧ (id row = newId ∧ ¬ newId ∈ id <$> db
     ∧ boardId row = boardId temp ∧ sprintId row = sprintId temp
     ∧ status row = status temp ∧ order row = order temp
     ∧ title row = title temp ∧ description row = description temp
     ∧ assigneeId row = assigneeId temp ∧ watcherIds row = watcherIds temp)
  ∧ (useCreateIssue.c_boardId issue = b →
     useCreateIssue.c_sprintId issue = sp →
     Forall (λ x, order x ≤ useCreateIssue.c_order issue) before →
     IssuesTable.list db' b sp = settled)
  ∧ (¬ (useCreateIssue.c_boardId issue = b
        ∧ useCreateIssue.c_sprintId issue = sp) →
     IssuesTable.list db' b sp = before).
Proof.
  intros k before started temp settled Hprev Hfresh Hcreate.
  assert (settled = before ++ [row]) as Hsettled.
  { unfold settled, started, useCreateIssue.onSuccess, useCreateIssue.onMutate.
    cbv zeta. simpl. rewrite !cachedList_set, fmap_app. fold before. f_equal.
    - apply fmap_id_elem. intros x Hx.
      rewrite bool_decide_false; [done|]. intros [= Hid]. apply Hfresh.
      simpl. rewrite <- Hid. apply list_elem_of_fmap. by exists x.
    - simpl. by rewrite bool_decide_true. }
  unfold IssuesTable.create in Hcreate. cbv zeta in Hcreate.
  case_bool_decide as Hnew; [done|].
  injection Hcreate as <- <-.
  split; [done|]. split; [done|].
  rewrite !IssuesTable_list_snoc.
  cbn [boardId sprintId JiraClient.createIssueBody IssuesTable.in_boardId
         IssuesTable.in_sprintId].
  split.
  - intros Hb Hsp Hord.
    rewrite decide_True by done.
    rewrite insert_sorted_back; [by rewrite Hsettled, Hprev|].
    rewrite <- Hprev. exact Hord.
  - intros Hout. by rewrite decide_False.
Qed.

Lemma refetch_confirms_create_witness :
  ∃ db' row,
    IssuesTable.create sprint_board "D"
      (JiraClient.createIssueBody
         (useCreateIssue.mkCreateIssueInput "demo" (Some "s1") todo 3000
            "New" "" None []))
    = Some (db', row)
    ∧ key row = "demo-4"
    ∧ IssuesTable.list db' "demo" (Some "s1")
      = IssuesTable.list sprint_board "demo" (Some "s1") ++ [row].
Proof.
  set (issue := useCreateIssue.mkCreateIssueInput "demo" (Some "s1") todo 3000
                  "New" "" None []).
  destruct (IssuesTable.create sprint_board "D" (JiraClient.createIssueBody issue))
    as [[db' row]|] eqn:Hc; [|by vm_compute in Hc].
  exists db', row. split; [done|].
  split; [by vm_compute in Hc; injection Hc as <- <-|].
  destruct (refetch_confirms_create
              {[ ("demo", Some "s1")
                 := IssuesTable.list sprint_board "demo" (Some "s1") ]}
              sprint_board "demo" (Some "s1") "1" "D" issue db' row)
    as (Hs & _ & Hl & _).
  - vm_compute. reflexivity.
  - apply (bool_decide_unpack _). vm_compute. exact I.
  - exact Hc.
  - rewrite Hl; [|done|done|].
    + rewrite Hs. vm_compute. reflexivity.
    + apply (bool_decide_unpack _). vm_compute. exact I.
Defined.
